(** * usdFBX node readers: a shallow embedding of [src/FbxNodeReader.cpp]

    The development follows the namespaces of the source file:

    - [Fp]          the floating-point formats the readers convert between;
    - [scene]       nodes with parent back-references;
    - [helpers]     [FbxToUsd] (type table and the two [getValue] overloads)
                    and [getPropertyAnimation];
    - [converters]  mesh layer readers, [skeletonToTokenPath],
                    [getBindingData];
    - [readers]     [CreateProperty], [readCamera], the joint collection of
                    [readSkeleton] and the scales channel of
                    [readSkeletonAnimation];
    - [UsdSkel]     reference behaviour of the two UsdSkel utilities;
    - [spec]        reference definitions the properties are stated with;
    - [examples]    concrete scenes, meshes and properties.

    C++ undefined behaviour (an out-of-range [operator[]], a null
    dereference, a float-to-integer cast whose truncated value does not fit)
    is modelled by [None].  Frame times are whole frame numbers. *)

From Stdlib Require Import ZArith Lia.
From Stdlib Require Import SpecFloat.
From stdpp Require Import base option list strings numbers.

Open Scope Z_scope.

(** ** Floating-point formats *)

Module Fp.

(** IEEE-754 values; [half], [float] and [double] are the binary16,
    binary32 and binary64 subsets of [spec_float]. *)
Definition half := spec_float.
Definition float := spec_float.
Definition double := spec_float.

Definition prec16 := 11.
Definition emax16 := 16.
Definition prec32 := 24.
Definition emax32 := 128.
Definition prec64 := 53.
Definition emax64 := 1024.

Definition valid_half (x : spec_float) : bool := valid_binary prec16 emax16 x.
Definition valid_float (x : spec_float) : bool := valid_binary prec32 emax32 x.

(** Conversion to a narrower format rounds to nearest, ties to even. *)
Definition round_to (prec emax : Z) (x : spec_float) : spec_float :=
  match x with
  | S754_finite s m e => binary_round prec emax s m e
  | _ => x
  end.

Definition double_to_float : double -> float := round_to prec32 emax32.
Definition float_to_half : float -> half := round_to prec16 emax16.
(** Widening conversions are exact. *)
Definition float_to_double (x : float) : double := x.
Definition half_to_float (x : half) : float := x.

Definition zero : spec_float := S754_zero false.

(** The integral part, fraction discarded (truncation toward zero);
    infinities and NaN have none. *)
Definition trunc (x : spec_float) : option Z :=
  match x with
  | S754_zero _ => Some 0
  | S754_finite s m e =>
      Some (cond_Zopp s (if 0 <=? e then Z.pos m * 2 ^ e
                         else Z.pos m / 2 ^ (- e)))
  | _ => None
  end.

(** [static_cast< intN_t >( f )]: the truncated value when the destination
    type can represent it, undefined otherwise. *)
Definition to_integer (lo hi : Z) (x : spec_float) : option Z :=
  match trunc x with
  | Some t => if (lo <=? t) && (t <=? hi) then Some t else None
  | None => None
  end.

Definition to_uint8 := to_integer 0 (2 ^ 8 - 1).
Definition to_int32 := to_integer (- 2 ^ 31) (2 ^ 31 - 1).
Definition to_uint32 := to_integer 0 (2 ^ 32 - 1).
Definition to_int64 := to_integer (- 2 ^ 63) (2 ^ 63 - 1).
Definition to_uint64 := to_integer 0 (2 ^ 64 - 1).

(** [static_cast< bool >( f )] is [f != 0]. *)
Definition to_bool (x : spec_float) : bool := negb (SFeqb x zero).

(** The [float] nearest to [m * 2 ^ e], for the literals used below. *)
Definition float_lit (m e : Z) : float :=
  binary_normalize prec32 emax32 m e false.
Definition double_lit (m e : Z) : double :=
  binary_normalize prec64 emax64 m e false.

#[global] Instance spec_float_eq_dec : EqDecision spec_float.
Proof. solve_decision. Defined.

End Fp.

(** ** Integer types *)

Definition wrap_unsigned (w : Z) (z : Z) : Z := z mod 2 ^ w.
Definition wrap_signed (w : Z) (z : Z) : Z :=
  (z + 2 ^ (w - 1)) mod 2 ^ w - 2 ^ (w - 1).


(** ** Target paths and tokens *)

Definition TfToken := string.

(** [SdfPath]: the empty path, or an absolute or relative sequence of
    element names.  Names are taken to be valid path identifiers. *)
Inductive SdfPath :=
| EmptyPath
| Path (absolute : bool) (elems : list TfToken).

#[global] Instance SdfPath_eq_dec : EqDecision SdfPath.
Proof. solve_decision. Defined.

(** [SdfPath( name )] for a single node name. *)
Definition SdfPath_of (name : string) : SdfPath :=
  if decide (name = "") then EmptyPath else Path false [name].

Definition AbsoluteRootPath : SdfPath := Path true [].
(** [SdfPath( "/ROOT" )], the prim every converted scene hangs under. *)
Definition ROOT : SdfPath := Path true ["ROOT"].

Definition AppendChild (p : SdfPath) (child : TfToken) : SdfPath :=
  match p with
  | EmptyPath => EmptyPath
  | Path a es => Path a (es ++ [child])
  end.

(** Appending needs a non-empty receiver and a relative suffix. *)
Definition AppendPath (p suffix : SdfPath) : SdfPath :=
  match p, suffix with
  | Path a es, Path false es' => Path a (es ++ es')
  | _, _ => EmptyPath
  end.

Definition AppendProperty (p : SdfPath) (prop : TfToken) : SdfPath :=
  match p with
  | EmptyPath => EmptyPath
  | Path a es =>
      match reverse es with
      | [] => EmptyPath
      | last :: front => Path a (reverse front ++ [last +:+ "." +:+ prop])
      end
  end.

Fixpoint join (sep : string) (l : list string) : string :=
  match l with
  | [] => ""
  | [x] => x
  | x :: rest => x +:+ sep +:+ join sep rest
  end.

Definition GetAsToken (p : SdfPath) : TfToken :=
  match p with
  | EmptyPath => ""
  | Path true es => "/" +:+ join "/" es
  | Path false [] => "."
  | Path false es => join "/" es
  end.

(** ** The source scene graph *)

Module scene.

(** [FbxNodeAttribute::EType]. *)
Inductive EAttributeType :=
| eUnknown | eNull | eMarker | eSkeleton | eMesh | eNurbs | ePatch | eCamera
| eCameraStereo | eCameraSwitcher | eLight | eOpticalReference
| eOpticalMarker | eNurbsCurve | eTrimNurbsSurface | eBoundary
| eNurbsSurface | eShape | eLODGroup | eSubDiv | eCachedEffect | eLine.

#[global] Instance EAttributeType_eq_dec : EqDecision EAttributeType.
Proof. solve_decision. Defined.

#[local] Unset Elimination Schemes.

(** A subtree as the scene stores it: name, attribute kind (if any),
    children in authoring order. *)
Inductive FbxTree :=
| TNode (name : string) (attribute : option EAttributeType)
        (children : list FbxTree).

(** A node handle: the node's own data, its parent handle (absent for the
    scene's root node) and the subtrees below it. *)
Inductive FbxNode :=
| mkFbxNode (name : string) (attribute : option EAttributeType)
            (parent : option FbxNode) (children : list FbxTree).

#[local] Set Elimination Schemes.

Definition GetName (n : FbxNode) : string :=
  match n with mkFbxNode name _ _ _ => name end.
Definition GetNodeAttribute (n : FbxNode) : option EAttributeType :=
  match n with mkFbxNode _ a _ _ => a end.
Definition GetParent (n : FbxNode) : option FbxNode :=
  match n with mkFbxNode _ _ p _ => p end.
Definition GetChildren (n : FbxNode) : list FbxTree :=
  match n with mkFbxNode _ _ _ ks => ks end.
Definition GetChildCount (n : FbxNode) : nat := length (GetChildren n).

(** The handle of a subtree hanging under [parent]. *)
Definition childHandle (parent : FbxNode) (t : FbxTree) : FbxNode :=
  match t with TNode name a ks => mkFbxNode name a (Some parent) ks end.

Definition GetChild (n : FbxNode) (i : nat) : option FbxNode :=
  childHandle n <$> GetChildren n !! i.

(** The scene's root node of a tree. *)
Definition rootHandle (t : FbxTree) : FbxNode :=
  match t with TNode name a ks => mkFbxNode name a None ks end.

(** The [isSkeleton] lambda of [readSkeleton] and [readSkeletonAnimation]. *)
Definition isSkeleton (n : FbxNode) : bool :=
  bool_decide (GetNodeAttribute n = Some eSkeleton).

(** An [FbxSkeleton*] obtained by casting a node's attribute pointer: null
    when the node has no attribute; [GetNode()] leads back to the node. *)
Definition asSkeleton (n : FbxNode) : option FbxNode :=
  match GetNodeAttribute n with
  | Some _ => Some n
  | None => None
  end.

End scene.

(** ** Namespace [helpers] *)

Module helpers.
Import Fp.

(** [EFbxType], the type tag of a source property. *)
Inductive EFbxType :=
| eFbxUndefined | eFbxChar | eFbxUChar | eFbxShort | eFbxUShort | eFbxUInt
| eFbxLongLong | eFbxULongLong | eFbxHalfFloat | eFbxBool | eFbxInt
| eFbxFloat | eFbxDouble | eFbxDouble2 | eFbxDouble3 | eFbxDouble4
| eFbxDouble4x4 | eFbxEnum | eFbxEnumM | eFbxString | eFbxTime
| eFbxReference | eFbxBlob | eFbxDistance | eFbxDateTime.

#[global] Instance EFbxType_eq_dec : EqDecision EFbxType.
Proof. solve_decision. Defined.

Definition all_EFbxType : list EFbxType :=
  [ eFbxUndefined; eFbxChar; eFbxUChar; eFbxShort; eFbxUShort; eFbxUInt;
    eFbxLongLong; eFbxULongLong; eFbxHalfFloat; eFbxBool; eFbxInt;
    eFbxFloat; eFbxDouble; eFbxDouble2; eFbxDouble3; eFbxDouble4;
    eFbxDouble4x4; eFbxEnum; eFbxEnumM; eFbxString; eFbxTime;
    eFbxReference; eFbxBlob; eFbxDistance; eFbxDateTime ].

(** The members of [SdfValueTypeNames] the readers use. *)
Module SdfValueTypeNames.
Inductive t :=
| Bool | UChar | Int | UInt | Int64 | UInt64 | Half | Float | Double
| TimeCode | Token | Double2 | Double3 | Double4 | Float2 | Float3
| Matrix4d | Color3f | IntArray | FloatArray | TokenArray | Float3Array
| Half3Array | QuatfArray | Point3fArray | Normal3fArray | TexCoord2fArray
| Matrix4dArray.
End SdfValueTypeNames.
Definition SdfValueTypeName := SdfValueTypeNames.t.

#[global] Instance SdfValueTypeName_eq_dec : EqDecision SdfValueTypeName.
Proof. solve_decision. Defined.

Definition GfVec2f : Type := float * float.
Definition GfVec3f : Type := float * float * float.
Definition GfVec3h : Type := half * half * half.
(** Sixteen entries, row-major. *)
Definition GfMatrix4d : Type := list double.

(** [VtValue]: a value together with the C++ type it holds. *)
Inductive VtValue :=
| VtEmpty
| VtBool (b : bool)
| VtUChar (v : Z)
| VtInt (v : Z)
| VtUInt (v : Z)
| VtInt64 (v : Z)
| VtUInt64 (v : Z)
| VtHalf (h : half)
| VtFloat (f : float)
| VtDouble (d : double)
| VtVec2d (x y : double)
| VtVec3d (x y z : double)
| VtVec4d (x y z w : double)
| VtVec2f (v : GfVec2f)
| VtMatrix4d (m : GfMatrix4d)
| VtTimeCode (t : double)
| VtToken (s : TfToken)
| VtString (s : string)
| VtVec3hArray (a : list GfVec3h).

#[global] Instance VtValue_eq_dec : EqDecision VtValue.
Proof. solve_decision. Defined.

(** The C++ type held by a [VtValue]. *)
Inductive HeldType :=
| h_void | h_bool | h_uint8 | h_int32 | h_uint32 | h_int64 | h_uint64
| h_GfHalf | h_float | h_double | h_GfVec2d | h_GfVec3d | h_GfVec4d
| h_GfVec2f | h_GfMatrix4d | h_UsdTimeCode | h_TfToken | h_string
| h_VtVec3hArray.

#[global] Instance HeldType_eq_dec : EqDecision HeldType.
Proof. solve_decision. Defined.

Definition GetType (v : VtValue) : HeldType :=
  match v with
  | VtEmpty => h_void
  | VtBool _ => h_bool
  | VtUChar _ => h_uint8
  | VtInt _ => h_int32
  | VtUInt _ => h_uint32
  | VtInt64 _ => h_int64
  | VtUInt64 _ => h_uint64
  | VtHalf _ => h_GfHalf
  | VtFloat _ => h_float
  | VtDouble _ => h_double
  | VtVec2d _ _ => h_GfVec2d
  | VtVec3d _ _ _ => h_GfVec3d
  | VtVec4d _ _ _ _ => h_GfVec4d
  | VtVec2f _ => h_GfVec2f
  | VtMatrix4d _ => h_GfMatrix4d
  | VtTimeCode _ => h_UsdTimeCode
  | VtToken _ => h_TfToken
  | VtString _ => h_string
  | VtVec3hArray _ => h_VtVec3hArray
  end.

(** [VtValue::operator==]: same held type and equal payloads, floating-point
    payloads compared as IEEE numbers. *)
Definition GfVec3h_eqb (a b : GfVec3h) : bool :=
  SFeqb a.1.1 b.1.1 && SFeqb a.1.2 b.1.2 && SFeqb a.2 b.2.

Fixpoint array_eqb {A} (eqb : A -> A -> bool) (a b : list A) : bool :=
  match a, b with
  | [], [] => true
  | x :: a', y :: b' => eqb x y && array_eqb eqb a' b'
  | _, _ => false
  end.

Definition VtValue_eqb (a b : VtValue) : bool :=
  match a, b with
  | VtEmpty, VtEmpty => true
  | VtBool x, VtBool y => bool_decide (x = y)
  | VtUChar x, VtUChar y | VtInt x, VtInt y | VtUInt x, VtUInt y
  | VtInt64 x, VtInt64 y | VtUInt64 x, VtUInt64 y => x =? y
  | VtHalf x, VtHalf y | VtFloat x, VtFloat y | VtDouble x, VtDouble y
  | VtTimeCode x, VtTimeCode y => SFeqb x y
  | VtVec2d x1 x2, VtVec2d y1 y2 => SFeqb x1 y1 && SFeqb x2 y2
  | VtVec3d x1 x2 x3, VtVec3d y1 y2 y3 =>
      SFeqb x1 y1 && SFeqb x2 y2 && SFeqb x3 y3
  | VtVec4d x1 x2 x3 x4, VtVec4d y1 y2 y3 y4 =>
      SFeqb x1 y1 && SFeqb x2 y2 && SFeqb x3 y3 && SFeqb x4 y4
  | VtVec2f x, VtVec2f y => SFeqb x.1 y.1 && SFeqb x.2 y.2
  | VtMatrix4d x, VtMatrix4d y => array_eqb SFeqb x y
  | VtToken x, VtToken y | VtString x, VtString y => bool_decide (x = y)
  | VtVec3hArray x, VtVec3hArray y => array_eqb GfVec3h_eqb x y
  | _, _ => false
  end.

(** *** Source properties *)

(** An animation curve, through [Evaluate] at a frame. *)
Definition FbxAnimCurve : Type := Z -> float.

(** A curve node: one optional curve per channel. *)
Record FbxAnimCurveNode := { channels : list (option FbxAnimCurve) }.
Definition GetChannelsCount (cn : FbxAnimCurveNode) : nat :=
  length (channels cn).
(** [GetCurve( channelId )]: the channel's first curve, or null. *)
Definition GetCurve (cn : FbxAnimCurveNode) (channelId : nat)
  : option FbxAnimCurve := mjoin (channels cn !! channelId).

Definition FbxAnimLayer := nat.

(** A 4x4 matrix of doubles, through [m[ i ][ j ]]. *)
Definition FbxMatrix : Type := nat -> nat -> double.

(** What a property stores, by storage type. *)
Inductive FbxData :=
| DNone
| DBool (b : bool)
| DInteger (z : Z)
| DHalf (h : half)
| DFloat (f : float)
| DDouble (d : double)
| DDouble2 (x y : double)
| DDouble3 (x y z : double)
| DDouble4 (x y z w : double)
| DDouble4x4 (m : FbxMatrix)
| DTime (frameCountPrecise : double)
| DDistance (value : float) (unit : string)
| DString (s : string)
| DBlob (s : string).

Record FbxProperty := {
  IsValid : bool;
  Name : string;
  DataType : EFbxType;
  UserDefined : bool;
  Data : FbxData;
  CurveNodes : FbxAnimLayer -> option FbxAnimCurveNode
}.

(** [fbxProperty.GetCurveNode( animLayer )] and the evaluator's
    [GetPropertyCurveNode]: an invalid property has no curve node. *)
Definition GetCurveNode (p : FbxProperty) (animLayer : FbxAnimLayer)
  : option FbxAnimCurveNode :=
  if IsValid p then CurveNodes p animLayer else None.

(** [Get< T >()]: the stored value read at C++ type [T]. *)
Definition Get_integer (p : FbxProperty) : Z :=
  match Data p with
  | DInteger z => z
  | DBool b => if b then 1 else 0
  | _ => 0
  end.
Definition Get_FbxChar p := wrap_signed 8 (Get_integer p).
Definition Get_FbxUChar p := wrap_unsigned 8 (Get_integer p).
Definition Get_FbxShort p := wrap_signed 16 (Get_integer p).
Definition Get_FbxUShort p := wrap_unsigned 16 (Get_integer p).
Definition Get_int32 p := wrap_signed 32 (Get_integer p).
Definition Get_uint32 p := wrap_unsigned 32 (Get_integer p).
Definition Get_FbxLongLong p := wrap_signed 64 (Get_integer p).
Definition Get_FbxULongLong p := wrap_unsigned 64 (Get_integer p).
Definition Get_bool (p : FbxProperty) : bool :=
  match Data p with
  | DBool b => b
  | DInteger z => negb (z =? 0)
  | _ => false
  end.
Definition Get_FbxHalfFloat (p : FbxProperty) : half :=
  match Data p with DHalf h => h | _ => zero end.
Definition Get_float (p : FbxProperty) : float :=
  match Data p with DFloat f => f | _ => zero end.
Definition Get_double (p : FbxProperty) : double :=
  match Data p with DDouble d => d | _ => zero end.
Definition Get_FbxDouble2 (p : FbxProperty) : double * double :=
  match Data p with DDouble2 x y => (x, y) | _ => (zero, zero) end.
Definition Get_FbxDouble3 (p : FbxProperty) : double * double * double :=
  match Data p with DDouble3 x y z => (x, y, z) | _ => (zero, zero, zero) end.
Definition Get_FbxDouble4 (p : FbxProperty)
  : double * double * double * double :=
  match Data p with
  | DDouble4 x y z w => (x, y, z, w)
  | _ => (zero, zero, zero, zero)
  end.
Definition Get_FbxMatrix (p : FbxProperty) : FbxMatrix :=
  match Data p with DDouble4x4 m => m | _ => fun _ _ => zero end.
(** [Get< FbxTime >().GetFrameCountPrecise()]. *)
Definition Get_FbxTime_FrameCountPrecise (p : FbxProperty) : double :=
  match Data p with DTime t => t | _ => zero end.
(** [Get< FbxDistance >().value()]. *)
Definition Get_FbxDistance_value (p : FbxProperty) : float :=
  match Data p with DDistance v _ => v | _ => zero end.
Definition Get_FbxBlob (p : FbxProperty) : string :=
  match Data p with DBlob s => s | _ => "" end.
Definition Get_FbxString (p : FbxProperty) : string :=
  match Data p with DString s => s | _ => "" end.

Definition toGfMatrix (m : FbxMatrix) : GfMatrix4d :=
  [ m 0 0; m 0 1; m 0 2; m 0 3; m 1 0; m 1 1; m 1 2; m 1 3;
    m 2 0; m 2 1; m 2 2; m 2 3; m 3 0; m 3 1; m 3 2; m 3 3 ]%nat.

(** *** [struct FbxToUsd] *)

Definition getNameAsUserProperty (fbxProperty : FbxProperty) : TfToken :=
  "userProperties:" +:+ Name fbxProperty.

Definition getName (fbxProperty : FbxProperty) : TfToken :=
  if UserDefined fbxProperty then getNameAsUserProperty fbxProperty
  else Name fbxProperty.

Definition getSdfTypeName (fbxProperty : FbxProperty) : SdfValueTypeName :=
  match DataType fbxProperty with
  | eFbxUChar | eFbxChar => SdfValueTypeNames.UChar
  | eFbxShort => SdfValueTypeNames.Int
  | eFbxUShort => SdfValueTypeNames.UInt
  | eFbxLongLong => SdfValueTypeNames.Int64
  | eFbxULongLong => SdfValueTypeNames.UInt64
  | eFbxHalfFloat => SdfValueTypeNames.Half
  | eFbxBool => SdfValueTypeNames.Bool
  | eFbxInt => SdfValueTypeNames.Int
  | eFbxUInt => SdfValueTypeNames.UInt
  | eFbxDistance | eFbxFloat => SdfValueTypeNames.Float
  | eFbxDouble => SdfValueTypeNames.Double
  | eFbxDouble2 => SdfValueTypeNames.Double2
  | eFbxDouble3 => SdfValueTypeNames.Double3
  | eFbxDouble4 => SdfValueTypeNames.Double4
  | eFbxDouble4x4 => SdfValueTypeNames.Matrix4d
  | eFbxTime => SdfValueTypeNames.TimeCode
  | eFbxBlob | eFbxString => SdfValueTypeNames.Token
  | _ => SdfValueTypeNames.Token
  end.

(** [getValue()], the default value of the property. *)
Definition getValue (fbxProperty : FbxProperty) : VtValue :=
  match DataType fbxProperty with
  | eFbxUChar => VtUChar (Get_FbxUChar fbxProperty)
  | eFbxChar => VtUChar (wrap_unsigned 8 (Get_FbxChar fbxProperty))
  | eFbxShort => VtInt (wrap_signed 32 (Get_FbxShort fbxProperty))
  | eFbxUShort => VtUInt (wrap_unsigned 32 (Get_FbxUShort fbxProperty))
  | eFbxLongLong => VtInt64 (wrap_signed 64 (Get_FbxLongLong fbxProperty))
  | eFbxULongLong =>
      VtUInt64 (wrap_unsigned 64 (Get_FbxULongLong fbxProperty))
  | eFbxHalfFloat =>
      VtHalf (float_to_half (half_to_float (Get_FbxHalfFloat fbxProperty)))
  | eFbxBool => VtBool (Get_bool fbxProperty)
  | eFbxInt => VtInt (Get_int32 fbxProperty)
  | eFbxUInt => VtUInt (Get_uint32 fbxProperty)
  | eFbxFloat => VtFloat (Get_float fbxProperty)
  | eFbxDouble => VtDouble (Get_double fbxProperty)
  | eFbxDouble2 =>
      let d2 := Get_FbxDouble2 fbxProperty in VtVec2d d2.1 d2.2
  | eFbxDouble3 =>
      let d3 := Get_FbxDouble3 fbxProperty in VtVec3d d3.1.1 d3.1.2 d3.2
  | eFbxDouble4 =>
      let d4 := Get_FbxDouble4 fbxProperty in
      VtVec4d d4.1.1.1 d4.1.1.2 d4.1.2 d4.2
  | eFbxDouble4x4 => VtMatrix4d (toGfMatrix (Get_FbxMatrix fbxProperty))
  | eFbxTime => VtTimeCode (Get_FbxTime_FrameCountPrecise fbxProperty)
  | eFbxDistance => VtFloat (Get_FbxDistance_value fbxProperty)
  | eFbxBlob => VtToken (Get_FbxBlob fbxProperty)
  | eFbxString => VtToken (Get_FbxString fbxProperty)
  | _ => VtToken "UNKNOWN TYPE"
  end.

(** [getValue( animChannels )], the value of one sampled frame.  Indexing
    the channel vector past its end and casting a float that the integer
    type cannot represent are undefined. *)
Definition getValue_anim (fbxProperty : FbxProperty) (animChannels : list float)
  : option VtValue :=
  let ch (i : nat) := animChannels !! i in
  match DataType fbxProperty with
  | eFbxBool => c ← ch 0%nat; Some (VtBool (to_bool c))
  | eFbxUChar | eFbxChar => c ← ch 0%nat; v ← to_uint8 c; Some (VtUChar v)
  | eFbxShort => c ← ch 0%nat; v ← to_int32 c; Some (VtInt v)
  | eFbxUShort => c ← ch 0%nat; v ← to_uint32 c; Some (VtUInt v)
  | eFbxInt => c ← ch 0%nat; v ← to_int32 c; Some (VtInt v)
  | eFbxUInt => c ← ch 0%nat; v ← to_uint32 c; Some (VtUInt v)
  | eFbxLongLong => c ← ch 0%nat; v ← to_int64 c; Some (VtInt64 v)
  | eFbxULongLong => c ← ch 0%nat; v ← to_uint64 c; Some (VtUInt64 v)
  | eFbxHalfFloat => c ← ch 0%nat; Some (VtHalf (float_to_half c))
  | eFbxFloat => c ← ch 0%nat; Some (VtFloat c)
  | eFbxDouble => c ← ch 0%nat; Some (VtDouble (float_to_double c))
  | eFbxDouble2 =>
      c0 ← ch 0%nat; c1 ← ch 1%nat;
      Some (VtVec2d (float_to_double c0) (float_to_double c1))
  | eFbxDouble3 =>
      c0 ← ch 0%nat; c1 ← ch 1%nat; c2 ← ch 2%nat;
      Some (VtVec3d (float_to_double c0) (float_to_double c1)
                    (float_to_double c2))
  | eFbxDouble4 =>
      c0 ← ch 0%nat; c1 ← ch 1%nat; c2 ← ch 2%nat; c3 ← ch 3%nat;
      Some (VtVec4d (float_to_double c0) (float_to_double c1)
                    (float_to_double c2) (float_to_double c3))
  | eFbxDouble4x4 =>
      m ← mapM ch (seq 0 16);
      Some (VtMatrix4d (float_to_double <$> m))
  | _ => Some (VtToken "UNKNOWN VALUE")
  end.

(** *** [getPropertyAnimation] *)

(** A frame number; [FbxTime::SetFrame] and [GetFrameCount] convert to and
    from it. *)
Definition FbxTime := Z.

(** An inclusive frame range: [GetStart().GetFrameCount()] and
    [GetStop().GetFrameCount()]. *)
Record FbxTimeSpan := { GetStart : Z; GetStop : Z }.

(** [GetDuration().GetFrameCount()]: the duration of a time span is never
    negative, also when the span runs backwards. *)
Definition GetDuration (span : FbxTimeSpan) : Z :=
  Z.abs (GetStop span - GetStart span).

(** [UsdTimeCode( static_cast< double >( frame ) )], kept as the frame
    number: the conversion is exact for every frame below [2 ^ 53] in
    magnitude, which covers every frame count an [FbxTime] can hold. *)
Definition UsdTimeCode := Z.

Definition TimeSamples : Type := list (UsdTimeCode * VtValue).

(** The frames visited by
    [for( frame = start; frame <= stop; ++frame )]. *)
Definition frames (span : FbxTimeSpan) : list Z :=
  seqZ (GetStart span) (GetStop span - GetStart span + 1).

(** The overload sampling an arbitrary per-frame value function. *)
Definition getPropertyAnimation_fn {Node : Type}
    (node : Node) (valueAtTimeFn : Node -> FbxTime -> VtValue)
    (animLayer : option FbxAnimLayer) (animTimeSpan : FbxTimeSpan)
  : TimeSamples :=
  match animLayer with
  | None => []
  | Some _ =>
      foldl (fun result frame => result ++ [(frame, valueAtTimeFn node frame)])
            [] (frames animTimeSpan)
  end.

(** [std::set< UsdTimeCode >::insert]: ascending, without duplicates. *)
Fixpoint set_insert (t : UsdTimeCode) (s : list UsdTimeCode)
  : list UsdTimeCode :=
  match s with
  | [] => [t]
  | x :: s' =>
      if t <? x then t :: s
      else if t =? x then s
      else x :: set_insert t s'
  end.

(** The search for a channel with a curve. *)
Fixpoint hasAnimCurves_from (curveNode : FbxAnimCurveNode)
    (channelIds : list nat) : bool :=
  match channelIds with
  | [] => false
  | channelId :: rest =>
      match GetCurve curveNode channelId with
      | Some _ => true
      | None => hasAnimCurves_from curveNode rest
      end
  end.

Definition hasAnimCurves (curveNode : FbxAnimCurveNode) : bool :=
  hasAnimCurves_from curveNode (seq 0 (GetChannelsCount curveNode)).

(** The frame loop of one channel:
    [channelValues[ index ][ channelId ] = animCurve->Evaluate( frame )]. *)
Fixpoint evaluateCurve (animCurve : FbxAnimCurve) (channelId : nat)
    (frameList : list Z) (index : nat)
    (timeCodes : list UsdTimeCode) (channelValues : list (list float))
  : option (list UsdTimeCode * list (list float)) :=
  match frameList with
  | [] => Some (timeCodes, channelValues)
  | frame :: rest =>
      row ← channelValues !! index;
      if decide (channelId < length row)%nat then
        evaluateCurve animCurve channelId rest (S index)
          (set_insert frame timeCodes)
          (<[index := <[channelId := animCurve frame]> row]> channelValues)
      else None
  end.

(** The channel loop. *)
Fixpoint evaluateChannels (curveNode : FbxAnimCurveNode)
    (animTimeSpan : FbxTimeSpan) (channelIds : list nat)
    (timeCodes : list UsdTimeCode) (channelValues : list (list float))
  : option (list UsdTimeCode * list (list float)) :=
  match channelIds with
  | [] => Some (timeCodes, channelValues)
  | channelId :: rest =>
      match GetCurve curveNode channelId with
      | None => evaluateChannels curveNode animTimeSpan rest
                  timeCodes channelValues
      | Some animCurve =>
          '(timeCodes', channelValues') ←
            evaluateCurve animCurve channelId (frames animTimeSpan) 0
              timeCodes channelValues;
          evaluateChannels curveNode animTimeSpan rest
            timeCodes' channelValues'
      end
  end.

(** The binary [std::transform] over the rows and the time codes; the
    second range has to be at least as long as the first. *)
Fixpoint transform2 {A B C} (f : A -> B -> option C)
    (first1 : list A) (first2 : list B) : option (list C) :=
  match first1, first2 with
  | [], _ => Some []
  | a :: r1, b :: r2 =>
      c ← f a b; rest ← transform2 f r1 r2; Some (c :: rest)
  | _ :: _, [] => None
  end.

(** The overload sampling the curves bound to a property. *)
Definition getPropertyAnimation (fbxProperty : FbxProperty)
    (animLayer : option FbxAnimLayer) (animTimeSpan : FbxTimeSpan)
  : option TimeSamples :=
  match animLayer with
  | None => Some []
  | Some layer =>
      if negb (IsValid fbxProperty) then Some []
      else
        match GetCurveNode fbxProperty layer with
        | None => Some []
        | Some curveNode =>
            if negb (hasAnimCurves curveNode) then Some []
            else
              let numKeys :=
                wrap_unsigned 64 (GetDuration animTimeSpan + 1) in
              let defaultChannelsValue :=
                replicate (GetChannelsCount curveNode) zero in
              let channelValues :=
                replicate (Z.to_nat numKeys) defaultChannelsValue in
              '(timeCodes, channelValues') ←
                evaluateChannels curveNode animTimeSpan
                  (seq 0 (GetChannelsCount curveNode)) [] channelValues;
              transform2
                (fun channelValue timeCode =>
                   val ← getValue_anim fbxProperty channelValue;
                   Some (timeCode, val))
                channelValues' timeCodes
        end
  end.

(** *** User properties *)

Definition getUserProperties (properties : list FbxProperty)
  : list FbxProperty := filter (fun p => UserDefined p = true) properties.

Definition getDisplayGroupMetadata (displayGroupName : TfToken)
  : TfToken * VtValue := ("displayGroup", VtString displayGroupName).

End helpers.

(** ** Namespace [converters] *)

Module converters.
Import Fp scene helpers.

(** *** Layered mesh attributes *)

Inductive EMappingMode :=
| eNone | eByControlPoint | eByPolygonVertex | eByPolygon | eByEdge
| eAllSame.

Inductive EReferenceMode := eDirect | eIndex | eIndexToDirect.

#[global] Instance EMappingMode_eq_dec : EqDecision EMappingMode.
Proof. solve_decision. Defined.
#[global] Instance EReferenceMode_eq_dec : EqDecision EReferenceMode.
Proof. solve_decision. Defined.

Record FbxLayerElementTemplate (T : Type) := {
  ElementName : string;
  GetMappingMode : EMappingMode;
  GetReferenceMode : EReferenceMode;
  GetDirectArray : list T;
  GetIndexArray : list Z
}.
Arguments ElementName {T} _.
Arguments GetMappingMode {T} _.
Arguments GetReferenceMode {T} _.
Arguments GetDirectArray {T} _.
Arguments GetIndexArray {T} _.

Definition FbxVector2 : Type := double * double.
Definition FbxVector4 : Type := double * double * double * double.
(** Red, green, blue, alpha. *)
Definition FbxColor : Type := double * double * double * double.

Record FbxLayer := {
  GetNormals : option (FbxLayerElementTemplate FbxVector4);
  GetTangents : option (FbxLayerElementTemplate FbxVector4);
  GetVertexColors : option (FbxLayerElementTemplate FbxColor);
  GetUVs : option (FbxLayerElementTemplate FbxVector2)
}.

(** A mesh: its layers, its polygons (each the list of its control-point
    indices, in winding order), its control points, and the normal the SDK
    reports for a polygon vertex through [GetPolygonVertexNormal]. *)
Record FbxMesh := {
  Layers : list FbxLayer;
  Polygons : list (list Z);
  ControlPoints : list FbxVector4;
  GetPolygonVertexNormal : nat -> nat -> option FbxVector4
}.

Definition GetLayerCount (mesh : FbxMesh) : nat := length (Layers mesh).
Definition GetPolygonCount (mesh : FbxMesh) : nat := length (Polygons mesh).
Definition GetControlPointsCount (mesh : FbxMesh) : nat :=
  length (ControlPoints mesh).

(** [GetAt( i )] on an array, for an index inside the array; what is
    handed back for an index outside the array is not modelled, and there
    is no value ([None]). *)
Definition GetAt {T} (a : list T) (i : Z) : option T :=
  if decide (0 <= i) then a !! Z.to_nat i else None.

Definition getAtVertexIndex {T} (pLayerElement : FbxLayerElementTemplate T)
    (iVertexIndex : Z) : option T :=
  match GetReferenceMode pLayerElement with
  | eDirect => GetAt (GetDirectArray pLayerElement) iVertexIndex
  | eIndex | eIndexToDirect =>
      id ← GetAt (GetIndexArray pLayerElement) iVertexIndex;
      GetAt (GetDirectArray pLayerElement) id
  end.

Definition toGfVec (src : FbxVector4) : GfVec3f :=
  (double_to_float src.1.1.1, double_to_float src.1.1.2,
   double_to_float src.1.2).

(** The layer scans.  Each keeps a pointer that every accepted element
    overwrites. *)
Definition byPolygonVertexNotIndex {T} (e : FbxLayerElementTemplate T) : bool :=
  bool_decide (GetMappingMode e = eByPolygonVertex)
  && negb (bool_decide (GetReferenceMode e = eIndex)).

Fixpoint findNormals (layers : list FbxLayer)
    (perPolygonVertexNormals : option (FbxLayerElementTemplate FbxVector4))
  : option (FbxLayerElementTemplate FbxVector4) :=
  match layers with
  | [] => perPolygonVertexNormals
  | layer :: rest =>
      match GetNormals layer with
      | Some normalsElement =>
          if byPolygonVertexNotIndex normalsElement
          then findNormals rest (Some normalsElement)
          else findNormals rest perPolygonVertexNormals
      | None => findNormals rest perPolygonVertexNormals
      end
  end.

Fixpoint findTangents (layers : list FbxLayer)
    (perPolygonVertexTangents : option (FbxLayerElementTemplate FbxVector4))
  : option (FbxLayerElementTemplate FbxVector4) :=
  match layers with
  | [] => perPolygonVertexTangents
  | layer :: rest =>
      match GetTangents layer with
      | Some tangentsElement =>
          if byPolygonVertexNotIndex tangentsElement
          then findTangents rest (Some tangentsElement)
          else findTangents rest perPolygonVertexTangents
      | None => findTangents rest perPolygonVertexTangents
      end
  end.

(** The test that makes the vertex-colour scan [continue]. *)
Definition skipsVertexColors (e : FbxLayerElementTemplate FbxColor) : bool :=
  negb (bool_decide (GetMappingMode e = eByControlPoint))
  && negb (bool_decide (GetReferenceMode e = eIndex)).

Fixpoint findVertexColors (layers : list FbxLayer)
    (perPolygonVertexColors : option (FbxLayerElementTemplate FbxColor))
  : option (FbxLayerElementTemplate FbxColor) :=
  match layers with
  | [] => perPolygonVertexColors
  | layer :: rest =>
      match GetVertexColors layer with
      | Some vertexColorsElement =>
          if skipsVertexColors vertexColorsElement
          then findVertexColors rest perPolygonVertexColors
          else findVertexColors rest (Some vertexColorsElement)
      | None => findVertexColors rest perPolygonVertexColors
      end
  end.

(** The polygon vertices in the order of the nested loops:
    (polygonIndex, polygonVertex). *)
Definition polygonVertices (mesh : FbxMesh) : list (nat * nat) :=
  flat_map (fun '(polygonIndex, polygon) =>
              (fun polygonVertex => (polygonIndex, polygonVertex))
                <$> seq 0 (length polygon))
           (imap (fun i polygon => (i, polygon)) (Polygons mesh)).

(** The body of the conversion loop of [meshNormals]: state is
    [(currentIndex, normals)]. *)
Definition meshNormals_step (mesh : FbxMesh)
    (perPolygonVertexNormals : option (FbxLayerElementTemplate FbxVector4))
    (state : Z * list GfVec3f) (pv : nat * nat) : option (Z * list GfVec3f) :=
  let '(currentIndex, normals) := state in
  match perPolygonVertexNormals with
  | Some element =>
      normal ← getAtVertexIndex element currentIndex;
      Some (currentIndex + 1, normals ++ [toGfVec normal])
  | None =>
      match GetPolygonVertexNormal mesh pv.1 pv.2 with
      | Some normal => Some (currentIndex, normals ++ [toGfVec normal])
      | None => Some (currentIndex, normals)
      end
  end.

(** A loop whose body may hit undefined behaviour. *)
Fixpoint loopM {S A} (body : S -> A -> option S) (items : list A) (s : S)
  : option S :=
  match items with
  | [] => Some s
  | a :: rest => s' ← body s a; loopM body rest s'
  end.

Definition meshNormals (mesh : FbxMesh) : option (list GfVec3f) :=
  let perPolygonVertexNormals := findNormals (Layers mesh) None in
  snd <$> loopM (meshNormals_step mesh perPolygonVertexNormals)
                (polygonVertices mesh) (0, []).

Definition meshTangents_step
    (perPolygonVertexTangents : FbxLayerElementTemplate FbxVector4)
    (state : Z * list GfVec3f) (pv : nat * nat) : option (Z * list GfVec3f) :=
  let '(currentIndex, tangents) := state in
  normal ← getAtVertexIndex perPolygonVertexTangents currentIndex;
  Some (currentIndex + 1, tangents ++ [toGfVec normal]).

Definition meshTangents (mesh : FbxMesh) : option (list GfVec3f) :=
  match findTangents (Layers mesh) None with
  | None => Some []
  | Some perPolygonVertexTangents =>
      snd <$> loopM (meshTangents_step perPolygonVertexTangents)
                    (polygonVertices mesh) (0, [])
  end.

Definition meshVertexColors_step
    (perPolygonVertexColors : FbxLayerElementTemplate FbxColor)
    (colors : list GfVec3f) (i : nat) : option (list GfVec3f) :=
  color ← GetAt (GetDirectArray perPolygonVertexColors) (Z.of_nat i);
  Some (colors ++ [(double_to_float color.1.1.1,
                    double_to_float color.1.1.2,
                    double_to_float color.1.2)]).

Definition meshVertexColors (mesh : FbxMesh) : option (list GfVec3f) :=
  match findVertexColors (Layers mesh) None with
  | None => Some []
  | Some perPolygonVertexColors =>
      loopM (meshVertexColors_step perPolygonVertexColors)
            (seq 0 (GetControlPointsCount mesh)) []
  end.

Definition meshTexCoords_step
    (uvLayerElement : FbxLayerElementTemplate FbxVector2)
    (state : Z * list GfVec2f) (pv : nat * nat) : option (Z * list GfVec2f) :=
  let '(currentIndex, texCoords) := state in
  uv ← getAtVertexIndex uvLayerElement currentIndex;
  Some (currentIndex + 1,
        texCoords ++ [(double_to_float uv.1, double_to_float uv.2)]).

(** [meshTexCoords( node, layerIndex )]; the layer and its UV element have
    to exist. *)
Definition meshTexCoords (mesh : FbxMesh) (layerIndex : nat)
  : option (list GfVec2f) :=
  layer ← Layers mesh !! layerIndex;
  uvLayerElement ← GetUVs layer;
  snd <$> loopM (meshTexCoords_step uvLayerElement)
                (polygonVertices mesh) (0, []).

(** The UV loop of [readMesh]: one [primvars:st<suffix>] property for every
    layer whose UV element is per polygon vertex and not index-only. *)
Definition uvPropertyName (layerCount : nat)
    (layerElement : FbxLayerElementTemplate FbxVector2) : TfToken :=
  let suffix :=
    if decide (1 < layerCount)%nat then "_" +:+ ElementName layerElement
    else "" in
  "primvars:st" +:+ suffix.

Definition readMesh_uv_step (mesh : FbxMesh)
    (created : list (TfToken * list GfVec2f)) (i : nat)
  : option (list (TfToken * list GfVec2f)) :=
  layer ← Layers mesh !! i;
  match GetUVs layer with
  | None => Some created
  | Some layerElement =>
      if byPolygonVertexNotIndex layerElement then
        texCoords ← meshTexCoords mesh i;
        Some (created
              ++ [(uvPropertyName (GetLayerCount mesh) layerElement,
                   texCoords)])
      else Some created
  end.

Definition readMesh_uvs (mesh : FbxMesh)
  : option (list (TfToken * list GfVec2f)) :=
  loopM (readMesh_uv_step mesh) (seq 0 (GetLayerCount mesh)) [].

(** *** Mesh topology *)

(** The polygon-vertex array of the mesh, [GetPolygonVertices()]: the
    control-point indices of all polygons, one polygon after the other. *)
Definition GetPolygonVertices (mesh : FbxMesh) : list Z :=
  concat (Polygons mesh).

(** [GetPolygonSize( polygonIndex )]; -1 outside the polygon range. *)
Definition GetPolygonSize (mesh : FbxMesh) (polygonIndex : nat) : Z :=
  match Polygons mesh !! polygonIndex with
  | Some polygon => Z.of_nat (length polygon)
  | None => -1
  end.

(** [GetPolygonVertexIndex( polygonIndex )]: where the polygon starts in
    the polygon-vertex array; -1 outside the polygon range. *)
Definition GetPolygonVertexIndex (mesh : FbxMesh) (polygonIndex : nat) : Z :=
  if decide (polygonIndex < GetPolygonCount mesh)%nat
  then Z.of_nat (length (concat (take polygonIndex (Polygons mesh))))
  else -1.

(** The body of the loops of [meshFaceVertexIndices], over the polygon
    vertices in loop order; [vertexIndices] is a raw array. *)
Definition meshFaceVertexIndices_step (mesh : FbxMesh) (vertexIndices : list Z)
    (faceVertexIndices : list Z) (pv : nat * nat) : option (list Z) :=
  let start := GetPolygonVertexIndex mesh pv.1 in
  index ← GetAt vertexIndices (start + Z.of_nat pv.2);
  Some (faceVertexIndices ++ [index]).

Definition meshFaceVertexIndices (mesh : FbxMesh) : option (list Z) :=
  let vertexIndices := GetPolygonVertices mesh in
  loopM (meshFaceVertexIndices_step mesh vertexIndices)
        (polygonVertices mesh) [].

Definition meshFaceVertexCounts (mesh : FbxMesh) : list Z :=
  foldl (fun faceVertexCounts polygonIndex =>
           faceVertexCounts ++ [GetPolygonSize mesh polygonIndex])
        [] (seq 0 (GetPolygonCount mesh)).

(** [hasVertexColors]: the scan stops at the first layer that has a
    vertex-colour element. *)
Fixpoint hasVertexColors_from (layers : list FbxLayer) (res : bool) : bool :=
  match layers with
  | [] => res
  | layer :: rest =>
      let res' := bool_decide (GetVertexColors layer <> None) in
      if res' then res' else hasVertexColors_from rest res'
  end.

Definition hasVertexColors (mesh : FbxMesh) : bool :=
  hasVertexColors_from (Layers mesh) false.

(** *** Joint path tokens *)

(** The [while( parent->GetName() != rootJointName )] loop of
    [skeletonToTokenPath]; running off the top of the scene dereferences a
    null parent. *)
Fixpoint climbToRootJoint (rootJointName : TfToken) (parent : FbxNode)
    (jointPath : SdfPath) : option SdfPath :=
  match parent with
  | mkFbxNode name _ up _ =>
      if decide (name = rootJointName) then Some jointPath
      else
        match up with
        | None => None
        | Some parent' =>
            climbToRootJoint rootJointName parent'
              (AppendPath (SdfPath_of (GetName parent')) jointPath)
        end
  end.

Definition skeletonToTokenPath (skeleton : FbxNode) (rootJointName : TfToken)
  : option TfToken :=
  let jointName := GetName skeleton in
  if decide (jointName = rootJointName) then Some jointName
  else
    parent ← GetParent skeleton;
    let jointPath := AppendChild (SdfPath_of (GetName parent)) jointName in
    GetAsToken <$> climbToRootJoint rootJointName parent jointPath.

Definition skeletonHierarchyToTokenList (skeletonHierarchy : list FbxNode)
  : option (list TfToken) :=
  first ← skeletonHierarchy !! 0%nat;
  let rootJointName := GetName first in
  mapM (fun skeleton => skeletonToTokenPath skeleton rootJointName)
       skeletonHierarchy.

(** *** Skin binding data *)

(** A cluster: the bound joint (its link, possibly absent) and the weighted
    control points, index and weight side by side. *)
Record FbxCluster := {
  GetLink : option FbxNode;
  ControlPointIndicesAndWeights : list (Z * double)
}.

Definition FbxSkin := list FbxCluster.
Definition GetClusterCount (skin : FbxSkin) : nat := length skin.

Record BindingData := {
  names : list TfToken;
  perVertexInfluences : list Z;
  perVertexWeights : list float;
  influencesPerVertex : Z;
  pathToSkeleton : SdfPath
}.

(** The walk from the first cluster's link up to the topmost joint. *)
Fixpoint findRootBone (rootBone : FbxNode) : option FbxNode :=
  match rootBone with
  | mkFbxNode _ _ up _ =>
      match up with
      | None => None
      | Some newParent =>
          if negb (bool_decide (GetNodeAttribute newParent = Some eSkeleton))
          then Some rootBone
          else findRootBone newParent
      end
  end.

(** The control-point loop of one cluster; state is
    [(perVertexIndicesAndWeights, elementSize)]. *)
Definition addInfluence (influenceIndex : Z)
    (state : list (list (Z * double)) * nat) (cp : Z * double)
  : option (list (list (Z * double)) * nat) :=
  let '(perVertexIndicesAndWeights, elementSize) := state in
  if decide (0 <= cp.1) then
    influences ← perVertexIndicesAndWeights !! Z.to_nat cp.1;
    let influences' := influences ++ [(influenceIndex, cp.2)] in
    let numInfluences := length influences' in
    Some (<[Z.to_nat cp.1 := influences']> perVertexIndicesAndWeights,
          numInfluences `max` elementSize)%nat
  else None.

(** The cluster loop; state is
    [(jointsUsed, perVertexIndicesAndWeights, elementSize)]. *)
Definition addCluster (rootBoneName : TfToken)
    (state : list TfToken * list (list (Z * double)) * nat)
    (cluster : FbxCluster)
  : option (list TfToken * list (list (Z * double)) * nat) :=
  let '(jointsUsed, perVertexIndicesAndWeights, elementSize) := state in
  match GetLink cluster with
  | None => Some state
  | Some link =>
      '(perVertexIndicesAndWeights', elementSize') ←
        loopM (addInfluence (wrap_signed 32 (Z.of_nat (length jointsUsed))))
              (ControlPointIndicesAndWeights cluster)
              (perVertexIndicesAndWeights, elementSize);
      skeleton ← asSkeleton link;
      skeletonPath ← skeletonToTokenPath skeleton rootBoneName;
      Some (jointsUsed ++ [skeletonPath], perVertexIndicesAndWeights',
            elementSize')
  end.

Definition missingValue : Z * double := (0, zero).

(** One vertex of the flattening loop: exactly [elementSize] slots. *)
Definition flattenVertex (elementSize : nat)
    (vertexInfluencesAndWeights : list (Z * double)) : list (Z * float) :=
  let lastIndex :=
    (elementSize - (elementSize - length vertexInfluencesAndWeights))%nat in
  (fun i =>
     let '(influenceIndex, weight) :=
       if decide (i < lastIndex)%nat
       then default missingValue (vertexInfluencesAndWeights !! i)
       else missingValue in
     (influenceIndex, double_to_float weight)) <$> seq 0 elementSize.

Definition flattenInfluences (elementSize : nat)
    (perVertexIndicesAndWeights : list (list (Z * double)))
  : list Z * list float :=
  let slots :=
    flat_map (flattenVertex elementSize) perVertexIndicesAndWeights in
  (fst <$> slots, snd <$> slots).

(** The path from below the scene's root node down to the root bone. *)
Fixpoint prependAncestors (parent : FbxNode) (jointPath : SdfPath) : SdfPath :=
  match parent with
  | mkFbxNode name _ up _ =>
      match up with
      | None => jointPath
      | Some parent' =>
          prependAncestors parent' (AppendPath (SdfPath_of name) jointPath)
      end
  end.

Definition skeletonPathOf (rootBone : FbxNode) : SdfPath :=
  let jointPath := SdfPath_of (GetName rootBone) in
  let jointPath' :=
    match GetParent rootBone with
    | None => jointPath
    | Some parent => prependAncestors parent jointPath
    end in
  AppendPath ROOT jointPath'.

Section getBindingData.

(** The two [UsdSkel] utilities, which rewrite the arrays handed to them in
    place. *)
Variable UsdSkelNormalizeWeights : list float -> Z -> list float.
Variable UsdSkelSortInfluences :
  list Z -> list float -> Z -> list Z * list float.

Definition getBindingData (skin : FbxSkin) (mesh : FbxMesh)
  : option BindingData :=
  match skin with
  | [] =>
      Some {| names := []; perVertexInfluences := [];
              perVertexWeights := []; influencesPerVertex := 0;
              pathToSkeleton := EmptyPath |}
  | cluster0 :: _ =>
      link0 ← GetLink cluster0;
      rootBone ← findRootBone link0;
      let rootBoneName := GetName rootBone in
      '(jointsUsed, perVertexIndicesAndWeights, elementSize) ←
        loopM (addCluster rootBoneName) skin
              ([], replicate (GetControlPointsCount mesh) [], 0%nat);
      let '(jointIndices, jointWeights) :=
        flattenInfluences elementSize perVertexIndicesAndWeights in
      let influencesPerComponents := wrap_signed 32 (Z.of_nat elementSize) in
      let jointWeights' :=
        UsdSkelNormalizeWeights jointWeights influencesPerComponents in
      let '(jointIndices', jointWeights'') :=
        UsdSkelSortInfluences jointIndices jointWeights'
                              influencesPerComponents in
      Some {| names := jointsUsed; perVertexInfluences := jointIndices';
              perVertexWeights := jointWeights'';
              influencesPerVertex := influencesPerComponents;
              pathToSkeleton := skeletonPathOf rootBone |}
  end.

End getBindingData.

End converters.

(** ** The readers and their context *)

Module readers.
Import Fp scene helpers converters.

Inductive SdfVariability := SdfVariabilityVarying | SdfVariabilityUniform.

Definition MetadataMap : Type := list (TfToken * VtValue).

(** [FbxNodeReaderContext::Property]. *)
Record Property := {
  value : VtValue;
  typeName : SdfValueTypeName;
  variability : SdfVariability;
  timeSamples : TimeSamples;
  metadata : MetadataMap;
  targetPaths : list SdfPath
}.

(** The tokens of [Tokens.h] the readers below refer to. *)
Record UsdFbxTokens := {
  PrimTypeNames_Camera : TfToken;
  DisplayGroup_camera : TfToken;
  DisplayGroup_generated : TfToken;
  DisplayGroup_skelanimation : TfToken
}.

(** [FbxSystemUnit]: scale factor and multiplier. *)
Record FbxSystemUnit := { ScaleFactor : double; Multiplier : double }.

Inductive EProjectionType := ePerspective | eOrthogonal.

(** A camera attribute.  [FocalLength] and [FieldOfView] are given through
    the animation evaluator, [FocusDistance] (an [FbxPropertyT< FbxDouble >])
    through its value and curve nodes. *)
Record FbxCamera := {
  FocalLength : FbxTime -> double;
  FieldOfView : FbxTime -> double;
  FocusDistance_value : double;
  FocusDistance_curveNodes : FbxAnimLayer -> option FbxAnimCurveNode;
  FilmHeight : double;
  FilmWidth : double;
  FilmSqueezeRatio : double;
  ProjectionType : EProjectionType;
  NearPlane : double;
  FarPlane : double;
  UseDepthOfField : bool;
  SystemUnit : FbxSystemUnit
}.

Definition FocusDistance (camera : FbxCamera) : FbxProperty :=
  {| IsValid := true; Name := "FocusDistance"; DataType := eFbxDouble;
     UserDefined := false; Data := DDouble (FocusDistance_value camera);
     CurveNodes := FocusDistance_curveNodes camera |}.

(** The per-node context: the node (with its camera attribute, as
    [GetCamera()] returns it), the target path, the animation layer and
    frame range, and the property the data reader hands out for a path. *)
Record FbxNodeReaderContext := {
  GetNode : FbxNode;
  GetCamera : option FbxCamera;
  GetPath : SdfPath;
  GetAnimLayer : option FbxAnimLayer;
  GetAnimTimeSpan : FbxTimeSpan;
  AddProperty : SdfPath -> Property
}.

Definition createPropertyAtPath (context : FbxNodeReaderContext)
    (path : SdfPath) : Property := AddProperty context path.

(** [CreateProperty( path, typeName, defaultValue, fbxProperty, metadata,
    variability )]: the time samples are assigned only for a non-null
    property. *)
Definition CreateProperty (context : FbxNodeReaderContext)
    (propertyPath : SdfPath) (typeName' : SdfValueTypeName)
    (defaultValue : VtValue) (fbxProperty : option FbxProperty)
    (metadata' : MetadataMap) (variability' : SdfVariability)
  : option Property :=
  let prop := createPropertyAtPath context propertyPath in
  timeSamples' ←
    match fbxProperty with
    | Some p =>
        getPropertyAnimation p (GetAnimLayer context) (GetAnimTimeSpan context)
    | None => Some (timeSamples prop)
    end;
  Some {| value := defaultValue; typeName := typeName';
          variability := variability'; timeSamples := timeSamples';
          metadata := metadata'; targetPaths := targetPaths prop |}.

(** The overload taking a per-frame value function. *)
Definition CreateProperty_fn (context : FbxNodeReaderContext)
    (propertyPath : SdfPath) (typeName' : SdfValueTypeName)
    (defaultValue : VtValue) (valueAtTimeFn : FbxNode -> FbxTime -> VtValue)
    (metadata' : MetadataMap) (variability' : SdfVariability) : Property :=
  let prop := createPropertyAtPath context propertyPath in
  {| value := defaultValue; typeName := typeName';
     variability := variability';
     timeSamples :=
       getPropertyAnimation_fn (GetNode context) valueAtTimeFn
         (GetAnimLayer context) (GetAnimTimeSpan context);
     metadata := metadata'; targetPaths := targetPaths prop |}.

(** *** [readCamera] *)

(** Tokens of [UsdGeomTokens]. *)
Module UsdGeomTokens.
Definition focalLength : TfToken := "focalLength".
Definition focusDistance : TfToken := "focusDistance".
Definition horizontalAperture : TfToken := "horizontalAperture".
Definition verticalAperture : TfToken := "verticalAperture".
Definition projection : TfToken := "projection".
Definition fStop : TfToken := "fStop".
Definition clippingRange : TfToken := "clippingRange".
Definition perspective : TfToken := "perspective".
Definition orthographic : TfToken := "orthographic".
End UsdGeomTokens.

(** What a reader does to the sink, in order. *)
Inductive SinkCall :=
| SetPrimTypeName (primTypeName : TfToken)
| PropertyCreated (name : TfToken) (prop : Property).

Section readCamera.

Variable tokens : UsdFbxTokens.
(** [FbxSystemUnit::GetConversionFactorTo] and [FbxSystemUnit::mm]. *)
Variable GetConversionFactorTo : FbxSystemUnit -> FbxSystemUnit -> double.
Variable mm : FbxSystemUnit.

Definition dmul : double -> double -> double := SFmul prec64 emax64.

(** 25.4 *)
Definition MM_PER_INCH : double :=
  SFdiv prec64 emax64 (double_lit 254 0) (double_lit 10 0).

Definition toOneTenthOfScene (v : double) (systemUnits : FbxSystemUnit)
  : double :=
  let mmToScene :=
    {| ScaleFactor := GetConversionFactorTo mm systemUnits;
       Multiplier := double_lit 1 0 |} in
  let relativeToMM := GetConversionFactorTo mmToScene mm in
  dmul v relativeToMM.

Definition cameraApertureHeight (camera : FbxCamera) : double :=
  toOneTenthOfScene
    (dmul (dmul (FilmHeight camera) (FilmSqueezeRatio camera)) MM_PER_INCH)
    (SystemUnit camera).

Definition cameraApertureWidth (camera : FbxCamera) : double :=
  toOneTenthOfScene
    (dmul (dmul (FilmWidth camera) (FilmSqueezeRatio camera)) MM_PER_INCH)
    (SystemUnit camera).

Definition cameraProjectionMode (camera : FbxCamera) : TfToken :=
  match ProjectionType camera with
  | ePerspective => UsdGeomTokens.perspective
  | eOrthogonal => UsdGeomTokens.orthographic
  end.

Definition cameraClippingRange (camera : FbxCamera) : GfVec2f :=
  (double_to_float (NearPlane camera), double_to_float (FarPlane camera)).

Definition cameraFocalLength (camera : FbxCamera) (t : FbxTime) (scale : bool)
  : double :=
  let focalLength := FocalLength camera t in
  if scale then toOneTenthOfScene focalLength (SystemUnit camera)
  else focalLength.

Definition cameraFieldOfView (camera : FbxCamera) (t : FbxTime) : float :=
  double_to_float (FieldOfView camera t).

(** Modelled from the spec: the default of the [variability] argument,
    which [FbxNodeReader.h] declares; a property is varying unless it is
    created as uniform. *)
Definition defaultVariability : SdfVariability := SdfVariabilityVarying.

(** The overloads taking a property name, variability left at its
    default. *)
Definition CreateProperty_named (context : FbxNodeReaderContext)
    (propertyName : TfToken) (typeName' : SdfValueTypeName)
    (defaultValue : VtValue) (fbxProperty : option FbxProperty)
    (metadata' : MetadataMap) : option SinkCall :=
  PropertyCreated propertyName <$>
    CreateProperty context (AppendProperty (GetPath context) propertyName)
      typeName' defaultValue fbxProperty metadata' defaultVariability.

Definition CreateProperty_fn_named (context : FbxNodeReaderContext)
    (propertyName : TfToken) (typeName' : SdfValueTypeName)
    (defaultValue : VtValue) (valueAtTimeFn : FbxNode -> FbxTime -> VtValue)
    (metadata' : MetadataMap) : SinkCall :=
  PropertyCreated propertyName
    (CreateProperty_fn context (AppendProperty (GetPath context) propertyName)
       typeName' defaultValue valueAtTimeFn metadata' defaultVariability).

(** [readCamera]; the per-frame lambdas read the camera of the node they
    are given, which is the context's node. *)
Definition readCamera (context : FbxNodeReaderContext)
  : option (list SinkCall) :=
  let setType := SetPrimTypeName (PrimTypeNames_Camera tokens) in
  let fbxNode := GetNode context in
  if negb (bool_decide (GetNodeAttribute fbxNode = Some eCamera))
  then Some [setType]
  else
    camera ← GetCamera context;
    let cameraGroup :=
      [getDisplayGroupMetadata (DisplayGroup_camera tokens)] in
    let p_focalLength :=
      CreateProperty_fn_named context UsdGeomTokens.focalLength
        SdfValueTypeNames.Float
        (VtFloat (double_to_float (cameraFocalLength camera 0 true)))
        (fun _ t => VtDouble (cameraFocalLength camera t true))
        cameraGroup in
    p_focusDistance ←
      CreateProperty_named context UsdGeomTokens.focusDistance
        SdfValueTypeNames.Float
        (VtFloat (double_to_float (Get_double (FocusDistance camera))))
        (Some (FocusDistance camera)) cameraGroup;
    p_horizontalAperture ←
      CreateProperty_named context UsdGeomTokens.horizontalAperture
        SdfValueTypeNames.Float
        (VtFloat (double_to_float (cameraApertureWidth camera)))
        None cameraGroup;
    p_verticalAperture ←
      CreateProperty_named context UsdGeomTokens.verticalAperture
        SdfValueTypeNames.Float
        (VtFloat (double_to_float (cameraApertureHeight camera)))
        None cameraGroup;
    p_projection ←
      CreateProperty_named context UsdGeomTokens.projection
        SdfValueTypeNames.Token (VtToken (cameraProjectionMode camera))
        None cameraGroup;
    p_fStop ←
      (if UseDepthOfField camera then
         p ← CreateProperty_named context UsdGeomTokens.fStop
               SdfValueTypeNames.Float (VtFloat zero) None cameraGroup;
         Some [p]
       else Some []);
    p_clippingRange ←
      CreateProperty_named context UsdGeomTokens.clippingRange
        SdfValueTypeNames.Float2 (VtVec2f (cameraClippingRange camera))
        None cameraGroup;
    let p_fov :=
      CreateProperty_fn_named context "generated:fov"
        SdfValueTypeNames.Float (VtFloat (cameraFieldOfView camera 0))
        (fun _ t => VtFloat (cameraFieldOfView camera t))
        [getDisplayGroupMetadata (DisplayGroup_generated tokens);
         ("custom", VtBool true)] in
    Some ([setType; p_focalLength; p_focusDistance; p_horizontalAperture;
           p_verticalAperture; p_projection]
          ++ p_fStop ++ [p_clippingRange; p_fov]).

End readCamera.

(** *** Joint collection of [readSkeleton] and [readSkeletonAnimation] *)

Inductive Warning :=
| NotAnFbxSkeleton (childName : string).

(** One child of the loop in [collectSkeletonHierarchy]: the joints pushed
    for it and below it, and the warnings raised. *)
Fixpoint collectChild (skeleton : FbxNode) (t : FbxTree) {struct t}
  : list FbxNode * list Warning :=
  match t with
  | TNode name a ks =>
      let child := mkFbxNode name a (Some skeleton) ks in
      if isSkeleton child then
        let below :=
          (fix children (l : list FbxTree) : list FbxNode * list Warning :=
             match l with
             | [] => ([], [])
             | k :: l' =>
                 let r := collectChild child k in
                 let r' := children l' in
                 (r.1 ++ r'.1, r.2 ++ r'.2)
             end) ks in
        (child :: below.1, below.2)
      else ([], [NotAnFbxSkeleton name])
  end.

Fixpoint collectChildren (skeleton : FbxNode) (l : list FbxTree)
  : list FbxNode * list Warning :=
  match l with
  | [] => ([], [])
  | k :: l' =>
      let r := collectChild skeleton k in
      let r' := collectChildren skeleton l' in
      (r.1 ++ r'.1, r.2 ++ r'.2)
  end.

(** [skeletonHierarchy] after [collectSkeletonHierarchy( pSkeleton )]. *)
Definition collectSkeletonHierarchy (pSkeleton : FbxNode)
  : list FbxNode * list Warning :=
  let r := collectChildren pSkeleton (GetChildren pSkeleton) in
  (pSkeleton :: r.1, r.2).


(** *** The scales channel of [readSkeletonAnimation] *)

(** The frame loop, [for( frame = 0; frame <= numFrames; ++frame )]: one
    sample per frame, every joint at scale (1, 1, 1). *)
Definition skeletonScales (skeletonHierarchy : list FbxNode) : list GfVec3h :=
  foldl (fun skeletonScales _ =>
           skeletonScales
           ++ [(float_to_half (float_lit 1 0), float_to_half (float_lit 1 0),
                float_to_half (float_lit 1 0))])
        [] skeletonHierarchy.

Definition sampleScales (skeletonHierarchy : list FbxNode)
    (animTimeSpan : FbxTimeSpan) : TimeSamples :=
  let numFrames := wrap_unsigned 64 (GetDuration animTimeSpan) in
  snd (foldl (fun '(fbxSampleTime, scales) (frame : Z) =>
                let t := fbxSampleTime in
                (fbxSampleTime + 1,
                 scales
                 ++ [(t, VtVec3hArray (skeletonScales skeletonHierarchy))]))
             (GetStart animTimeSpan, [])
             (seqZ 0 (numFrames + 1))).

(** [!std::all_of( scales.begin() + 1, scales.end(), ... == scales[ 0 ] )];
    the vector has to be non-empty. *)
Definition hasUniqueScales (scales : TimeSamples) : option bool :=
  match scales with
  | [] => None
  | first :: rest =>
      Some (negb (forallb (fun tup => VtValue_eqb tup.2 first.2) rest))
  end.

(** Creation of the [scales] property from the samples. *)
Definition authorScales (tokens : UsdFbxTokens)
    (context : FbxNodeReaderContext) (skelAnimPrimPath : SdfPath)
    (scales : TimeSamples) : option Property :=
  uniqueScales ← hasUniqueScales scales;
  first ← scales !! 0%nat;
  scalesProp ←
    CreateProperty context (AppendProperty skelAnimPrimPath "scales")
      SdfValueTypeNames.Half3Array first.2 None
      [getDisplayGroupMetadata (DisplayGroup_skelanimation tokens)]
      defaultVariability;
  if (uniqueScales : bool)
  then Some {| value := value scalesProp; typeName := typeName scalesProp;
               variability := variability scalesProp; timeSamples := scales;
               metadata := metadata scalesProp;
               targetPaths := targetPaths scalesProp |}
  else Some scalesProp.

Definition readSkeletonAnimation_scales (tokens : UsdFbxTokens)
    (context : FbxNodeReaderContext) (skelAnimPrimPath : SdfPath)
    (skeletonHierarchy : list FbxNode) : option Property :=
  match GetAnimLayer context with
  | None => None
  | Some _ =>
      authorScales tokens context skelAnimPrimPath
        (sampleScales skeletonHierarchy (GetAnimTimeSpan context))
  end.

(** *** [readImageable], [readUserProperties] and the user properties of joints *)

(** [GfIsClose( a, b, epsilon )]: [fabs( a - b ) < epsilon]. *)
Definition GfIsClose (a b epsilon : double) : bool :=
  SFltb (SFabs (SFsub prec64 emax64 a b)) epsilon.

(** 1e-6 *)
Definition visibilityEpsilon : double :=
  SFdiv prec64 emax64 (double_lit 1 0) (double_lit 1000000 0).

Definition UsdGeomTokens_visibility : TfToken := "visibility".
Definition UsdGeomTokens_purpose : TfToken := "purpose".
Definition UsdGeomTokens_invisible : TfToken := "invisible".
Definition UsdGeomTokens_inherited : TfToken := "inherited".

(** The [CreateUniformProperty] overload taking a property name. *)
Definition CreateUniformProperty_named (context : FbxNodeReaderContext)
    (propertyName : TfToken) (typeName' : SdfValueTypeName)
    (defaultValue : VtValue) (metadata' : MetadataMap) : option SinkCall :=
  PropertyCreated propertyName <$>
    CreateProperty context (AppendProperty (GetPath context) propertyName)
      typeName' defaultValue None metadata' SdfVariabilityUniform.

Section property_readers.

Variable tokens : UsdFbxTokens.
(** [UsdFbxDisplayGroupTokens->imageable] and [->user]. *)
Variable DisplayGroup_imageable : TfToken.
Variable DisplayGroup_user : TfToken.
(** The [Visibility] property of a node (an [FbxPropertyT< FbxDouble >]):
    its value, its curve nodes, and what the animation evaluator returns
    for it at a time. *)
Variable Visibility_value : FbxNode -> double.
Variable Visibility_curveNodes :
  FbxNode -> FbxAnimLayer -> option FbxAnimCurveNode.
Variable Visibility_evaluate : FbxNode -> FbxTime -> double.
(** The valid properties of a node, in the order of [GetFirstProperty] and
    [GetNextProperty]. *)
Variable GetProperties : FbxNode -> list FbxProperty.
(** [cleanName( name, " _", remedy::FbxNameFixer() )] of [Helpers.h]. *)
Variable cleanName : string -> string.

Definition Visibility (node : FbxNode) : FbxProperty :=
  {| IsValid := true; Name := "Visibility"; DataType := eFbxDouble;
     UserDefined := false; Data := DDouble (Visibility_value node);
     CurveNodes := Visibility_curveNodes node |}.

Definition imageableVisibility (node : FbxNode) (time : FbxTime) : TfToken :=
  let visibility := Visibility_evaluate node time in
  if GfIsClose visibility zero visibilityEpsilon || SFltb visibility zero
  then UsdGeomTokens_invisible
  else UsdGeomTokens_inherited.

Definition readImageable (context : FbxNodeReaderContext)
  : option (list SinkCall) :=
  let imageableGroup := [getDisplayGroupMetadata DisplayGroup_imageable] in
  let p_visibility :=
    CreateProperty_fn_named context UsdGeomTokens_visibility
      SdfValueTypeNames.Token
      (VtToken (imageableVisibility (GetNode context) 0))
      (fun node time => VtToken (imageableVisibility node time))
      imageableGroup in
  p_purpose ←
    CreateUniformProperty_named context UsdGeomTokens_purpose
      SdfValueTypeNames.Token (VtToken "default") imageableGroup;
  p_generated ←
    CreateProperty_named context ("generated:" +:+ UsdGeomTokens_visibility)
      SdfValueTypeNames.Double
      (VtDouble (Get_double (Visibility (GetNode context))))
      (Some (Visibility (GetNode context)))
      [getDisplayGroupMetadata (DisplayGroup_generated tokens);
       ("custom", VtBool true)];
  Some [p_visibility; p_purpose; p_generated].

(** The body of the loop of [readUserProperties]. *)
Definition readUserProperty (context : FbxNodeReaderContext)
    (fbxProperty : FbxProperty) : option SinkCall :=
  let valueType := getSdfTypeName fbxProperty in
  let defaultValue := getValue fbxProperty in
  let cleanedName := cleanName (Name fbxProperty) in
  let propertyName := "userProperties:" +:+ cleanedName in
  CreateProperty_named context propertyName valueType defaultValue
    (Some fbxProperty)
    [getDisplayGroupMetadata DisplayGroup_user; ("custom", VtBool true)].

Definition readUserProperties (context : FbxNodeReaderContext)
  : option (list SinkCall) :=
  loopM (fun calls fbxProperty =>
           call ← readUserProperty context fbxProperty;
           Some (calls ++ [call]))
        (getUserProperties (GetProperties (GetNode context))) [].

(** *** The user properties aggregated by [readSkeletonAnimation] *)

(** [SdfValueTypeName::GetArrayType]. *)
Variable GetArrayType : SdfValueTypeName -> SdfValueTypeName.

(** [getAnimatedUserProperties]: the user properties that have a curve
    node on the layer. *)
Definition getAnimatedUserProperties (properties : list FbxProperty)
    (animLayer : FbxAnimLayer) : list FbxProperty :=
  filter (fun prop => is_Some (GetCurveNode prop animLayer))
         (getUserProperties properties).

(** The [Property] struct local to [readSkeletonAnimation]; its
    [timeSamples], a [std::map] from time code to values, is kept as the
    list of its entries in ascending order of the time codes. *)
Record AnimatedProperty := {
  name : TfToken;
  arrayTypeName : SdfValueTypeName;
  values : list VtValue;
  ownerPaths : list TfToken;
  samplesAt : list (UsdTimeCode * list VtValue)
}.

(** [it = timeSamples.find( time )], inserting an empty entry when there is
    none, then [it->second.push_back( value )]. *)
Fixpoint pushSample (time : UsdTimeCode) (v : VtValue)
    (samples : list (UsdTimeCode * list VtValue))
  : list (UsdTimeCode * list VtValue) :=
  match samples with
  | [] => [(time, [v])]
  | (t, vs) :: rest =>
      if time <? t then (time, [v]) :: samples
      else if time =? t then (t, vs ++ [v]) :: rest
      else (t, vs) :: pushSample time v rest
  end.

(** [propertiesMap], a [std::map] from property name to [Property], as the
    list of its entries; the order in which the map is iterated is not
    modelled.  [find] and the assignment to the entry found or inserted: *)
Fixpoint propertiesMap_find (key : TfToken)
    (propertiesMap : list (TfToken * AnimatedProperty))
  : option AnimatedProperty :=
  match propertiesMap with
  | [] => None
  | (k, prop) :: rest =>
      if decide (k = key) then Some prop else propertiesMap_find key rest
  end.

Fixpoint propertiesMap_set (key : TfToken) (prop' : AnimatedProperty)
    (propertiesMap : list (TfToken * AnimatedProperty))
  : list (TfToken * AnimatedProperty) :=
  match propertiesMap with
  | [] => [(key, prop')]
  | (k, prop) :: rest =>
      if decide (k = key) then (k, prop') :: rest
      else (k, prop) :: propertiesMap_set key prop' rest
  end.

(** The properties of one joint that are aggregated: its animated user
    properties, then its [Visibility] when that has a curve node. *)
Definition jointProperties (animLayer : FbxAnimLayer) (skeleton : FbxNode)
  : list FbxProperty :=
  let fbxProps := getAnimatedUserProperties (GetProperties skeleton) animLayer in
  if bool_decide (is_Some (GetCurveNode (Visibility skeleton) animLayer))
  then fbxProps ++ [Visibility skeleton]
  else fbxProps.

(** The body of the loop over the properties of one joint. *)
Definition aggregateProperty (context : FbxNodeReaderContext)
    (animLayer : FbxAnimLayer) (skeletonPath : TfToken)
    (propertiesMap : list (TfToken * AnimatedProperty))
    (fbxProp : FbxProperty)
  : option (list (TfToken * AnimatedProperty)) :=
  let key := getNameAsUserProperty fbxProp in
  let prop :=
    match propertiesMap_find key propertiesMap with
    | Some prop => prop
    | None =>
        {| name := key;
           arrayTypeName := GetArrayType (getSdfTypeName fbxProp);
           values := []; ownerPaths := []; samplesAt := [] |}
    end in
  timeAndValue ←
    getPropertyAnimation fbxProp (Some animLayer) (GetAnimTimeSpan context);
  let samplesAt' :=
    foldl (fun samples tv => pushSample tv.1 tv.2 samples)
          (samplesAt prop) timeAndValue in
  Some (propertiesMap_set key
          {| name := name prop; arrayTypeName := arrayTypeName prop;
             values := values prop ++ [getValue fbxProp];
             ownerPaths := ownerPaths prop ++ [skeletonPath];
             samplesAt := samplesAt' |}
          propertiesMap).

(** The body of the loop over the joints; state is
    [(idx, propertiesMap)]. *)
Definition aggregateJoint (context : FbxNodeReaderContext)
    (animLayer : FbxAnimLayer) (skeletonTokens : list TfToken)
    (state : nat * list (TfToken * AnimatedProperty)) (skeleton : FbxNode)
  : option (nat * list (TfToken * AnimatedProperty)) :=
  let '(idx, propertiesMap) := state in
  let fbxProps := jointProperties animLayer skeleton in
  skeletonPath ← skeletonTokens !! idx;
  propertiesMap' ←
    loopM (aggregateProperty context animLayer skeletonPath) fbxProps
          propertiesMap;
  Some (S idx, propertiesMap').

(** [propertiesMap] after the loop over the joint hierarchy. *)
Definition aggregateUserProperties (context : FbxNodeReaderContext)
    (animLayer : FbxAnimLayer) (skeletonHierarchy : list FbxNode)
    (skeletonTokens : list TfToken)
  : option (list (TfToken * AnimatedProperty)) :=
  snd <$> loopM (aggregateJoint context animLayer skeletonTokens)
                skeletonHierarchy (0%nat, []).

End property_readers.

End readers.

(** ** Reference behaviour of the two [UsdSkel] utilities

    Used to run [getBindingData] on concrete skins: weights are normalised
    and influences sorted by descending weight, one vertex (a block of
    [numInfluencesPerComponent] entries) at a time. *)

Module UsdSkel.
Import Fp.

Definition fadd : float -> float -> float := SFadd prec32 emax32.
Definition fdiv : float -> float -> float := SFdiv prec32 emax32.

(** [std::numeric_limits< float >::epsilon()]. *)
Definition eps : float := float_lit 1 (-23).

Definition normalizeBlock (weightSet : list float) : list float :=
  let sum := foldl fadd zero weightSet in
  if SFltb eps (SFabs sum) then (fun w => fdiv w sum) <$> weightSet
  else (fun _ => zero) <$> weightSet.

Fixpoint blockwise {A} (f : list A -> list A) (k : nat) (fuel : nat)
    (l : list A) : list A :=
  match fuel, l with
  | O, _ | _, [] => []
  | S fuel', _ => f (take k l) ++ blockwise f k fuel' (drop k l)
  end.

Definition NormalizeWeights (weights : list float)
    (numInfluencesPerComponent : Z) : list float :=
  if decide (0 < numInfluencesPerComponent) then
    blockwise normalizeBlock (Z.to_nat numInfluencesPerComponent)
              (length weights) weights
  else weights.

Fixpoint insertInfluence (x : Z * float) (l : list (Z * float))
  : list (Z * float) :=
  match l with
  | [] => [x]
  | y :: l' => if SFltb x.2 y.2 then y :: insertInfluence x l' else x :: l
  end.

Definition sortBlock (block : list (Z * float)) : list (Z * float) :=
  foldr insertInfluence [] block.

Definition SortInfluences (indices : list Z) (weights : list float)
    (numInfluencesPerComponent : Z) : list Z * list float :=
  if decide (0 < numInfluencesPerComponent) then
    let sorted :=
      blockwise sortBlock (Z.to_nat numInfluencesPerComponent)
                (length indices) (zip indices weights) in
    (fst <$> sorted, snd <$> sorted)
  else (indices, weights).

End UsdSkel.

(** ** Reference definitions used to state the properties *)

Module spec.
Import Fp scene helpers converters readers.

(** The channel vector of one frame: every channel of the curve node
    evaluated at the frame, a channel without a curve left at 0. *)
Definition channelsAt (curveNode : FbxAnimCurveNode) (frame : Z)
  : list float :=
  (fun channel =>
     match channel with
     | Some animCurve => animCurve frame
     | None => zero
     end) <$> channels curveNode.

(** A row after the channels [channelIds] have been written for [frame]. *)
Definition rowAfter (curveNode : FbxAnimCurveNode) (frame : Z)
    (channelIds : list nat) (row : list float) : list float :=
  foldl (fun r channelId =>
           match GetCurve curveNode channelId with
           | Some animCurve => <[channelId := animCurve frame]> r
           | None => r
           end) row channelIds.

(** The time-code set after inserting every frame of a list. *)
Definition insertAll (timeCodes : list UsdTimeCode) (frameList : list Z)
  : list UsdTimeCode :=
  foldl (fun s frame => set_insert frame s) timeCodes frameList.

(** The time codes after the channels [channelIds] have been visited. *)
Definition timeCodesAfter (curveNode : FbxAnimCurveNode) (frameList : list Z)
    (channelIds : list nat) (timeCodes : list UsdTimeCode)
  : list UsdTimeCode :=
  foldl (fun tc channelId =>
           match GetCurve curveNode channelId with
           | Some _ => insertAll tc frameList
           | None => tc
           end) timeCodes channelIds.

(** The three situations in which nothing is sampled. *)
Definition nothingToSample (fbxProperty : FbxProperty)
    (animLayer : option FbxAnimLayer) : Prop :=
  animLayer = None
  \/ (exists layer, animLayer = Some layer
                    /\ GetCurveNode fbxProperty layer = None)
  \/ (exists layer curveNode,
        animLayer = Some layer
        /\ GetCurveNode fbxProperty layer = Some curveNode
        /\ forall channelId, GetCurve curveNode channelId = None).

(** A mesh with its layers replaced. *)
Definition withLayers (mesh : FbxMesh) (layers : list FbxLayer) : FbxMesh :=
  {| Layers := layers; Polygons := Polygons mesh;
     ControlPoints := ControlPoints mesh;
     GetPolygonVertexNormal := GetPolygonVertexNormal mesh |}.

(** Whether a layer's element of one semantic passes the scan's test. *)
Definition acceptsNormals (layer : FbxLayer) : bool :=
  match GetNormals layer with
  | Some element => byPolygonVertexNotIndex element
  | None => false
  end.

Definition acceptsTangents (layer : FbxLayer) : bool :=
  match GetTangents layer with
  | Some element => byPolygonVertexNotIndex element
  | None => false
  end.

Definition acceptsVertexColors (layer : FbxLayer) : bool :=
  match GetVertexColors layer with
  | Some element => negb (skipsVertexColors element)
  | None => false
  end.

Definition acceptsUVs (mesh : FbxMesh) (layerIndex : nat) : bool :=
  match Layers mesh !! layerIndex ≫= GetUVs with
  | Some element => byPolygonVertexNotIndex element
  | None => false
  end.

(** The UV property of one layer, read on its own. *)
Definition uvEntry (mesh : FbxMesh) (layerIndex : nat)
  : option (TfToken * list GfVec2f) :=
  layer ← Layers mesh !! layerIndex;
  element ← GetUVs layer;
  texCoords ← meshTexCoords mesh layerIndex;
  Some (uvPropertyName (GetLayerCount mesh) element, texCoords).

(** One UV property per accepted layer, in layer order. *)
Definition uvEntries (mesh : FbxMesh) (layerIndices : list nat)
  : option (list (TfToken * list GfVec2f)) :=
  mapM (uvEntry mesh)
       (filter (fun layerIndex => acceptsUVs mesh layerIndex = true)
               layerIndices).

(** A node followed by its ancestors, nearest first, up to the scene's root
    node. *)
Fixpoint ancestry (n : FbxNode) : list FbxNode :=
  match n with
  | mkFbxNode _ _ up _ =>
      n :: match up with
           | Some parent => ancestry parent
           | None => []
           end
  end.

(** The handles of all nodes of a subtree hanging under [parent], the
    subtree's own node first. *)
Fixpoint subtreeHandles (parent : FbxNode) (t : FbxTree) {struct t}
  : list FbxNode :=
  match t with
  | TNode name a ks =>
      let self := mkFbxNode name a (Some parent) ks in
      self :: (fix below (l : list FbxTree) : list FbxNode :=
                 match l with
                 | [] => []
                 | k :: l' => subtreeHandles self k ++ below l'
                 end) ks
  end.


(** The chain of joints [a] -> [b] -> [c], as the subtree of [a]. *)
Definition jointChain (a b c : string) : list FbxTree :=
  [TNode b (Some eSkeleton) [TNode c (Some eSkeleton) []]].

(** The scale every joint is sampled at: (1, 1, 1) in half precision. *)
Definition unitScale : GfVec3h :=
  (float_to_half (float_lit 1 0), float_to_half (float_lit 1 0),
   float_to_half (float_lit 1 0)).

(** The influences recorded for control point [v], in cluster order: the
    joint index (the number of linked clusters before the cluster) and the
    weight of every entry that names [v].  Clusters without a link record
    nothing. *)
Fixpoint recordedInfluences (clusters : list FbxCluster) (jointsBefore : nat)
    (v : nat) : list (Z * double) :=
  match clusters with
  | [] => []
  | cluster :: rest =>
      match GetLink cluster with
      | None => recordedInfluences rest jointsBefore v
      | Some _ =>
          ((fun cp : Z * double =>
              (wrap_signed 32 (Z.of_nat jointsBefore), cp.2))
             <$> filter (fun cp : Z * double => cp.1 = Z.of_nat v)
                        (ControlPointIndicesAndWeights cluster))
          ++ recordedInfluences rest (S jointsBefore) v
      end
  end.

(** The largest number of influences recorded for one of the first [n]
    control points. *)
Definition maxInfluences (skin : FbxSkin) (n : nat) : nat :=
  max_list ((fun v => length (recordedInfluences skin 0 v)) <$> seq 0 n).

(** A cluster the extractor can process: when it has a link, the link is a
    node with an attribute that lies at or below the root bone, and every
    control-point index is one of the mesh's [n] control points. *)
Definition wellBound (rootBoneName : TfToken) (n : nat) (cluster : FbxCluster)
  : Prop :=
  forall link,
    GetLink cluster = Some link ->
    is_Some (asSkeleton link
             ≫= fun skeleton => skeletonToTokenPath skeleton rootBoneName)
    /\ Forall (fun cp : Z * double => 0 <= cp.1 < Z.of_nat n)
              (ControlPointIndicesAndWeights cluster).

(** What the cluster loop maintains: [elementSize] bounds the length of
    every per-vertex list and, unless it is 0, is attained by one. *)
Definition elementSizeInv (perVertex : list (list (Z * double)))
    (elementSize : nat) : Prop :=
  (forall v l, perVertex !! v = Some l -> (length l <= elementSize)%nat)
  /\ (elementSize = 0%nat
      \/ exists v l, perVertex !! v = Some l /\ length l = elementSize).

(** The number of channels [getValue( animChannels )] reads for a tag. *)
Definition requiredChannels (type : EFbxType) : nat :=
  match type with
  | eFbxBool | eFbxUChar | eFbxChar | eFbxShort | eFbxUShort | eFbxInt
  | eFbxUInt | eFbxLongLong | eFbxULongLong | eFbxHalfFloat | eFbxFloat
  | eFbxDouble => 1
  | eFbxDouble2 => 2
  | eFbxDouble3 => 3
  | eFbxDouble4 => 4
  | eFbxDouble4x4 => 16
  | _ => 0
  end.

(** The tags whose sampled value is cast from float to an integer type. *)
Definition castsToInteger (type : EFbxType) : bool :=
  match type with
  | eFbxUChar | eFbxChar | eFbxShort | eFbxUShort | eFbxInt | eFbxUInt
  | eFbxLongLong | eFbxULongLong => true
  | _ => false
  end.

(** The tags no case of [getSdfTypeName] and [getValue] names. *)
Definition unmappedType (type : EFbxType) : bool :=
  match type with
  | eFbxUndefined | eFbxEnum | eFbxEnumM | eFbxReference | eFbxDateTime => true
  | _ => false
  end.

(** The values an indexed element resolves to, position by position. *)
Definition expandIndexed {T} (element : FbxLayerElementTemplate T)
  : option (list T) :=
  mapM (GetAt (GetDirectArray element)) (GetIndexArray element).

(** The same element addressed directly through the given values. *)
Definition asDirect {T} (element : FbxLayerElementTemplate T)
    (values : list T) : FbxLayerElementTemplate T :=
  {| ElementName := ElementName element;
     GetMappingMode := GetMappingMode element;
     GetReferenceMode := eDirect; GetDirectArray := values;
     GetIndexArray := [] |}.

(** A layer that carries only a tangents element. *)
Definition tangentsLayer (element : FbxLayerElementTemplate FbxVector4)
  : FbxLayer :=
  {| GetNormals := None; GetTangents := Some element;
     GetVertexColors := None; GetUVs := None |}.

(** A node and its ancestors, nearest first, leaving out the scene's root
    node. *)
Fixpoint nodesBelowRoot (n : FbxNode) : list FbxNode :=
  match n with
  | mkFbxNode _ _ up _ =>
      match up with
      | Some parent => n :: nodesBelowRoot parent
      | None => []
      end
  end.

(** The joint token of a cluster's link. *)
Definition jointToken (rootBoneName : TfToken) (cluster : FbxCluster)
  : option TfToken :=
  link ← GetLink cluster;
  skeleton ← asSkeleton link;
  skeletonToTokenPath skeleton rootBoneName.

(** The clusters that have a link. *)
Definition linkedClusters (skin : FbxSkin) : list FbxCluster :=
  filter (fun cluster => is_Some (GetLink cluster)) skin.

(** The polygon vertices of the polygons [polygons], numbered from
    [first], in loop order. *)
Definition polygonVerticesFrom (first : nat) (polygons : list (list Z))
  : list (nat * nat) :=
  flat_map (fun '(polygonIndex, polygon) =>
              (fun polygonVertex => (polygonIndex, polygonVertex))
                <$> seq 0 (length polygon))
           (imap (fun i polygon => ((first + i)%nat, polygon)) polygons).

(** The values an element holds position by position: its direct array,
    or what its index array selects from it. *)
Definition resolvedValues {T} (element : FbxLayerElementTemplate T)
  : option (list T) :=
  match GetReferenceMode element with
  | eDirect => Some (GetDirectArray element)
  | eIndex | eIndexToDirect => expandIndexed element
  end.

(** [toGfVec( const FbxColor& )]. *)
Definition colorToGfVec (color : FbxColor) : GfVec3f :=
  (double_to_float color.1.1.1, double_to_float color.1.1.2,
   double_to_float color.1.2).

Definition uvToGfVec (uv : FbxVector2) : GfVec2f :=
  (double_to_float uv.1, double_to_float uv.2).

(** The nodes whose names make up the skeleton path of a root bone: the
    root bone, then its ancestors, nearest first, leaving out the scene's
    root node. *)
Definition skeletonPathNodes (rootBone : FbxNode) : list FbxNode :=
  rootBone :: match GetParent rootBone with
              | Some parent => nodesBelowRoot parent
              | None => []
              end.

(** The handles of all nodes strictly below a node. *)
Definition descendants (n : FbxNode) : list FbxNode :=
  flat_map (subtreeHandles n) (GetChildren n).

(** A list of nodes hanging below [top] in which every node other than the
    children of [top] comes after its parent. *)
Definition parentsFirst (top : FbxNode) (l : list FbxNode) : Prop :=
  forall (i : nat) (x : FbxNode),
    l !! i = Some x ->
    GetParent x = Some top
    \/ exists (j : nat) (parent : FbxNode),
         (j < i)%nat /\ GetParent x = Some parent /\ l !! j = Some parent.

(** Strictly ascending time codes. *)
Fixpoint ascending (l : list UsdTimeCode) : Prop :=
  match l with
  | [] => True
  | t :: l' => Forall (fun t' => t < t') l' /\ ascending l'
  end.

(** What the joints contribute to the aggregated user properties: every
    aggregated property of every joint, joint by joint, with the joint's
    token. *)
Definition contributions (jointProps : FbxNode -> list FbxProperty)
    (skeletonHierarchy : list FbxNode) (skeletonTokens : list TfToken)
  : list (TfToken * FbxProperty) :=
  flat_map (fun st : FbxNode * TfToken =>
              (fun fbxProp => (st.2, fbxProp)) <$> jointProps st.1)
           (zip skeletonHierarchy skeletonTokens).

(** The contributions that go by one property name. *)
Definition contributionsTo (key : TfToken)
    (cs : list (TfToken * FbxProperty)) : list (TfToken * FbxProperty) :=
  filter (fun c => getNameAsUserProperty c.2 = key) cs.

(** An aggregated property that reflects the contributions to its name. *)
Definition reflects (GetArrayType : SdfValueTypeName -> SdfValueTypeName)
    (key : TfToken) (own : list (TfToken * FbxProperty))
    (prop : AnimatedProperty) : Prop :=
  (exists first rest,
     own = first :: rest
     /\ arrayTypeName prop = GetArrayType (getSdfTypeName first.2))
  /\ name prop = key
  /\ values prop = (fun c => getValue c.2) <$> own
  /\ ownerPaths prop = fst <$> own
  /\ Forall (fun entry : UsdTimeCode * list VtValue =>
               (length entry.2 <= length own)%nat) (samplesAt prop)
  /\ ascending (samplesAt prop).*1.

(** A properties map that reflects a list of contributions: an entry for
    exactly the names contributed to. *)
Definition propertiesReflect
    (GetArrayType : SdfValueTypeName -> SdfValueTypeName)
    (cs : list (TfToken * FbxProperty))
    (propertiesMap : list (TfToken * AnimatedProperty)) : Prop :=
  forall key,
    match propertiesMap_find key propertiesMap with
    | Some prop => reflects GetArrayType key (contributionsTo key cs) prop
    | None => contributionsTo key cs = []
    end.

(** A path identifier in ASCII, as [SdfPath::IsValidIdentifier] accepts
    it: a letter or an underscore, followed by letters, digits and
    underscores.  For such a name [SdfPath( name )] is the relative path
    with the name as its one element. *)
Definition isIdentifierStart (c : Ascii.ascii) : bool :=
  let n := Ascii.nat_of_ascii c in
  ((65 <=? n) && (n <=? 90) || (97 <=? n) && (n <=? 122) || (n =? 95))%nat.

Definition isIdentifierChar (c : Ascii.ascii) : bool :=
  let n := Ascii.nat_of_ascii c in
  (isIdentifierStart c || (48 <=? n) && (n <=? 57))%nat.

Fixpoint allIdentifierChars (s : string) : bool :=
  match s with
  | EmptyString => true
  | String c rest => isIdentifierChar c && allIdentifierChars rest
  end.

Definition isIdentifier (name : string) : bool :=
  match name with
  | EmptyString => false
  | String c rest => isIdentifierStart c && allIdentifierChars rest
  end.

End spec.

(** ** Concrete inputs *)

Module examples.
Import Fp scene helpers converters readers.

Definition noCurves : FbxAnimLayer -> option FbxAnimCurveNode := fun _ => None.

Definition userProperty (type : EFbxType) (data : FbxData) : FbxProperty :=
  {| IsValid := true; Name := "p"; DataType := type; UserDefined := true;
     Data := data; CurveNodes := noCurves |}.

(** A signed char property holding -5. *)
Definition charProperty : FbxProperty := userProperty eFbxChar (DInteger (-5)).
(** A short property holding -300. *)
Definition shortProperty : FbxProperty :=
  userProperty eFbxShort (DInteger (-300)).
(** A distance property of 2.5 (cm). *)
Definition distanceProperty : FbxProperty :=
  userProperty eFbxDistance (DDistance (float_lit 5 (-1)) "cm").
(** A time property at frame 12. *)
Definition timeProperty : FbxProperty :=
  userProperty eFbxTime (DTime (double_lit 12 0)).
(** A half property holding 1.5. *)
Definition halfProperty : FbxProperty :=
  userProperty eFbxHalfFloat (DHalf (float_to_half (float_lit 3 (-1)))).

(** A one-channel curve whose value at a frame is the frame number. *)
Definition rampCurve : FbxAnimCurve := fun frame => float_lit frame 0.

(** A double property animated by [rampCurve] on every layer. *)
Definition animatedDouble : FbxProperty :=
  {| IsValid := true; Name := "Visibility"; DataType := eFbxDouble;
     UserDefined := false; Data := DDouble (double_lit 1 0);
     CurveNodes := fun _ => Some {| channels := [Some rampCurve] |} |}.

(** Frames 0 to 10. *)
Definition span_0_10 : FbxTimeSpan := {| GetStart := 0; GetStop := 10 |}.

Definition d (z : Z) : double := double_lit z 0.

Definition directElement {T} (name : string) (mapping : EMappingMode)
    (values : list T) : FbxLayerElementTemplate T :=
  {| ElementName := name; GetMappingMode := mapping;
     GetReferenceMode := eDirect; GetDirectArray := values;
     GetIndexArray := [] |}.

Definition emptyLayer : FbxLayer :=
  {| GetNormals := None; GetTangents := None; GetVertexColors := None;
     GetUVs := None |}.

(** A layer whose normals, tangents, colours and UVs all repeat one
    value, each in the combination its scan accepts. *)
Definition uniformLayer (name : string) (x y z : Z) : FbxLayer :=
  {| GetNormals :=
       Some (directElement name eByPolygonVertex
               (replicate 3 (d x, d y, d z, d 0)));
     GetTangents :=
       Some (directElement name eByPolygonVertex
               (replicate 3 (d x, d y, d z, d 0)));
     GetVertexColors :=
       Some (directElement name eByControlPoint
               (replicate 3 (d x, d y, d z, d 1)));
     GetUVs :=
       Some (directElement name eByPolygonVertex
               (replicate 3 (d x, d y))) |}.

Definition layerA : FbxLayer := uniformLayer "A" 1 0 0.
Definition layerB : FbxLayer := uniformLayer "B" 0 1 0.

(** One triangle over three control points, two layers. *)
Definition twoLayerMesh : FbxMesh :=
  {| Layers := [layerA; layerB];
     Polygons := [[0; 1; 2]];
     ControlPoints := [(d 0, d 0, d 0, d 1); (d 1, d 0, d 0, d 1);
                       (d 0, d 1, d 0, d 1)];
     GetPolygonVertexNormal := fun _ _ => None |}.

(** The scene root with a transform node [Rig] holding the joints
    A -> B -> C, where B also has a non-joint child [Prop] with a joint
    [Tip] below it. *)
Definition sceneRoot : FbxNode := mkFbxNode "RootNode" None None [].
Definition rig : FbxNode := mkFbxNode "Rig" (Some eNull) (Some sceneRoot) [].

Definition jointA : FbxNode :=
  mkFbxNode "A" (Some eSkeleton) (Some rig) (spec.jointChain "A" "B" "C").


(** A sink that hands out a default-constructed property for every path. *)
Definition defaultProperty : Property :=
  {| value := VtEmpty; typeName := SdfValueTypeNames.Token;
     variability := SdfVariabilityVarying; timeSamples := [];
     metadata := []; targetPaths := [] |}.

Definition usdFbxTokens : UsdFbxTokens :=
  {| PrimTypeNames_Camera := "Camera"; DisplayGroup_camera := "Camera";
     DisplayGroup_generated := "Generated";
     DisplayGroup_skelanimation := "Skeleton Animation" |}.

(** Unit conversion by the ratio of scale factor times multiplier. *)
Definition conversionFactor (from to : FbxSystemUnit) : double :=
  SFdiv prec64 emax64
    (SFmul prec64 emax64 (ScaleFactor from) (Multiplier from))
    (SFmul prec64 emax64 (ScaleFactor to) (Multiplier to)).

Definition unit_mm : FbxSystemUnit :=
  {| ScaleFactor := SFdiv prec64 emax64 (d 1) (d 10); Multiplier := d 1 |}.
Definition unit_cm : FbxSystemUnit :=
  {| ScaleFactor := d 1; Multiplier := d 1 |}.

(** A perspective camera whose focus distance is animated by [rampCurve]. *)
Definition camera (useDepthOfField : bool) : FbxCamera :=
  {| FocalLength := fun _ => d 35; FieldOfView := fun _ => d 40;
     FocusDistance_value := d 5;
     FocusDistance_curveNodes :=
       fun _ => Some {| channels := [Some rampCurve] |};
     FilmHeight := d 1; FilmWidth := d 1; FilmSqueezeRatio := d 1;
     ProjectionType := ePerspective; NearPlane := d 1; FarPlane := d 1000;
     UseDepthOfField := useDepthOfField; SystemUnit := unit_cm |}.

Definition cameraContext (useDepthOfField : bool) : FbxNodeReaderContext :=
  {| GetNode := mkFbxNode "cam" (Some eCamera) (Some sceneRoot) [];
     GetCamera := Some (camera useDepthOfField);
     GetPath := Path true ["ROOT"; "cam"];
     GetAnimLayer := Some 0%nat; GetAnimTimeSpan := span_0_10;
     AddProperty := fun _ => defaultProperty |}.

Definition skeletonContext : FbxNodeReaderContext :=
  {| GetNode := jointA; GetCamera := None;
     GetPath := Path true ["ROOT"; "Rig"; "A"];
     GetAnimLayer := Some 0%nat; GetAnimTimeSpan := span_0_10;
     AddProperty := fun _ => defaultProperty |}.

(** The second joint of the chain A -> B -> C. *)
Definition jointB : FbxNode :=
  mkFbxNode "B" (Some eSkeleton) (Some jointA) [TNode "C" (Some eSkeleton) []].

Definition half_ : double := double_lit 1 (-1).

(** Four control points; cluster J (joint A) weights point 0 by 1 and point
    1 by 0.5, cluster K (joint B) weights point 1 by 0.5 and point 2 by 1. *)
Definition clusterJ : FbxCluster :=
  {| GetLink := Some jointA;
     ControlPointIndicesAndWeights := [(0, d 1); (1, half_)] |}.
Definition clusterK : FbxCluster :=
  {| GetLink := Some jointB;
     ControlPointIndicesAndWeights := [(1, half_); (2, d 1)] |}.
(** A cluster without a link that weights point 0. *)
Definition unlinkedCluster : FbxCluster :=
  {| GetLink := None; ControlPointIndicesAndWeights := [(0, d 1)] |}.

Definition quadMesh : FbxMesh :=
  {| Layers := []; Polygons := [[0; 1; 2; 3]];
     ControlPoints := [(d 0, d 0, d 0, d 1); (d 1, d 0, d 0, d 1);
                       (d 1, d 1, d 0, d 1); (d 0, d 1, d 0, d 1)];
     GetPolygonVertexNormal := fun _ _ => None |}.

(** Tangents of a triangle: two values addressed through the indices
    1, 0, 1. *)
Definition indexedTangents : FbxLayerElementTemplate FbxVector4 :=
  {| ElementName := "T"; GetMappingMode := eByPolygonVertex;
     GetReferenceMode := eIndexToDirect;
     GetDirectArray := [(d 1, d 0, d 0, d 0); (d 0, d 1, d 0, d 0)];
     GetIndexArray := [1; 0; 1] |}.

(** A transform node with two user properties and one built-in property. *)
Definition propsNode : FbxNode :=
  mkFbxNode "props" (Some eNull) (Some sceneRoot) [].

Definition propsContext : FbxNodeReaderContext :=
  {| GetNode := propsNode; GetCamera := None;
     GetPath := Path true ["ROOT"; "props"];
     GetAnimLayer := Some 0%nat; GetAnimTimeSpan := span_0_10;
     AddProperty := fun _ => defaultProperty |}.

Definition nodeProperties (node : FbxNode) : list FbxProperty :=
  [shortProperty; animatedDouble; halfProperty].

(** The user properties of the joints: A and B each have a property [p]
    driven by a curve on every layer. *)
Definition animatedShort (z : Z) : FbxProperty :=
  {| IsValid := true; Name := "p"; DataType := eFbxShort;
     UserDefined := true; Data := DInteger z;
     CurveNodes := fun _ => Some {| channels := [Some rampCurve] |} |}.

Definition jointUserProperties (node : FbxNode) : list FbxProperty :=
  if decide (GetName node = "A") then [animatedShort 1]
  else if decide (GetName node = "B") then [animatedShort 2]
  else [].

End examples.

(** * Properties *)

(** ** Integer conversions *)

Lemma wrap_unsigned_range w z : 0 <= w -> 0 <= wrap_unsigned w z < 2 ^ w.
Proof. intros Hw. unfold wrap_unsigned. apply Z.mod_pos_bound. lia. Qed.

Lemma wrap_signed_range w z :
  0 < w -> - 2 ^ (w - 1) <= wrap_signed w z < 2 ^ (w - 1).
Proof.
  intros Hw. unfold wrap_signed.
  assert (H2 : 2 ^ w = 2 * 2 ^ (w - 1)).
  { replace w with (Z.succ (w - 1)) at 1 by lia. apply Z.pow_succ_r. lia. }
  assert (0 < 2 ^ (w - 1)) by (apply Z.pow_pos_nonneg; lia).
  pose proof (Z.mod_pos_bound (z + 2 ^ (w - 1)) (2 ^ w)). lia.
Qed.

Lemma wrap_signed_id w z :
  0 < w -> - 2 ^ (w - 1) <= z < 2 ^ (w - 1) -> wrap_signed w z = z.
Proof.
  intros Hw Hz. unfold wrap_signed.
  assert (H2 : 2 ^ w = 2 * 2 ^ (w - 1)).
  { replace w with (Z.succ (w - 1)) at 1 by lia. apply Z.pow_succ_r. lia. }
  rewrite Z.mod_small by lia. lia.
Qed.

Lemma wrap_unsigned_id w z : 0 <= z < 2 ^ w -> wrap_unsigned w z = z.
Proof. intros Hz. unfold wrap_unsigned. apply Z.mod_small. lia. Qed.

(** Converting a signed [w]-bit value to the unsigned type of the same width
    is reduction modulo [2 ^ w]. *)
Lemma wrap_unsigned_signed w z :
  0 < w -> wrap_unsigned w (wrap_signed w z) = z mod 2 ^ w.
Proof.
  intros Hw. unfold wrap_unsigned, wrap_signed.
  assert (H2 : 2 ^ w = 2 * 2 ^ (w - 1)).
  { replace w with (Z.succ (w - 1)) at 1 by lia. apply Z.pow_succ_r. lia. }
  assert (0 < 2 ^ (w - 1)) by (apply Z.pow_pos_nonneg; lia).
  rewrite <- Zminus_mod_idemp_l.
  rewrite Z.mod_mod by lia.
  rewrite Zminus_mod_idemp_l.
  f_equal. lia.
Qed.

(** ** The value and type mapper *)

Section FbxToUsd_properties.
Import Fp helpers.

Lemma Get_FbxChar_range p : -128 <= Get_FbxChar p <= 127.
Proof.
  unfold Get_FbxChar.
  pose proof (wrap_signed_range 8 (Get_integer p)) as H.
  change (2 ^ (8 - 1)) with 128 in H. lia.
Qed.

Lemma Get_FbxShort_range p : -32768 <= Get_FbxShort p <= 32767.
Proof.
  unfold Get_FbxShort.
  pose proof (wrap_signed_range 16 (Get_integer p)) as H.
  change (2 ^ (16 - 1)) with 32768 in H. lia.
Qed.

Lemma Get_FbxUShort_range p : 0 <= Get_FbxUShort p <= 65535.
Proof.
  unfold Get_FbxUShort.
  pose proof (wrap_unsigned_range 16 (Get_integer p)) as H.
  change (2 ^ 16) with 65536 in H. lia.
Qed.

(** The held types of the two [getValue] overloads agree for every tag
    other than [eFbxTime] and [eFbxDistance]. *)
Lemma getValue_types_agree p animChannels v :
  DataType p <> eFbxTime -> DataType p <> eFbxDistance ->
  getValue_anim p animChannels = Some v ->
  GetType v = GetType (getValue p).
Proof.
  intros Ht Hd. unfold getValue_anim, getValue.
  destruct (DataType p); try congruence; intros H; simplify_option_eq;
    reflexivity.
Qed.

(** C1, at the tags the channel overload misses: for a distance property the
    declared type is [Float] and the default value holds a [float], but a
    sampled frame converts to the token ["UNKNOWN VALUE"]; for a time
    property the default holds a time code and the sample again a token. *)
Theorem C1_distance_and_time_samples_are_tokens :
  getSdfTypeName examples.distanceProperty = SdfValueTypeNames.Float
  /\ GetType (getValue examples.distanceProperty) = h_float
  /\ getValue_anim examples.distanceProperty [float_lit 5 (-1)]
     = Some (VtToken "UNKNOWN VALUE")
  /\ getSdfTypeName examples.timeProperty = SdfValueTypeNames.TimeCode
  /\ GetType (getValue examples.timeProperty) = h_UsdTimeCode
  /\ getValue_anim examples.timeProperty [float_lit 12 0]
     = Some (VtToken "UNKNOWN VALUE").
Proof. repeat split; reflexivity. Qed.

End FbxToUsd_properties.

(** ** Half precision: converting a half to float and back is the identity *)

Section half_round_trip.
Import Fp.

Lemma digits2_pos_bound m : Z.pos m < 2 ^ Z.pos (digits2_pos m).
Proof.
  induction m as [p IH | p IH |]; simpl digits2_pos.
  - rewrite Pos2Z.inj_succ, Z.pow_succ_r by lia. lia.
  - rewrite Pos2Z.inj_succ, Z.pow_succ_r by lia. lia.
  - reflexivity.
Qed.

(** A valid half has a mantissa below [2 ^ 11] and an exponent between
    -24 and 5. *)
Lemma bounded_half_range m e :
  bounded prec16 emax16 m e = true -> Z.pos m < 2048 /\ -24 <= e <= 5.
Proof.
  unfold bounded, canonical_mantissa, fexp, emin, prec16, emax16.
  intros H. apply andb_prop in H as [Hc He].
  apply Z.eqb_eq in Hc. apply Z.leb_le in He.
  pose proof (digits2_pos_bound m) as Hd.
  assert (Z.pos (digits2_pos m) <= 11) as Hle by lia.
  split; [| lia].
  eapply Z.lt_le_trans; [exact Hd |].
  change 2048 with (2 ^ 11). apply Z.pow_le_mono_r; lia.
Qed.

(** Every finite half, checked by evaluation. *)
Lemma half_round_table :
  forallb (fun e =>
    forallb (fun m =>
      implb (bounded prec16 emax16 m e)
            (bool_decide (binary_round prec16 emax16 false m e
                          = S754_finite false m e)
             && bool_decide (binary_round prec16 emax16 true m e
                             = S754_finite true m e)))
      (Pos.of_nat <$> seq 1 2047))
    (seqZ (-24) 30) = true.
Proof. vm_compute. reflexivity. Qed.

Lemma float_to_half_valid (h : half) :
  valid_half h = true -> float_to_half (half_to_float h) = h.
Proof.
  destruct h as [s | s | | s m e]; try reflexivity.
  unfold valid_half, half_to_float, float_to_half, round_to; simpl.
  intros Hb. destruct (bounded_half_range m e Hb) as [Hm He].
  pose proof half_round_table as T.
  rewrite forallb_forall in T.
  specialize (T e). rewrite forallb_forall in T.
  assert (In e (seqZ (-24) 30)) as Hine.
  { apply list_elem_of_In, elem_of_seqZ. lia. }
  specialize (T Hine m).
  assert (In m (Pos.of_nat <$> seq 1 2047)) as Hinm.
  { apply in_map_iff. exists (Pos.to_nat m). split.
    - apply Pos2Nat.id.
    - apply in_seq. pose proof (Pos2Nat.is_pos m). lia. }
  specialize (T Hinm). rewrite Hb in T. simpl in T.
  apply andb_prop in T as [T1 T2].
  apply bool_decide_eq_true in T1. apply bool_decide_eq_true in T2.
  destruct s; assumption.
Qed.

End half_round_trip.

Section integer_and_float_sources.
Import Fp helpers.

(** C4 as stated fails on a signed char: the target type is the 8-bit
    [UChar], not the 32-bit [Int], and the value -5 comes out as 251. *)
Lemma C4_char_is_not_widened :
  DataType examples.charProperty = eFbxChar
  /\ getSdfTypeName examples.charProperty = SdfValueTypeNames.UChar
  /\ getValue examples.charProperty = VtUChar 251
  /\ ~ (getSdfTypeName examples.charProperty = SdfValueTypeNames.Int
        /\ getValue examples.charProperty = VtInt (-5)).
Proof.
  repeat split; try reflexivity.
  intros [H _]. discriminate H.
Qed.

(** C4, amended: signed and unsigned short widen to the 32-bit [Int] and
    [UInt] with the value unchanged; signed and unsigned char both map to
    the 8-bit [UChar] (the signed value modulo 256); half, float and double
    keep their type and value. *)
Theorem C4_widening_table (p : FbxProperty) :
  match DataType p with
  | eFbxShort =>
      getSdfTypeName p = SdfValueTypeNames.Int
      /\ getValue p = VtInt (Get_FbxShort p)
  | eFbxUShort =>
      getSdfTypeName p = SdfValueTypeNames.UInt
      /\ getValue p = VtUInt (Get_FbxUShort p)
  | eFbxChar =>
      getSdfTypeName p = SdfValueTypeNames.UChar
      /\ getValue p = VtUChar (Get_FbxChar p mod 256)
  | eFbxUChar =>
      getSdfTypeName p = SdfValueTypeNames.UChar
      /\ getValue p = VtUChar (Get_FbxUChar p)
  | eFbxHalfFloat =>
      getSdfTypeName p = SdfValueTypeNames.Half
      /\ (valid_half (Get_FbxHalfFloat p) = true ->
          getValue p = VtHalf (Get_FbxHalfFloat p))
  | eFbxFloat =>
      getSdfTypeName p = SdfValueTypeNames.Float
      /\ getValue p = VtFloat (Get_float p)
  | eFbxDouble =>
      getSdfTypeName p = SdfValueTypeNames.Double
      /\ getValue p = VtDouble (Get_double p)
  | _ => True
  end.
Proof.
  unfold getSdfTypeName, getValue.
  destruct (DataType p); try exact I; split; try reflexivity.
  - (* short *)
    f_equal. apply wrap_signed_id; [lia |].
    pose proof (Get_FbxShort_range p). change (2 ^ (32 - 1)) with 2147483648.
    lia.
  - (* unsigned short *)
    f_equal. apply wrap_unsigned_id.
    pose proof (Get_FbxUShort_range p). change (2 ^ 32) with 4294967296.
    lia.
  - (* half *)
    intros Hv. f_equal. apply float_to_half_valid, Hv.
Qed.

(** The amended table at a short holding -300 and at a half holding 1.5. *)
Lemma C4_widening_table_witness :
  (getSdfTypeName examples.shortProperty = SdfValueTypeNames.Int
   /\ getValue examples.shortProperty = VtInt (-300))
  /\ getValue examples.halfProperty = VtHalf (S754_finite false 1536 (-10)).
Proof.
  split.
  - exact (C4_widening_table examples.shortProperty).
  - apply (C4_widening_table examples.halfProperty). reflexivity.
Defined.

(** The two paths of a signed char property: the default value is the
    source value modulo 256, so a negative value [c] comes out as
    [c + 256]; an animated sample is cast from float, which gives the
    sampled value truncated toward zero when that lies in 0..255 and is
    undefined otherwise. *)
Lemma char_default_wraps_sample_truncates
    (p : FbxProperty) (c : float) (rest : list float) :
  DataType p = eFbxChar ->
  getValue p = VtUChar (Get_FbxChar p mod 256)
  /\ (Get_FbxChar p < 0 -> getValue p = VtUChar (Get_FbxChar p + 256))
  /\ (0 <= Get_FbxChar p -> getValue p = VtUChar (Get_FbxChar p))
  /\ getValue_anim p (c :: rest)
     = match trunc c with
       | Some t => if (0 <=? t) && (t <=? 255) then Some (VtUChar t) else None
       | None => None
       end.
Proof.
  intros Htag. unfold getValue, getValue_anim. rewrite Htag.
  pose proof (Get_FbxChar_range p) as Hr.
  change (wrap_unsigned 8 (Get_FbxChar p)) with (Get_FbxChar p mod 256).
  repeat split.
  - intros Hneg. f_equal.
    rewrite <- (Z.mod_small (Get_FbxChar p + 256) 256) by lia.
    rewrite <- (Z.mul_1_l 256) at 2. symmetry. apply Z.mod_add. lia.
  - intros Hpos. f_equal. apply Z.mod_small. lia.
  - simpl. unfold to_uint8, to_integer.
    change (2 ^ 8 - 1) with 255.
    destruct (trunc c) as [t |]; [| reflexivity].
    destruct ((0 <=? t) && (t <=? 255)); reflexivity.
Qed.


End integer_and_float_sources.

(** ** The animation sampler *)

Section sampler.
Import Fp helpers spec.

Lemma set_insert_seqZ_next (k : nat) (s : Z) :
  set_insert (s + Z.of_nat k) (seqZ s (Z.of_nat k))
  = seqZ s (Z.of_nat k + 1).
Proof.
  revert s. induction k as [| k IH]; intros s.
  - simpl. rewrite Z.add_0_r. reflexivity.
  - rewrite (seqZ_cons s (Z.of_nat (S k))) by lia.
    rewrite (seqZ_cons s (Z.of_nat (S k) + 1)) by lia.
    simpl set_insert.
    destruct (Z.ltb_spec (s + Z.of_nat (S k)) s); [lia |].
    destruct (Z.eqb_spec (s + Z.of_nat (S k)) s); [lia |].
    f_equal.
    replace (Z.pred (Z.of_nat (S k))) with (Z.of_nat k) by lia.
    replace (Z.pred (Z.of_nat (S k) + 1)) with (Z.of_nat k + 1) by lia.
    replace (s + Z.of_nat (S k)) with (Z.succ s + Z.of_nat k) by lia.
    apply IH.
Qed.

Lemma set_insert_seqZ_member (n : nat) (s : Z) (k : Z) :
  0 <= k < Z.of_nat n ->
  set_insert (s + k) (seqZ s (Z.of_nat n)) = seqZ s (Z.of_nat n).
Proof.
  revert s k. induction n as [| n IH]; intros s k Hk; [lia |].
  rewrite (seqZ_cons s (Z.of_nat (S n))) by lia.
  simpl set_insert.
  destruct (Z.ltb_spec (s + k) s); [lia |].
  destruct (Z.eqb_spec (s + k) s); [reflexivity |].
  f_equal.
  replace (Z.pred (Z.of_nat (S n))) with (Z.of_nat n) by lia.
  replace (s + k) with (Z.succ s + (k - 1)) by lia.
  apply IH. lia.
Qed.

Lemma insertAll_build (k j : nat) (s : Z) :
  insertAll (seqZ s (Z.of_nat j)) (seqZ (s + Z.of_nat j) (Z.of_nat k))
  = seqZ s (Z.of_nat (j + k)).
Proof.
  revert j. induction k as [| k IH]; intros j.
  - simpl. rewrite Nat.add_0_r. reflexivity.
  - rewrite (seqZ_cons (s + Z.of_nat j)) by lia.
    unfold insertAll. simpl foldl. fold (insertAll
      (set_insert (s + Z.of_nat j) (seqZ s (Z.of_nat j)))
      (seqZ (Z.succ (s + Z.of_nat j)) (Z.pred (Z.of_nat (S k))))).
    rewrite set_insert_seqZ_next.
    replace (Z.of_nat j + 1) with (Z.of_nat (S j)) by lia.
    replace (Z.succ (s + Z.of_nat j)) with (s + Z.of_nat (S j)) by lia.
    replace (Z.pred (Z.of_nat (S k))) with (Z.of_nat k) by lia.
    rewrite IH. f_equal. lia.
Qed.

Lemma insertAll_from_empty (s : Z) (n : nat) :
  insertAll [] (seqZ s (Z.of_nat n)) = seqZ s (Z.of_nat n).
Proof.
  pose proof (insertAll_build n 0 s) as H. simpl in H.
  rewrite Z.add_0_r in H. exact H.
Qed.

Lemma insertAll_fixed (L : list UsdTimeCode) (fl : list Z) :
  Forall (fun frame => set_insert frame L = L) fl -> insertAll L fl = L.
Proof.
  induction 1 as [| frame fl Hf _ IH]; [reflexivity |].
  unfold insertAll. simpl. rewrite Hf. exact IH.
Qed.

Lemma insertAll_again (s : Z) (n : nat) :
  insertAll (seqZ s (Z.of_nat n)) (seqZ s (Z.of_nat n)) = seqZ s (Z.of_nat n).
Proof.
  apply insertAll_fixed. apply Forall_forall. intros frame Hin.
  apply list_elem_of_In, elem_of_seqZ in Hin.
  replace frame with (s + (frame - s)) by lia.
  apply set_insert_seqZ_member. lia.
Qed.

Lemma evaluateCurve_spec (animCurve : FbxAnimCurve) (channelId : nat)
    (frameList : list Z) :
  forall (index : nat) (timeCodes : list UsdTimeCode)
         (channelValues : list (list float)),
    (index + length frameList = length channelValues)%nat ->
    Forall (fun row => channelId < length row)%nat channelValues ->
    evaluateCurve animCurve channelId frameList index timeCodes channelValues
    = Some (insertAll timeCodes frameList,
            take index channelValues
            ++ zip_with (fun frame row => <[channelId := animCurve frame]> row)
                        frameList (drop index channelValues)).
Proof.
  induction frameList as [| frame rest IH]; intros index tc rows Hlen Hrows.
  - simpl in *. rewrite take_ge by lia. rewrite app_nil_r. reflexivity.
  - simpl in Hlen.
    destruct (lookup_lt_is_Some_2 rows index) as [row Hrow]; [lia |].
    simpl evaluateCurve. rewrite Hrow. simpl.
    assert (channelId < length row)%nat as Hch.
    { rewrite Forall_forall in Hrows. apply Hrows.
      apply list_elem_of_In. eapply list_elem_of_lookup_2, Hrow. }
    rewrite decide_True by exact Hch.
    rewrite IH.
    + f_equal. unfold insertAll. simpl. f_equal.
      rewrite (take_S_r _ _ (<[channelId := animCurve frame]> row)).
      2:{ apply list_lookup_insert_eq. lia. }
      rewrite take_insert_ge by lia.
      rewrite drop_insert_lt by lia.
      rewrite (drop_S rows row index Hrow). simpl.
      rewrite <- app_assoc. reflexivity.
    + rewrite length_insert. lia.
    + apply Forall_insert; [exact Hrows |]. rewrite length_insert. exact Hch.
Qed.

Lemma zip_with_fmap_same {A B C} (g : A -> B -> C) (h : A -> B) (l : list A) :
  zip_with g l (h <$> l) = (fun x => g x (h x)) <$> l.
Proof. induction l as [| x l IH]; simpl; [reflexivity | f_equal; exact IH]. Qed.

Lemma rowAfter_length curveNode frame channelIds row :
  length (rowAfter curveNode frame channelIds row) = length row.
Proof.
  revert row. induction channelIds as [| channelId rest IH]; intros row;
    [reflexivity |].
  unfold rowAfter in *. simpl.
  destruct (GetCurve curveNode channelId); rewrite IH;
    [apply length_insert | reflexivity].
Qed.

(** The channel loop, in closed form: every row is the row of its frame. *)
Lemma evaluateChannels_spec (curveNode : FbxAnimCurveNode)
    (animTimeSpan : FbxTimeSpan) (m : nat) (channelIds : list nat) :
  forall (timeCodes : list UsdTimeCode) (R : Z -> list float),
    (forall frame, length (R frame) = m) ->
    Forall (fun channelId => channelId < m)%nat channelIds ->
    evaluateChannels curveNode animTimeSpan channelIds timeCodes
      (R <$> frames animTimeSpan)
    = Some (timeCodesAfter curveNode (frames animTimeSpan) channelIds
              timeCodes,
            (fun frame => rowAfter curveNode frame channelIds (R frame))
              <$> frames animTimeSpan).
Proof.
  induction channelIds as [| channelId rest IH]; intros tc R HR Hids.
  - reflexivity.
  - inversion Hids as [| ? ? Hid Hrest]; subst.
    simpl evaluateChannels.
    unfold timeCodesAfter, rowAfter. simpl foldl.
    destruct (GetCurve curveNode channelId) as [animCurve |] eqn:Hcurve.
    + rewrite evaluateCurve_spec.
      * simpl. rewrite drop_0, zip_with_fmap_same.
        rewrite (IH _ (fun frame =>
                         <[channelId := animCurve frame]> (R frame))).
        -- reflexivity.
        -- intros frame. rewrite length_insert. apply HR.
        -- exact Hrest.
      * rewrite length_fmap. reflexivity.
      * apply Forall_fmap, Forall_forall. intros frame _. simpl.
        rewrite HR. exact Hid.
    + rewrite (IH tc R HR Hrest). reflexivity.
Qed.

(** Written channel by channel, a row of zeros becomes the channel vector
    of its frame. *)
Lemma rowAfter_lookup curveNode frame (channelIds : list nat) :
  forall (row : list float) (j : nat),
    NoDup channelIds ->
    Forall (fun channelId => channelId < length row)%nat channelIds ->
    rowAfter curveNode frame channelIds row !! j
    = match GetCurve curveNode j with
      | Some animCurve =>
          if bool_decide (j ∈ channelIds) then Some (animCurve frame)
          else row !! j
      | None => row !! j
      end.
Proof.
  induction channelIds as [| channelId rest IH]; intros row j Hnd Hlt.
  - simpl. destruct (GetCurve curveNode j); reflexivity.
  - pose proof (NoDup_cons_1_1 _ _ Hnd) as Hnotin.
    apply NoDup_cons_1_2 in Hnd.
    inversion Hlt as [| ? ? Hc Hrest]; subst.
    unfold rowAfter. simpl foldl.
    fold (rowAfter curveNode frame rest
            (match GetCurve curveNode channelId with
             | Some animCurve => <[channelId := animCurve frame]> row
             | None => row
             end)).
    rewrite IH; [| exact Hnd |].
    2:{ destruct (GetCurve curveNode channelId);
          [rewrite length_insert |]; exact Hrest. }
    destruct (decide (j = channelId)) as [-> | Hne].
    + destruct (GetCurve curveNode channelId) as [animCurve |] eqn:Hcurve;
        [| reflexivity].
      rewrite (bool_decide_eq_false_2 _ Hnotin).
      rewrite bool_decide_eq_true_2 by (apply elem_of_cons; left; reflexivity).
      apply list_lookup_insert_eq. exact Hc.
    + assert ((match GetCurve curveNode channelId with
               | Some animCurve => <[channelId := animCurve frame]> row
               | None => row
               end) !! j = row !! j) as Hsame.
      { destruct (GetCurve curveNode channelId); [| reflexivity].
        apply list_lookup_insert_ne. congruence. }
      rewrite Hsame.
      destruct (GetCurve curveNode j); [| reflexivity].
      destruct (bool_decide (j ∈ rest)) eqn:Hin.
      * apply bool_decide_eq_true in Hin.
        rewrite bool_decide_eq_true_2 by (apply elem_of_cons; right; exact Hin).
        reflexivity.
      * apply bool_decide_eq_false in Hin.
        rewrite bool_decide_eq_false_2; [reflexivity |].
        intros Hin'. apply elem_of_cons in Hin' as [? | ?]; congruence.
Qed.

Lemma channel_lookup_cases {A B} (chs : list (option A)) (g : A -> B)
    (z : B) (j : nat) :
  match mjoin (chs !! j) with
  | Some c =>
      if bool_decide (j ∈ seq 0 (length chs)) then Some (g c)
      else replicate (length chs) z !! j
  | None => replicate (length chs) z !! j
  end
  = (fun ch => match ch with Some c => g c | None => z end) <$> chs !! j.
Proof.
  destruct (chs !! j) as [[c |] |] eqn:Hj; simpl.
  - rewrite bool_decide_eq_true_2; [reflexivity |].
    apply elem_of_seq. apply lookup_lt_Some in Hj. lia.
  - apply lookup_replicate_2. apply lookup_lt_Some in Hj. exact Hj.
  - apply lookup_replicate_None. apply lookup_ge_None in Hj. exact Hj.
Qed.

Lemma rowAfter_all_channels curveNode frame :
  rowAfter curveNode frame (seq 0 (GetChannelsCount curveNode))
           (replicate (GetChannelsCount curveNode) zero)
  = channelsAt curveNode frame.
Proof.
  apply list_eq. intros j.
  rewrite rowAfter_lookup.
  - unfold channelsAt. rewrite list_lookup_fmap.
    apply (channel_lookup_cases (channels curveNode)
             (fun animCurve : FbxAnimCurve => animCurve frame) zero j).
  - apply NoDup_seq.
  - apply Forall_forall. intros channelId Hin.
    apply list_elem_of_In, elem_of_seq in Hin. rewrite length_replicate. lia.
Qed.

Lemma timeCodesAfter_kept curveNode (s : Z) (n : nat) channelIds :
  timeCodesAfter curveNode (seqZ s (Z.of_nat n)) channelIds
                 (seqZ s (Z.of_nat n))
  = seqZ s (Z.of_nat n).
Proof.
  induction channelIds as [| channelId rest IH]; [reflexivity |].
  unfold timeCodesAfter in *. simpl.
  destruct (GetCurve curveNode channelId); [| exact IH].
  rewrite insertAll_again. exact IH.
Qed.

Lemma timeCodesAfter_filled curveNode (s : Z) (n : nat) channelIds :
  hasAnimCurves_from curveNode channelIds = true ->
  timeCodesAfter curveNode (seqZ s (Z.of_nat n)) channelIds []
  = seqZ s (Z.of_nat n).
Proof.
  induction channelIds as [| channelId rest IH]; [discriminate |].
  unfold timeCodesAfter in *. simpl.
  destruct (GetCurve curveNode channelId); intros H.
  - rewrite insertAll_from_empty. apply timeCodesAfter_kept.
  - apply IH, H.
Qed.

Lemma hasAnimCurves_from_false curveNode channelIds :
  hasAnimCurves_from curveNode channelIds = false <->
  forall channelId, channelId ∈ channelIds ->
                    GetCurve curveNode channelId = None.
Proof.
  induction channelIds as [| channelId rest IH]; simpl.
  - split; [| reflexivity]. intros _ c Hc. apply elem_of_nil in Hc as [].
  - destruct (GetCurve curveNode channelId) eqn:Hcurve.
    + split; [discriminate |]. intros H.
      rewrite (H channelId) in Hcurve; [discriminate |].
      apply elem_of_cons. left. reflexivity.
    + rewrite IH. split.
      * intros H c Hc. apply elem_of_cons in Hc as [-> | Hc];
          [exact Hcurve | apply H, Hc].
      * intros H c Hc. apply H. apply elem_of_cons. right. exact Hc.
Qed.

Lemma hasAnimCurves_false curveNode :
  hasAnimCurves curveNode = false <->
  forall channelId, GetCurve curveNode channelId = None.
Proof.
  unfold hasAnimCurves. rewrite hasAnimCurves_from_false. split.
  - intros H channelId.
    destruct (decide (channelId < GetChannelsCount curveNode)%nat)
      as [Hlt | Hge].
    + apply H. apply elem_of_seq. lia.
    + unfold GetCurve, GetChannelsCount in *.
      rewrite (lookup_ge_None_2 (channels curveNode) channelId) by lia.
      reflexivity.
  - intros H channelId _. apply H.
Qed.

Lemma transform2_samples (fbxProperty : FbxProperty) (R : Z -> list float)
    (frameList : list Z) :
  (forall frame, frame ∈ frameList ->
                 is_Some (getValue_anim fbxProperty (R frame))) ->
  exists samples,
    transform2 (fun channelValue timeCode =>
                  val ← getValue_anim fbxProperty channelValue;
                  Some (timeCode, val))
               (R <$> frameList) frameList = Some samples
    /\ samples.*1 = frameList
    /\ Forall (fun sample => getValue_anim fbxProperty (R sample.1)
                             = Some sample.2) samples.
Proof.
  induction frameList as [| frame rest IH]; intros Hdef.
  - exists []. repeat split. constructor.
  - destruct (Hdef frame) as [v Hv]; [apply elem_of_cons; left; reflexivity |].
    destruct IH as (samples & Ht & Hfst & Hall).
    { intros f Hf. apply Hdef. apply elem_of_cons. right. exact Hf. }
    exists ((frame, v) :: samples).
    rewrite fmap_cons. cbn [transform2]. rewrite Hv. cbn [mbind option_bind].
    rewrite Ht. cbn [mbind option_bind].
    repeat split; [rewrite fmap_cons; f_equal; exact Hfst |].
    constructor; [exact Hv | exact Hall].
Qed.

Lemma const_fmap_replicate {A B} (x : B) (l : list A) :
  replicate (length l) x = (fun _ => x) <$> l.
Proof. induction l as [| a l IH]; simpl; [reflexivity | f_equal; exact IH]. Qed.

(** Sampling a property that has a curve, over a non-empty range. *)
Lemma getPropertyAnimation_sampled (fbxProperty : FbxProperty)
    (layer : FbxAnimLayer) (curveNode : FbxAnimCurveNode)
    (animTimeSpan : FbxTimeSpan) :
  GetStart animTimeSpan <= GetStop animTimeSpan ->
  GetStop animTimeSpan - GetStart animTimeSpan + 1 < 2 ^ 64 ->
  GetCurveNode fbxProperty layer = Some curveNode ->
  hasAnimCurves curveNode = true ->
  (forall frame,
     GetStart animTimeSpan <= frame <= GetStop animTimeSpan ->
     is_Some (getValue_anim fbxProperty (channelsAt curveNode frame))) ->
  exists samples,
    getPropertyAnimation fbxProperty (Some layer) animTimeSpan = Some samples
    /\ samples.*1 = frames animTimeSpan
    /\ Forall (fun sample =>
                 getValue_anim fbxProperty (channelsAt curveNode sample.1)
                 = Some sample.2) samples.
Proof.
  intros Hrange Hbound Hnode Hcurves Hdef.
  unfold getPropertyAnimation.
  assert (IsValid fbxProperty = true) as Hvalid.
  { unfold GetCurveNode in Hnode. destruct (IsValid fbxProperty);
      [reflexivity | discriminate]. }
  rewrite Hvalid, Hnode, Hcurves. simpl.
  set (count := GetStop animTimeSpan - GetStart animTimeSpan + 1) in *.
  assert (wrap_unsigned 64 (GetDuration animTimeSpan + 1) = count) as ->.
  { unfold GetDuration. rewrite Z.abs_eq by lia.
    apply wrap_unsigned_id. subst count. lia. }
  assert (Z.to_nat count = length (frames animTimeSpan)) as ->.
  { unfold frames. rewrite length_seqZ. reflexivity. }
  rewrite (const_fmap_replicate _ (frames animTimeSpan)).
  rewrite (evaluateChannels_spec curveNode animTimeSpan
             (GetChannelsCount curveNode)).
  2:{ intros _. apply length_replicate. }
  2:{ apply Forall_forall. intros c Hc.
      apply list_elem_of_In, elem_of_seq in Hc. lia. }
  simpl.
  assert (frames animTimeSpan
          = seqZ (GetStart animTimeSpan) (Z.of_nat (Z.to_nat count))) as Hfr.
  { unfold frames. rewrite Z2Nat.id by (subst count; lia). reflexivity. }
  assert (timeCodesAfter curveNode (frames animTimeSpan)
            (seq 0 (GetChannelsCount curveNode)) []
          = frames animTimeSpan) as ->.
  { rewrite Hfr. apply timeCodesAfter_filled. exact Hcurves. }
  destruct (transform2_samples fbxProperty
              (fun frame =>
                 rowAfter curveNode frame
                   (seq 0 (GetChannelsCount curveNode))
                   (replicate (GetChannelsCount curveNode) zero))
              (frames animTimeSpan)) as (samples & Ht & Hfst & Hall).
  { intros frame Hin. rewrite rowAfter_all_channels. apply Hdef.
    unfold frames in Hin. apply elem_of_seqZ in Hin. lia. }
  exists samples. split; [exact Ht |]. split; [exact Hfst |].
  clear -Hall.
  induction Hall as [| sample samples' Hs _ IH]; constructor; [| exact IH].
  rewrite rowAfter_all_channels in Hs. exact Hs.
Qed.

Lemma foldl_push_back {A B} (g : A -> B) (l : list A) (result : list B) :
  foldl (fun result x => result ++ [g x]) result l = result ++ (g <$> l).
Proof.
  revert result. induction l as [| x l IH]; intros result; simpl.
  - rewrite app_nil_r. reflexivity.
  - rewrite IH, <- app_assoc. reflexivity.
Qed.

Lemma frames_length animTimeSpan :
  length (frames animTimeSpan)
  = Z.to_nat (GetStop animTimeSpan - GetStart animTimeSpan + 1).
Proof. unfold frames. apply length_seqZ. Qed.

Lemma frames_increasing animTimeSpan (i j : nat) (ti tj : Z) :
  (i < j)%nat ->
  frames animTimeSpan !! i = Some ti -> frames animTimeSpan !! j = Some tj ->
  ti < tj.
Proof.
  unfold frames. intros Hij Hi Hj.
  apply lookup_seqZ in Hi as [-> _]. apply lookup_seqZ in Hj as [-> _]. lia.
Qed.

Lemma fst_fmap_pair {A B} (g : A -> B) (l : list A) :
  ((fun x => (x, g x)) <$> l).*1 = l.
Proof. rewrite <- list_fmap_compose. apply list_fmap_id. Qed.

Lemma increasing_transport (l l' : list Z) :
  l = l' ->
  (forall (i j : nat) ti tj,
     (i < j)%nat -> l' !! i = Some ti -> l' !! j = Some tj -> ti < tj) ->
  forall (i j : nat) ti tj,
    (i < j)%nat -> l !! i = Some ti -> l !! j = Some tj -> ti < tj.
Proof. intros ->. exact (fun H => H). Qed.

(** C6: over an inclusive frame range, both overloads of the sampler return
    one sample per integer frame of the range, [stop - start + 1] in all,
    in strictly increasing time order; the property overload returns the
    empty sequence exactly when the layer is absent, the property has no
    curve node on the layer, or no channel of the curve node has a curve,
    and the function overload exactly when the layer is absent. *)
Theorem C6_one_sample_per_frame {Node : Type}
    (fbxProperty : FbxProperty) (node : Node)
    (valueAtTimeFn : Node -> FbxTime -> VtValue)
    (animLayer : option FbxAnimLayer) (animTimeSpan : FbxTimeSpan) :
  GetStart animTimeSpan <= GetStop animTimeSpan ->
  GetStop animTimeSpan - GetStart animTimeSpan + 1 < 2 ^ 64 ->
  (forall layer curveNode frame,
     animLayer = Some layer ->
     GetCurveNode fbxProperty layer = Some curveNode ->
     hasAnimCurves curveNode = true ->
     GetStart animTimeSpan <= frame <= GetStop animTimeSpan ->
     is_Some (getValue_anim fbxProperty (channelsAt curveNode frame))) ->
  (exists samples,
     getPropertyAnimation fbxProperty animLayer animTimeSpan = Some samples
     /\ (samples = [] <-> nothingToSample fbxProperty animLayer)
     /\ (~ nothingToSample fbxProperty animLayer ->
         samples.*1 = frames animTimeSpan
         /\ length samples
            = Z.to_nat (GetStop animTimeSpan - GetStart animTimeSpan + 1)
         /\ (forall (i j : nat) ti tj,
               (i < j)%nat -> samples.*1 !! i = Some ti ->
               samples.*1 !! j = Some tj -> ti < tj)
         /\ forall layer curveNode,
              animLayer = Some layer ->
              GetCurveNode fbxProperty layer = Some curveNode ->
              Forall (fun sample =>
                        getValue_anim fbxProperty
                          (channelsAt curveNode sample.1) = Some sample.2)
                     samples))
  /\ (let samples :=
        getPropertyAnimation_fn node valueAtTimeFn animLayer animTimeSpan in
      (samples = [] <-> animLayer = None)
      /\ (animLayer <> None ->
          samples
          = (fun frame => (frame, valueAtTimeFn node frame))
              <$> frames animTimeSpan
          /\ samples.*1 = frames animTimeSpan
          /\ length samples
             = Z.to_nat (GetStop animTimeSpan - GetStart animTimeSpan + 1)
          /\ forall (i j : nat) ti tj,
               (i < j)%nat -> samples.*1 !! i = Some ti ->
               samples.*1 !! j = Some tj -> ti < tj)).
Proof.
  intros Hrange Hbound Hdef.
  assert (frames animTimeSpan <> []) as Hne.
  { intros Hnil. apply (f_equal length) in Hnil.
    rewrite frames_length in Hnil. simpl in Hnil. lia. }
  split.
  - destruct animLayer as [layer |].
    2:{ exists []. split; [reflexivity |]. split.
        - split; [intros _; left; reflexivity | reflexivity].
        - intros Hn. exfalso. apply Hn. left. reflexivity. }
    destruct (GetCurveNode fbxProperty layer) as [curveNode |] eqn:Hnode.
    2:{ exists []. split.
        - unfold getPropertyAnimation. rewrite Hnode.
          destruct (IsValid fbxProperty); reflexivity.
        - split.
          + split; [| reflexivity]. intros _. right. left.
            exists layer. split; [reflexivity | exact Hnode].
          + intros Hn. exfalso. apply Hn. right. left.
            exists layer. split; [reflexivity | exact Hnode]. }
    assert (IsValid fbxProperty = true) as Hvalid.
    { unfold GetCurveNode in Hnode. destruct (IsValid fbxProperty);
        [reflexivity | discriminate]. }
    destruct (hasAnimCurves curveNode) eqn:Hcurves.
    + destruct (getPropertyAnimation_sampled fbxProperty layer curveNode
                  animTimeSpan Hrange Hbound Hnode Hcurves)
        as (samples & Hs & Hfst & Hall).
      { intros frame Hf. eapply Hdef; eauto. }
      assert (~ nothingToSample fbxProperty (Some layer)) as Hsome.
      { intros [Habs | [(l & Hl & Habs) | (l & cn & Hl & Hcn & Habs)]].
        - discriminate.
        - injection Hl as <-. congruence.
        - injection Hl as <-. rewrite Hnode in Hcn. injection Hcn as <-.
          apply hasAnimCurves_false in Habs. congruence. }
      exists samples. split; [exact Hs |]. split.
      * split; [| intros Hn; exfalso; exact (Hsome Hn)].
        intros ->. simpl in Hfst. symmetry in Hfst. contradiction.
      * intros _. split; [exact Hfst |]. split.
        { rewrite <- frames_length, <- Hfst, length_fmap. reflexivity. }
        split.
        { rewrite Hfst. apply frames_increasing. }
        intros l cn Hl Hcn. injection Hl as <-.
        rewrite Hnode in Hcn. injection Hcn as <-. exact Hall.
    + exists []. split.
      * unfold getPropertyAnimation. rewrite Hvalid, Hnode, Hcurves.
        reflexivity.
      * assert (nothingToSample fbxProperty (Some layer)) as Hnothing.
        { right. right. exists layer, curveNode.
          split; [reflexivity |]. split; [exact Hnode |].
          apply hasAnimCurves_false, Hcurves. }
        split; [split; [intros _; exact Hnothing | reflexivity] |].
        intros Hn. exfalso. exact (Hn Hnothing).
  - unfold getPropertyAnimation_fn. destruct animLayer as [layer |].
    + rewrite foldl_push_back, app_nil_l. cbv zeta.
      split.
      * split; [| discriminate]. intros Hnil.
        apply fmap_nil_inv in Hnil. contradiction.
      * intros _. split; [reflexivity |].
        split; [apply fst_fmap_pair |]. split.
        { rewrite length_fmap. apply frames_length. }
        apply (increasing_transport _ (frames animTimeSpan)).
        -- apply fst_fmap_pair.
        -- apply frames_increasing.
    + split; [split; reflexivity |]. intros Hn. contradiction.
Qed.

(** C6 at a double property driven by one curve, frames 0 to 10: eleven
    samples, at frames 0, 1, ..., 10. *)
Lemma C6_one_sample_per_frame_witness :
  exists samples,
    getPropertyAnimation examples.animatedDouble (Some 0%nat)
                         examples.span_0_10 = Some samples
    /\ samples.*1 = [0; 1; 2; 3; 4; 5; 6; 7; 8; 9; 10]
    /\ length samples = 11%nat.
Proof.
  assert (forall (layer : FbxAnimLayer) curveNode frame,
            Some 0%nat = Some layer ->
            GetCurveNode examples.animatedDouble layer = Some curveNode ->
            hasAnimCurves curveNode = true ->
            GetStart examples.span_0_10 <= frame
            <= GetStop examples.span_0_10 ->
            is_Some (getValue_anim examples.animatedDouble
                       (channelsAt curveNode frame))) as Hdef.
  { intros layer curveNode frame _ Hnode _ _.
    injection Hnode as <-. eexists. reflexivity. }
  assert (~ nothingToSample examples.animatedDouble (Some 0%nat)) as Hsome.
  { intros [Habs | [(l & _ & Habs) | (l & cn & _ & Hcn & Habs)]].
    - discriminate.
    - discriminate.
    - injection Hcn as <-. specialize (Habs 0%nat). discriminate. }
  destruct (C6_one_sample_per_frame examples.animatedDouble tt
              (fun _ _ => VtEmpty) (Some 0%nat) examples.span_0_10
              ltac:(simpl; lia) ltac:(simpl; lia) Hdef)
    as [(samples & Hs & _ & Hrest) _].
  destruct (Hrest Hsome) as (Hfst & Hlen & _).
  exists samples. split; [exact Hs |]. split; [exact Hfst | exact Hlen].
Defined.

End sampler.

(** ** The layer scans of the mesh readers *)

Section layers.
Import Fp helpers converters spec.

Lemma loopM_ext {S A} (body body' : S -> A -> option S) (items : list A)
    (s : S) :
  (forall s a, body s a = body' s a) ->
  loopM body items s = loopM body' items s.
Proof.
  intros Hext. revert s. induction items as [| a rest IH]; intros s;
    [reflexivity |].
  simpl. rewrite Hext. destruct (body' s a); simpl; [apply IH | reflexivity].
Qed.

Lemma loopM_app {S A} (body : S -> A -> option S) (l1 l2 : list A) (s : S) :
  loopM body (l1 ++ l2) s = loopM body l1 s ≫= loopM body l2.
Proof.
  revert s. induction l1 as [| a l1 IH]; intros s; [reflexivity |].
  simpl. destruct (body s a); simpl; [apply IH | reflexivity].
Qed.

(** The scans return the last accepted element. *)
Lemma findNormals_last pre layer post element acc :
  GetNormals layer = Some element ->
  byPolygonVertexNotIndex element = true ->
  Forall (fun l => acceptsNormals l = false) post ->
  findNormals (pre ++ layer :: post) acc = Some element.
Proof.
  intros He Hacc Hpost. revert acc.
  induction pre as [| l pre IH]; intros acc; simpl.
  - rewrite He, Hacc. clear He Hacc.
    induction Hpost as [| l post Hl _ IH]; [reflexivity |].
    simpl. unfold acceptsNormals in Hl.
    destruct (GetNormals l); [rewrite Hl |]; exact IH.
  - destruct (GetNormals l) as [e |]; [destruct (byPolygonVertexNotIndex e) |];
      apply IH.
Qed.

Lemma findTangents_last pre layer post element acc :
  GetTangents layer = Some element ->
  byPolygonVertexNotIndex element = true ->
  Forall (fun l => acceptsTangents l = false) post ->
  findTangents (pre ++ layer :: post) acc = Some element.
Proof.
  intros He Hacc Hpost. revert acc.
  induction pre as [| l pre IH]; intros acc; simpl.
  - rewrite He, Hacc. clear He Hacc.
    induction Hpost as [| l post Hl _ IH]; [reflexivity |].
    simpl. unfold acceptsTangents in Hl.
    destruct (GetTangents l); [rewrite Hl |]; exact IH.
  - destruct (GetTangents l) as [e |]; [destruct (byPolygonVertexNotIndex e) |];
      apply IH.
Qed.

Lemma findVertexColors_last pre layer post element acc :
  GetVertexColors layer = Some element ->
  skipsVertexColors element = false ->
  Forall (fun l => acceptsVertexColors l = false) post ->
  findVertexColors (pre ++ layer :: post) acc = Some element.
Proof.
  intros He Hacc Hpost. revert acc.
  induction pre as [| l pre IH]; intros acc; simpl.
  - rewrite He, Hacc. clear He Hacc.
    induction Hpost as [| l post Hl _ IH]; [reflexivity |].
    simpl. unfold acceptsVertexColors in Hl.
    destruct (GetVertexColors l) as [e |]; [| exact IH].
    apply negb_false_iff in Hl. rewrite Hl. exact IH.
  - destruct (GetVertexColors l) as [e |]; [destruct (skipsVertexColors e) |];
      apply IH.
Qed.

Lemma readMesh_uv_step_at mesh created i layer :
  Layers mesh !! i = Some layer ->
  readMesh_uv_step mesh created i
  = match GetUVs layer with
    | None => Some created
    | Some layerElement =>
        if byPolygonVertexNotIndex layerElement then
          texCoords ← meshTexCoords mesh i;
          Some (created
                ++ [(uvPropertyName (GetLayerCount mesh) layerElement,
                     texCoords)])
        else Some created
    end.
Proof. intros H. unfold readMesh_uv_step. rewrite H. reflexivity. Qed.

(** The UV loop of [readMesh], in closed form. *)
Lemma readMesh_uv_loop mesh (layerIndices : list nat) :
  forall created,
    Forall (fun i => i < GetLayerCount mesh)%nat layerIndices ->
    loopM (readMesh_uv_step mesh) layerIndices created
    = (fun entries => created ++ entries) <$> uvEntries mesh layerIndices.
Proof.
  unfold uvEntries.
  induction layerIndices as [| i rest IH]; intros created Hlt.
  - simpl. rewrite app_nil_r. reflexivity.
  - inversion Hlt as [| ? ? Hi Hrest]; subst.
    destruct (lookup_lt_is_Some_2 (Layers mesh) i Hi) as [layer Hlayer].
    simpl loopM. rewrite (readMesh_uv_step_at mesh created i layer Hlayer).
    assert (acceptsUVs mesh i
            = match GetUVs layer with
              | Some e => byPolygonVertexNotIndex e
              | None => false
              end) as Hacc.
    { unfold acceptsUVs. rewrite Hlayer. reflexivity. }
    destruct (GetUVs layer) as [e |] eqn:He.
    + destruct (byPolygonVertexNotIndex e) eqn:Hb.
      * rewrite filter_cons_True by exact Hacc.
        change (mapM (uvEntry mesh) (i :: ?l))
          with (y ← uvEntry mesh i; k ← mapM (uvEntry mesh) l;
                Some (y :: k)).
        assert (uvEntry mesh i
                = (tc ← meshTexCoords mesh i;
                   Some (uvPropertyName (GetLayerCount mesh) e, tc))) as ->.
        { unfold uvEntry. rewrite Hlayer. simpl. rewrite He. reflexivity. }
        destruct (meshTexCoords mesh i) as [tc |]; simpl; [| reflexivity].
        rewrite IH by exact Hrest.
        destruct (mapM (uvEntry mesh) _) as [k |]; simpl; [| reflexivity].
        rewrite <- app_assoc. reflexivity.
      * rewrite filter_cons_False by (rewrite Hacc; discriminate).
        apply IH, Hrest.
    + rewrite filter_cons_False by (rewrite Hacc; discriminate).
      apply IH, Hrest.
Qed.

(** C2 as stated fails: with two layers that both carry accepted normals,
    tangents and colours, every reader returns the values of the second
    layer, not those of the first. *)
Lemma C2_second_layer_wins :
  meshNormals examples.twoLayerMesh
  = meshNormals (withLayers examples.twoLayerMesh [examples.layerB])
  /\ meshNormals examples.twoLayerMesh
     <> meshNormals (withLayers examples.twoLayerMesh [examples.layerA])
  /\ meshTangents examples.twoLayerMesh
     <> meshTangents (withLayers examples.twoLayerMesh [examples.layerA])
  /\ meshVertexColors examples.twoLayerMesh
     <> meshVertexColors (withLayers examples.twoLayerMesh [examples.layerA]).
Proof. repeat split; try reflexivity; vm_compute; discriminate. Qed.

(** C2, amended: among several layers of one semantic the readers use the
    last accepted one (normals and tangents: mapped by polygon vertex and
    not index-only; vertex colours: mapped by control point or index-only),
    so every earlier layer is ignored; UV layers are not chosen among:
    every accepted UV layer is read into a property of its own. *)
Theorem C2_last_accepted_layer_is_used (mesh : FbxMesh)
    (pre post : list FbxLayer) (layer : FbxLayer) :
  Layers mesh = pre ++ layer :: post ->
  (acceptsNormals layer = true ->
   Forall (fun l => acceptsNormals l = false) post ->
   meshNormals mesh = meshNormals (withLayers mesh [layer]))
  /\ (acceptsTangents layer = true ->
      Forall (fun l => acceptsTangents l = false) post ->
      meshTangents mesh = meshTangents (withLayers mesh [layer]))
  /\ (acceptsVertexColors layer = true ->
      Forall (fun l => acceptsVertexColors l = false) post ->
      meshVertexColors mesh = meshVertexColors (withLayers mesh [layer]))
  /\ readMesh_uvs mesh = uvEntries mesh (seq 0 (GetLayerCount mesh)).
Proof.
  intros Hlayers. repeat split.
  - unfold acceptsNormals. intros Hacc Hpost.
    destruct (GetNormals layer) as [e |] eqn:He; [| discriminate].
    unfold meshNormals. rewrite Hlayers.
    rewrite (findNormals_last pre layer post e None He Hacc Hpost).
    simpl. rewrite He, Hacc. reflexivity.
  - unfold acceptsTangents. intros Hacc Hpost.
    destruct (GetTangents layer) as [e |] eqn:He; [| discriminate].
    unfold meshTangents. rewrite Hlayers.
    rewrite (findTangents_last pre layer post e None He Hacc Hpost).
    simpl. rewrite He, Hacc. reflexivity.
  - unfold acceptsVertexColors. intros Hacc Hpost.
    destruct (GetVertexColors layer) as [e |] eqn:He; [| discriminate].
    apply negb_true_iff in Hacc.
    unfold meshVertexColors. rewrite Hlayers.
    rewrite (findVertexColors_last pre layer post e None He Hacc Hpost).
    simpl. rewrite He, Hacc. reflexivity.
  - unfold readMesh_uvs. rewrite readMesh_uv_loop.
    + destruct (uvEntries mesh _); reflexivity.
    + apply Forall_forall. intros i Hi.
      apply list_elem_of_In, elem_of_seq in Hi. lia.
Qed.

(** The amended claim on the two-layer mesh: the second layer decides, and
    both UV layers get a property. *)
Lemma C2_last_accepted_layer_is_used_witness :
  meshNormals examples.twoLayerMesh
  = meshNormals (withLayers examples.twoLayerMesh [examples.layerB])
  /\ meshTangents examples.twoLayerMesh
     = meshTangents (withLayers examples.twoLayerMesh [examples.layerB])
  /\ meshVertexColors examples.twoLayerMesh
     = meshVertexColors (withLayers examples.twoLayerMesh [examples.layerB])
  /\ (fun created => created.*1) <$> readMesh_uvs examples.twoLayerMesh
     = Some ["primvars:st_A"; "primvars:st_B"].
Proof.
  destruct (C2_last_accepted_layer_is_used examples.twoLayerMesh
              [examples.layerA] [] examples.layerB eq_refl)
    as (Hn & Ht & Hc & Huv).
  split; [apply Hn; [reflexivity | constructor] |].
  split; [apply Ht; [reflexivity | constructor] |].
  split; [apply Hc; [reflexivity | constructor] |].
  rewrite Huv. reflexivity.
Defined.

End layers.

(** ** Joint collection and joint path tokens *)

Section skeleton_hierarchy.
Import Fp scene helpers converters readers spec.

Lemma FbxTree_nested_ind (P : FbxTree -> Prop) :
  (forall name a ks, Forall P ks -> P (TNode name a ks)) ->
  forall t, P t.
Proof.
  intros step.
  fix IH 1. intros [name a ks]. apply step.
  induction ks as [| k ks IHks]; constructor; [apply IH | exact IHks].
Qed.

Lemma collectChild_unfold skeleton name a ks :
  collectChild skeleton (TNode name a ks)
  = let child := mkFbxNode name a (Some skeleton) ks in
    if isSkeleton child then
      let below := collectChildren child ks in (child :: below.1, below.2)
    else ([], [NotAnFbxSkeleton name]).
Proof.
  simpl. destruct (isSkeleton _); [| reflexivity].
  assert (forall l,
            (fix children (l : list FbxTree) : list FbxNode * list Warning :=
               match l with
               | [] => ([], [])
               | k :: l' =>
                   let r :=
                     collectChild (mkFbxNode name a (Some skeleton) ks) k in
                   let r' := children l' in
                   (r.1 ++ r'.1, r.2 ++ r'.2)
               end) l
            = collectChildren (mkFbxNode name a (Some skeleton) ks) l) as H.
  { induction l as [| k l IHl]; [reflexivity |].
    cbn [collectChildren]. rewrite <- IHl. reflexivity. }
  rewrite H. reflexivity.
Qed.

Lemma subtreeHandles_unfold parent name a ks :
  subtreeHandles parent (TNode name a ks)
  = let self := mkFbxNode name a (Some parent) ks in
    self :: flat_map (subtreeHandles self) ks.
Proof.
  reflexivity.
Qed.

Lemma ancestry_child parent t :
  ancestry (childHandle parent t) = childHandle parent t :: ancestry parent.
Proof. destruct t. reflexivity. Qed.

Lemma collectChildren_joint skeleton ks x :
  x ∈ (collectChildren skeleton ks).1 ->
  exists k, k ∈ ks /\ x ∈ (collectChild skeleton k).1.
Proof.
  induction ks as [| k ks IH]; simpl; intros Hx.
  - apply elem_of_nil in Hx as [].
  - apply elem_of_app in Hx as [Hx | Hx].
    + exists k. split; [apply elem_of_cons; left; reflexivity | exact Hx].
    + destruct (IH Hx) as (k' & Hk' & Hx').
      exists k'. split; [apply elem_of_cons; right; exact Hk' | exact Hx'].
Qed.


(** Every collected joint hangs under the starting joint by a chain of
    joints. *)
Lemma collectChild_chain t :
  forall skeleton x,
    x ∈ (collectChild skeleton t).1 ->
    exists pre, ancestry x = pre ++ ancestry skeleton
                /\ Forall (fun n => isSkeleton n = true) pre.
Proof.
  induction t as [name a ks IH] using FbxTree_nested_ind.
  intros skeleton x. rewrite collectChild_unfold. cbv zeta.
  destruct (isSkeleton (mkFbxNode name a (Some skeleton) ks)) eqn:Hsk;
    simpl; intros Hx.
  - apply elem_of_cons in Hx as [-> | Hx].
    + exists [mkFbxNode name a (Some skeleton) ks]. split; [reflexivity |].
      constructor; [exact Hsk | constructor].
    + apply collectChildren_joint in Hx as (k & Hk & Hx).
      rewrite Forall_forall in IH.
      destruct (IH k (proj1 (list_elem_of_In _ _) Hk) _ _ Hx)
        as (pre & Hpre & Hall).
      exists (pre ++ [mkFbxNode name a (Some skeleton) ks]). split.
      * rewrite Hpre, <- app_assoc. reflexivity.
      * apply Forall_app. split; [exact Hall |].
        constructor; [exact Hsk | constructor].
  - apply elem_of_nil in Hx as [].
Qed.

Lemma hierarchy_chain pSkeleton x :
  x ∈ (collectSkeletonHierarchy pSkeleton).1 ->
  exists pre, ancestry x = pre ++ ancestry pSkeleton
              /\ Forall (fun n => isSkeleton n = true) pre.
Proof.
  unfold collectSkeletonHierarchy. simpl. intros Hx.
  apply elem_of_cons in Hx as [-> | Hx].
  - exists []. split; [reflexivity | constructor].
  - apply collectChildren_joint in Hx as (k & _ & Hx).
    eapply collectChild_chain, Hx.
Qed.

(** Every node of a subtree has the subtree's own node among its
    ancestors. *)
Lemma subtreeHandles_chain t :
  forall parent x,
    x ∈ subtreeHandles parent t ->
    exists pre, ancestry x = pre ++ ancestry (childHandle parent t).
Proof.
  induction t as [name a ks IH] using FbxTree_nested_ind.
  intros parent x. rewrite subtreeHandles_unfold. cbv zeta. intros Hx.
  apply elem_of_cons in Hx as [-> | Hx].
  - exists []. reflexivity.
  - apply list_elem_of_In, in_flat_map in Hx as (k & Hk & Hx).
    rewrite Forall_forall in IH.
    destruct (IH k Hk _ _ (proj2 (list_elem_of_In _ _) Hx)) as (pre & Hpre).
    exists (pre ++ [childHandle (mkFbxNode name a (Some parent) ks) k]).
    rewrite Hpre, ancestry_child, <- app_assoc. reflexivity.
Qed.




End skeleton_hierarchy.

(** ** The readers *)

Section reader_properties.
Import Fp scene helpers converters readers spec.

(** The sampler is defined whenever the frame range is in order and every
    sampled channel vector converts. *)
Lemma getPropertyAnimation_defined (fbxProperty : FbxProperty)
    (animLayer : option FbxAnimLayer) (animTimeSpan : FbxTimeSpan) :
  GetStart animTimeSpan <= GetStop animTimeSpan ->
  GetStop animTimeSpan - GetStart animTimeSpan + 1 < 2 ^ 64 ->
  (forall layer curveNode frame,
     animLayer = Some layer ->
     GetCurveNode fbxProperty layer = Some curveNode ->
     hasAnimCurves curveNode = true ->
     is_Some (getValue_anim fbxProperty (channelsAt curveNode frame))) ->
  is_Some (getPropertyAnimation fbxProperty animLayer animTimeSpan).
Proof.
  intros Hrange Hbound Hdef.
  destruct animLayer as [layer |]; [| eexists; reflexivity].
  destruct (GetCurveNode fbxProperty layer) as [curveNode |] eqn:Hnode.
  2:{ unfold getPropertyAnimation. rewrite Hnode.
      destruct (IsValid fbxProperty); eexists; reflexivity. }
  destruct (hasAnimCurves curveNode) eqn:Hcurves.
  - destruct (getPropertyAnimation_sampled fbxProperty layer curveNode
                animTimeSpan Hrange Hbound Hnode Hcurves)
      as (samples & Hs & _).
    + intros frame _. eapply Hdef; eauto.
    + eexists. exact Hs.
  - unfold getPropertyAnimation. rewrite Hnode, Hcurves.
    destruct (IsValid fbxProperty); eexists; reflexivity.
Qed.

(** A double property converts every channel vector that has a curve. *)
Lemma double_samples_convert (fbxProperty : FbxProperty) curveNode frame :
  DataType fbxProperty = eFbxDouble ->
  hasAnimCurves curveNode = true ->
  is_Some (getValue_anim fbxProperty (channelsAt curveNode frame)).
Proof.
  intros Htype Hcurves. unfold getValue_anim. rewrite Htype.
  unfold channelsAt.
  destruct (channels curveNode) as [| channel rest] eqn:Hch.
  - unfold hasAnimCurves, GetChannelsCount in Hcurves. rewrite Hch in Hcurves.
    discriminate.
  - eexists. reflexivity.
Qed.

Lemma CreateProperty_without_curve context path type' v md var :
  CreateProperty context path type' v None md var
  = Some {| value := v; typeName := type'; variability := var;
            timeSamples := timeSamples (AddProperty context path);
            metadata := md;
            targetPaths := targetPaths (AddProperty context path) |}.
Proof. reflexivity. Qed.

(** C10: reading a camera node creates an [fStop] property exactly when the
    camera uses depth of field, and the value of a created [fStop] is the
    float 0. *)
Theorem C10_fStop_iff_depth_of_field (tokens : UsdFbxTokens)
    (GetConversionFactorTo : FbxSystemUnit -> FbxSystemUnit -> double)
    (mm : FbxSystemUnit) (context : FbxNodeReaderContext)
    (camera : FbxCamera) :
  GetNodeAttribute (GetNode context) = Some eCamera ->
  GetCamera context = Some camera ->
  GetStart (GetAnimTimeSpan context) <= GetStop (GetAnimTimeSpan context) ->
  GetStop (GetAnimTimeSpan context) - GetStart (GetAnimTimeSpan context) + 1
  < 2 ^ 64 ->
  exists calls,
    readCamera tokens GetConversionFactorTo mm context = Some calls
    /\ ((exists prop, PropertyCreated UsdGeomTokens.fStop prop ∈ calls)
        <-> UseDepthOfField camera = true)
    /\ (forall prop, PropertyCreated UsdGeomTokens.fStop prop ∈ calls ->
                     value prop = VtFloat zero
                     /\ typeName prop = SdfValueTypeNames.Float).
Proof.
  intros Hattr Hcamera Hrange Hbound.
  unfold readCamera. rewrite Hattr, Hcamera.
  rewrite bool_decide_eq_true_2 by reflexivity. cbn [negb mbind option_bind].
  unfold CreateProperty_named.
  rewrite !CreateProperty_without_curve.
  destruct (getPropertyAnimation_defined (FocusDistance camera)
              (GetAnimLayer context) (GetAnimTimeSpan context) Hrange Hbound)
    as [samples Hsamples].
  { intros layer curveNode frame _ _ Hcurves.
    apply double_samples_convert; [reflexivity | exact Hcurves]. }
  unfold CreateProperty. rewrite Hsamples.
  cbn [mbind option_bind fmap option_fmap option_map].
  destruct (UseDepthOfField camera) eqn:Hdof;
    cbn [mbind option_bind fmap option_fmap option_map app];
    eexists; (split; [reflexivity |]); split.
  - split; [reflexivity |]. intros _. eexists.
    do 6 (apply elem_of_cons; right). apply elem_of_cons. left. reflexivity.
  - intros prop Hin.
    repeat (apply elem_of_cons in Hin as [Hin | Hin];
            [try discriminate Hin |]).
    + injection Hin as ->. split; reflexivity.
    + apply elem_of_nil in Hin as [].
  - split; [| discriminate]. intros [prop Hin].
    repeat (apply elem_of_cons in Hin as [Hin | Hin];
            [try discriminate Hin |]).
    apply elem_of_nil in Hin as [].
  - intros prop Hin.
    repeat (apply elem_of_cons in Hin as [Hin | Hin];
            [try discriminate Hin |]).
    apply elem_of_nil in Hin as [].
Qed.

(** C10 on a camera with depth of field, frames 0 to 10. *)
Lemma C10_fStop_iff_depth_of_field_witness :
  exists calls,
    readCamera examples.usdFbxTokens examples.conversionFactor
               examples.unit_mm (examples.cameraContext true) = Some calls
    /\ exists prop, PropertyCreated UsdGeomTokens.fStop prop ∈ calls
                    /\ value prop = VtFloat zero.
Proof.
  destruct (C10_fStop_iff_depth_of_field examples.usdFbxTokens
              examples.conversionFactor examples.unit_mm
              (examples.cameraContext true) (examples.camera true)
              eq_refl eq_refl ltac:(simpl; lia) ltac:(simpl; lia))
    as (calls & Hcalls & Hiff & Hvalue).
  exists calls. split; [exact Hcalls |].
  destruct (proj2 Hiff eq_refl) as [prop Hprop].
  exists prop. split; [exact Hprop | exact (proj1 (Hvalue prop Hprop))].
Defined.

Lemma skeletonScales_replicate (skeletonHierarchy : list FbxNode) :
  skeletonScales skeletonHierarchy
  = replicate (length skeletonHierarchy) unitScale.
Proof.
  unfold skeletonScales.
  rewrite (foldl_push_back (fun _ => unitScale)), app_nil_l.
  symmetry. apply const_fmap_replicate.
Qed.

(** The frame loop in closed form: the sample time starts at the range's
    start and advances by one frame per iteration. *)
Lemma sampleScales_loop (v : VtValue) (frameList : list Z) :
  forall (fbxSampleTime : Z) (scales : TimeSamples),
    foldl (fun '(fbxSampleTime, scales) (frame : Z) =>
             let t := fbxSampleTime in
             (fbxSampleTime + 1, scales ++ [(t, v)]))
          (fbxSampleTime, scales) frameList
    = (fbxSampleTime + Z.of_nat (length frameList),
       scales ++ ((fun t => (t, v))
                    <$> seqZ fbxSampleTime (Z.of_nat (length frameList)))).
Proof.
  induction frameList as [| frame rest IH]; intros t scales.
  - simpl. rewrite Z.add_0_r, app_nil_r. reflexivity.
  - cbn [foldl]. rewrite IH.
    rewrite (seqZ_cons t (Z.of_nat (length (frame :: rest)))) by (simpl; lia).
    rewrite fmap_cons, <- app_assoc. simpl length.
    replace (Z.pred (Z.of_nat (S (length rest))))
      with (Z.of_nat (length rest)) by lia.
    f_equal. lia.
Qed.

Lemma sampleScales_spec (skeletonHierarchy : list FbxNode)
    (animTimeSpan : FbxTimeSpan) :
  GetStart animTimeSpan <= GetStop animTimeSpan ->
  GetStop animTimeSpan - GetStart animTimeSpan < 2 ^ 64 ->
  sampleScales skeletonHierarchy animTimeSpan
  = (fun t => (t, VtVec3hArray
                    (replicate (length skeletonHierarchy) unitScale)))
      <$> frames animTimeSpan.
Proof.
  intros Hrange Hbound. unfold sampleScales.
  rewrite skeletonScales_replicate.
  rewrite (wrap_unsigned_id 64 (GetDuration animTimeSpan))
    by (unfold GetDuration; rewrite Z.abs_eq by lia; lia).
  rewrite sampleScales_loop. cbn [snd]. rewrite app_nil_l.
  rewrite length_seqZ, Z2Nat.id by (unfold GetDuration; lia).
  unfold GetDuration, frames. rewrite Z.abs_eq by lia. reflexivity.
Qed.

Lemma array_eqb_replicate (n : nat) :
  array_eqb GfVec3h_eqb (replicate n unitScale) (replicate n unitScale)
  = true.
Proof. induction n as [| n IH]; [reflexivity |]. simpl. exact IH. Qed.

(** C8: over an inclusive frame range the skeleton-animation reader takes
    one scales sample per frame; when every sample equals the first, the
    scales property keeps the first sample as its default and gets no time
    samples, otherwise it gets the whole list.  The reader always samples
    (1, 1, 1) for every joint, so its scales property never has time
    samples. *)
Theorem C8_constant_scales_collapse (tokens : UsdFbxTokens)
    (context : FbxNodeReaderContext) (skelAnimPrimPath : SdfPath)
    (skeletonHierarchy : list FbxNode) :
  GetStart (GetAnimTimeSpan context) <= GetStop (GetAnimTimeSpan context) ->
  GetStop (GetAnimTimeSpan context) - GetStart (GetAnimTimeSpan context)
  < 2 ^ 64 ->
  timeSamples (AddProperty context (AppendProperty skelAnimPrimPath "scales"))
  = [] ->
  let scales := sampleScales skeletonHierarchy (GetAnimTimeSpan context) in
  (scales.*1 = frames (GetAnimTimeSpan context)
   /\ length scales
      = Z.to_nat (GetStop (GetAnimTimeSpan context)
                  - GetStart (GetAnimTimeSpan context) + 1))
  /\ (forall first rest,
        exists prop,
          authorScales tokens context skelAnimPrimPath (first :: rest)
          = Some prop
          /\ value prop = first.2
          /\ (forallb (fun tup => VtValue_eqb tup.2 first.2) rest = true ->
              timeSamples prop = [])
          /\ (forallb (fun tup => VtValue_eqb tup.2 first.2) rest = false ->
              timeSamples prop = first :: rest))
  /\ (GetAnimLayer context <> None ->
      exists prop,
        readSkeletonAnimation_scales tokens context skelAnimPrimPath
          skeletonHierarchy = Some prop
        /\ value prop
           = VtVec3hArray (replicate (length skeletonHierarchy) unitScale)
        /\ timeSamples prop = []).
Proof.
  intros Hrange Hbound Hfresh scales.
  assert (scales
          = (fun t => (t, VtVec3hArray
                            (replicate (length skeletonHierarchy) unitScale)))
              <$> frames (GetAnimTimeSpan context)) as Hscales.
  { apply sampleScales_spec; assumption. }
  assert (forall first rest,
            exists prop,
              authorScales tokens context skelAnimPrimPath (first :: rest)
              = Some prop
              /\ value prop = first.2
              /\ (forallb (fun tup => VtValue_eqb tup.2 first.2) rest = true ->
                  timeSamples prop = [])
              /\ (forallb (fun tup => VtValue_eqb tup.2 first.2) rest = false
                  -> timeSamples prop = first :: rest)) as Hauthor.
  { intros first rest. unfold authorScales, hasUniqueScales.
    cbn [mbind option_bind lookup list_lookup].
    rewrite CreateProperty_without_curve. cbn [mbind option_bind].
    destruct (forallb (fun tup => VtValue_eqb tup.2 first.2) rest);
      cbn [negb]; eexists; (split; [reflexivity |]); cbn;
      (split; [reflexivity |]); split; try discriminate;
      intros _; [exact Hfresh | reflexivity]. }
  split; [| split; [exact Hauthor |]].
  - rewrite Hscales. split.
    + apply fst_fmap_pair.
    + rewrite length_fmap. apply frames_length.
  - intros Hlayer. unfold readSkeletonAnimation_scales.
    destruct (GetAnimLayer context) as [layer |]; [| contradiction].
    fold scales. rewrite Hscales.
    destruct (frames (GetAnimTimeSpan context)) as [| frame rest] eqn:Hfr.
    { apply (f_equal length) in Hfr. rewrite frames_length in Hfr.
      simpl in Hfr. lia. }
    rewrite fmap_cons.
    destruct (Hauthor
                (frame, VtVec3hArray
                          (replicate (length skeletonHierarchy) unitScale))
                ((fun t => (t, VtVec3hArray
                                 (replicate (length skeletonHierarchy)
                                            unitScale))) <$> rest))
      as (prop & Hprop & Hvalue & Hsame & _).
    exists prop. split; [exact Hprop |]. split; [exact Hvalue |].
    apply Hsame. cbn [snd].
    clear. induction rest as [| t rest IH]; [reflexivity |].
    rewrite fmap_cons. cbn [forallb snd VtValue_eqb].
    rewrite array_eqb_replicate. exact IH.
Qed.

(** C8 on the joints A -> B -> C, frames 0 to 10: eleven samples, and a
    scales property with the unit scales as default and no time samples. *)
Lemma C8_constant_scales_collapse_witness :
  length (sampleScales (collectSkeletonHierarchy examples.jointA).1
                       examples.span_0_10) = 11%nat
  /\ exists prop,
       readSkeletonAnimation_scales examples.usdFbxTokens
         examples.skeletonContext (Path true ["ROOT"; "Rig"; "AnimationA"])
         (collectSkeletonHierarchy examples.jointA).1 = Some prop
       /\ value prop = VtVec3hArray (replicate 3 unitScale)
       /\ timeSamples prop = [].
Proof.
  destruct (C8_constant_scales_collapse examples.usdFbxTokens
              examples.skeletonContext
              (Path true ["ROOT"; "Rig"; "AnimationA"])
              (collectSkeletonHierarchy examples.jointA).1
              ltac:(simpl; lia) ltac:(simpl; lia) eq_refl)
    as ((_ & Hlen) & _ & Hreader).
  split; [exact Hlen |].
  apply Hreader. discriminate.
Defined.

End reader_properties.

(** ** Skin binding data *)

Section binding_data.
Import Fp scene helpers converters spec.

Lemma elementSizeInv_push perVertex elementSize (v : nat)
    (l : list (Z * double)) (x : Z * double) :
  perVertex !! v = Some l ->
  elementSizeInv perVertex elementSize ->
  elementSizeInv (<[v := l ++ [x]]> perVertex)
                 (length (l ++ [x]) `max` elementSize).
Proof.
  intros Hv [Hbound Hattained].
  assert (v < length perVertex)%nat as Hlt by (eapply lookup_lt_Some, Hv).
  rewrite length_app. simpl. split.
  - intros v' l' Hl'.
    destruct (decide (v' = v)) as [-> | Hne].
    + rewrite list_lookup_insert_eq in Hl' by exact Hlt.
      injection Hl' as <-. rewrite length_app. simpl. lia.
    + rewrite list_lookup_insert_ne in Hl' by congruence.
      apply Hbound in Hl'. lia.
  - right.
    pose proof (Hbound v l Hv) as Hl.
    destruct (decide (elementSize <= length l)%nat) as [Hle | Hgt].
    + exists v, (l ++ [x]). split.
      * apply list_lookup_insert_eq. exact Hlt.
      * rewrite length_app. simpl. lia.
    + destruct Hattained as [-> | (v' & l' & Hl' & Hlen)]; [lia |].
      exists v', l'. split; [| lia].
      rewrite list_lookup_insert_ne; [exact Hl' |].
      intros ->. rewrite Hv in Hl'. injection Hl' as <-. lia.
Qed.

Lemma addInfluence_in_range influenceIndex perVertex elementSize
    (idx : Z) (w : double) (l : list (Z * double)) :
  0 <= idx -> perVertex !! Z.to_nat idx = Some l ->
  addInfluence influenceIndex (perVertex, elementSize) (idx, w)
  = Some (<[Z.to_nat idx := l ++ [(influenceIndex, w)]]> perVertex,
          (length (l ++ [(influenceIndex, w)]) `max` elementSize)%nat).
Proof.
  intros Hidx Hl. unfold addInfluence. cbn [fst snd].
  destruct (decide (0 <= idx)); [| contradiction].
  rewrite Hl. reflexivity.
Qed.

(** The control-point loop of one cluster. *)
Lemma addInfluence_loop (influenceIndex : Z) (cps : list (Z * double)) :
  forall perVertex elementSize,
    Forall (fun cp : Z * double =>
              0 <= cp.1 < Z.of_nat (length perVertex)) cps ->
    exists perVertex' elementSize',
      loopM (addInfluence influenceIndex) cps (perVertex, elementSize)
      = Some (perVertex', elementSize')
      /\ length perVertex' = length perVertex
      /\ (forall v,
            perVertex' !! v
            = (fun l => l ++ ((fun cp : Z * double => (influenceIndex, cp.2))
                                <$> filter (fun cp : Z * double =>
                                              cp.1 = Z.of_nat v) cps))
                <$> perVertex !! v)
      /\ (elementSizeInv perVertex elementSize ->
          elementSizeInv perVertex' elementSize').
Proof.
  induction cps as [| [idx w] rest IH]; intros pv es Hrange.
  - exists pv, es. split; [reflexivity |]. split; [reflexivity |].
    split; [| exact (fun H => H)].
    intros v. simpl. destruct (pv !! v); simpl; [| reflexivity].
    rewrite app_nil_r. reflexivity.
  - inversion Hrange as [| ? ? Hidx Hrest]; subst. simpl in Hidx.
    destruct (lookup_lt_is_Some_2 pv (Z.to_nat idx)) as [l Hl]; [lia |].
    set (pv1 := <[Z.to_nat idx := l ++ [(influenceIndex, w)]]> pv).
    destruct (IH pv1 (length (l ++ [(influenceIndex, w)]) `max` es)%nat)
      as (pv' & es' & Hloop & Hlen & Hlookup & Hinv).
    { subst pv1. rewrite length_insert. exact Hrest. }
    exists pv', es'. split.
    { cbn [loopM].
      rewrite (addInfluence_in_range _ _ _ _ _ l) by (lia || exact Hl).
      cbn [mbind option_bind]. exact Hloop. }
    split; [subst pv1; rewrite Hlen, length_insert; reflexivity |].
    split.
    + intros v. rewrite Hlookup. subst pv1.
      destruct (decide (v = Z.to_nat idx)) as [-> | Hne].
      * rewrite list_lookup_insert_eq by (eapply lookup_lt_Some, Hl).
        rewrite Hl. simpl. f_equal.
        rewrite filter_cons_True by (simpl; lia).
        rewrite fmap_cons, <- app_assoc. reflexivity.
      * rewrite list_lookup_insert_ne by congruence.
        rewrite filter_cons_False by (simpl; lia). reflexivity.
    + intros H. apply Hinv. subst pv1. apply elementSizeInv_push; assumption.
Qed.

Lemma addCluster_unlinked rootBoneName state cluster :
  GetLink cluster = None -> addCluster rootBoneName state cluster = Some state.
Proof.
  intros H. unfold addCluster. destruct state as [[ju pv] es]. rewrite H.
  reflexivity.
Qed.

Lemma addCluster_linked rootBoneName jointsUsed perVertex elementSize
    cluster link :
  GetLink cluster = Some link ->
  addCluster rootBoneName (jointsUsed, perVertex, elementSize) cluster
  = ('(perVertex', elementSize') ←
       loopM (addInfluence (wrap_signed 32 (Z.of_nat (length jointsUsed))))
             (ControlPointIndicesAndWeights cluster)
             (perVertex, elementSize);
     skeleton ← asSkeleton link;
     skeletonPath ← skeletonToTokenPath skeleton rootBoneName;
     Some (jointsUsed ++ [skeletonPath], perVertex', elementSize')).
Proof. intros H. unfold addCluster. rewrite H. reflexivity. Qed.

(** The cluster loop. *)
Lemma addCluster_loop (rootBoneName : TfToken) (clusters : list FbxCluster) :
  forall jointsUsed perVertex elementSize,
    Forall (wellBound rootBoneName (length perVertex)) clusters ->
    exists jointsUsed' perVertex' elementSize',
      loopM (addCluster rootBoneName) clusters
            (jointsUsed, perVertex, elementSize)
      = Some (jointsUsed', perVertex', elementSize')
      /\ length perVertex' = length perVertex
      /\ (forall v,
            perVertex' !! v
            = (fun l => l ++ recordedInfluences clusters (length jointsUsed) v)
                <$> perVertex !! v)
      /\ (elementSizeInv perVertex elementSize ->
          elementSizeInv perVertex' elementSize').
Proof.
  induction clusters as [| cluster rest IH]; intros ju pv es Hwell.
  - exists ju, pv, es. split; [reflexivity |]. split; [reflexivity |].
    split; [| exact (fun H => H)].
    intros v. simpl. destruct (pv !! v); simpl; [| reflexivity].
    rewrite app_nil_r. reflexivity.
  - inversion Hwell as [| ? ? Hcluster Hrest]; subst.
    cbn [loopM recordedInfluences].
    destruct (GetLink cluster) as [link |] eqn:Hlink.
    + rewrite (addCluster_linked _ _ _ _ _ link Hlink).
      destruct (Hcluster link Hlink) as [[token Htoken] Hrange].
      destruct (addInfluence_loop
                  (wrap_signed 32 (Z.of_nat (length ju)))
                  (ControlPointIndicesAndWeights cluster) pv es Hrange)
        as (pv1 & es1 & Hloop & Hlen1 & Hlookup1 & Hinv1).
      rewrite Hloop. cbn [mbind option_bind].
      destruct (asSkeleton link) as [skeleton |]; [| discriminate Htoken].
      cbn [mbind option_bind] in Htoken |- *. rewrite Htoken.
      cbn [mbind option_bind].
      destruct (IH (ju ++ [token]) pv1 es1)
        as (ju' & pv' & es' & Hloop' & Hlen' & Hlookup' & Hinv').
      { rewrite Hlen1. exact Hrest. }
      exists ju', pv', es'. split; [exact Hloop' |].
      split; [rewrite Hlen', Hlen1; reflexivity |].
      split; [| exact (fun H => Hinv' (Hinv1 H))].
      intros v. rewrite Hlookup', Hlookup1.
      rewrite length_app, Nat.add_1_r.
      destruct (pv !! v); simpl; [| reflexivity].
      rewrite <- app_assoc. reflexivity.
    + rewrite (addCluster_unlinked _ _ _ Hlink).
      cbn [mbind option_bind]. apply IH. exact Hrest.
Qed.

Lemma max_list_attained (ns : list nat) (m : nat) :
  (forall n, n ∈ ns -> (n <= m)%nat) ->
  (m = 0%nat \/ m ∈ ns) ->
  max_list ns = m.
Proof.
  intros Hbound Hattained.
  apply Nat.le_antisymm.
  - clear Hattained. induction ns as [| n ns IH]; simpl; [lia |].
    apply Nat.max_lub.
    + apply Hbound. apply elem_of_cons. left. reflexivity.
    + apply IH. intros n' Hn'. apply Hbound. apply elem_of_cons. right.
      exact Hn'.
  - destruct Hattained as [-> | Hin]; [lia |].
    apply max_list_elem_of_le, Hin.
Qed.

(** Blocks of equal length laid end to end. *)
Lemma length_flat_map_uniform {A B} (f : A -> list B) (k : nat) (l : list A) :
  (forall x, length (f x) = k) ->
  length (flat_map f l) = (length l * k)%nat.
Proof.
  intros Hk. induction l as [| x l IH]; [reflexivity |].
  simpl. rewrite length_app, Hk, IH. reflexivity.
Qed.

Lemma lookup_flat_map_uniform {A B} (f : A -> list B) (k : nat) (l : list A) :
  (forall x, length (f x) = k) ->
  forall (v i : nat) (x : A),
    l !! v = Some x -> (i < k)%nat ->
    flat_map f l !! (v * k + i)%nat = f x !! i.
Proof.
  intros Hk. induction l as [| y l IH]; intros v i x Hv Hi.
  - discriminate.
  - simpl. destruct v as [| v].
    + injection Hv as ->. simpl.
      rewrite lookup_app_l by (rewrite Hk; exact Hi). reflexivity.
    + simpl in Hv.
      rewrite lookup_app_r by (rewrite Hk; lia).
      rewrite Hk.
      replace (S v * k + i - k)%nat with (v * k + i)%nat by lia.
      apply IH; assumption.
Qed.

Lemma flattenVertex_length elementSize l :
  length (flattenVertex elementSize l) = elementSize.
Proof. unfold flattenVertex. rewrite length_fmap. apply length_seq. Qed.

(** A slot of a vertex holds the vertex's influence at that position, or
    the missing value past its last one. *)
Lemma flattenVertex_lookup elementSize (l : list (Z * double)) (i : nat) :
  (length l <= elementSize)%nat -> (i < elementSize)%nat ->
  flattenVertex elementSize l !! i
  = Some (match l !! i with
          | Some iw => (iw.1, double_to_float iw.2)
          | None => (0, zero)
          end).
Proof.
  intros Hlen Hi. unfold flattenVertex.
  rewrite list_lookup_fmap, lookup_seq_lt by exact Hi. simpl.
  replace (elementSize - (elementSize - length l))%nat with (length l) by lia.
  destruct (decide (i < length l)%nat) as [Hlt | Hge].
  - destruct (lookup_lt_is_Some_2 l i Hlt) as [[j w] Hjw]. rewrite Hjw.
    reflexivity.
  - rewrite (lookup_ge_None_2 l i) by lia. reflexivity.
Qed.

(** The reference utilities keep the length of the arrays. *)
Lemma blockwise_length {A} (f : list A -> list A) (k : nat) :
  (0 < k)%nat -> (forall b, length (f b) = length b) ->
  forall (fuel : nat) (l : list A),
    (length l <= fuel)%nat -> length (UsdSkel.blockwise f k fuel l) = length l.
Proof.
  intros Hk Hf. induction fuel as [| fuel IH]; intros l Hfuel.
  - destruct l; [reflexivity | simpl in Hfuel; lia].
  - destruct l as [| x l]; [reflexivity |].
    cbn [UsdSkel.blockwise]. rewrite length_app, Hf, IH.
    + rewrite <- length_app, take_drop. reflexivity.
    + rewrite length_drop. simpl in *. lia.
Qed.

Lemma NormalizeWeights_length weights k :
  length (UsdSkel.NormalizeWeights weights k) = length weights.
Proof.
  unfold UsdSkel.NormalizeWeights. case_decide; [| reflexivity].
  apply blockwise_length; [lia | | lia].
  intros b. unfold UsdSkel.normalizeBlock.
  destruct (SFltb _ _); apply length_fmap.
Qed.

Lemma insertInfluence_length x l :
  length (UsdSkel.insertInfluence x l) = S (length l).
Proof.
  induction l as [| y l IH]; [reflexivity |]. simpl.
  destruct (SFltb _ _); simpl; [rewrite IH |]; reflexivity.
Qed.

Lemma SortInfluences_length indices weights k :
  length indices = length weights ->
  length (UsdSkel.SortInfluences indices weights k).1 = length indices
  /\ length (UsdSkel.SortInfluences indices weights k).2 = length weights.
Proof.
  intros Hlen. unfold UsdSkel.SortInfluences.
  case_decide; [| split; reflexivity].
  assert (length (UsdSkel.blockwise UsdSkel.sortBlock (Z.to_nat k)
                    (length indices) (zip indices weights))
          = length indices) as Hsorted.
  { rewrite blockwise_length.
    - rewrite length_zip_with. lia.
    - lia.
    - intros b. unfold UsdSkel.sortBlock.
      induction b as [| x b IH]; [reflexivity |].
      simpl. rewrite insertInfluence_length, IH. reflexivity.
    - rewrite length_zip_with. lia. }
  simpl. rewrite !length_fmap, Hsorted. split; [reflexivity | exact Hlen].
Qed.

Lemma recorded_le_max skin (n v : nat) :
  (v < n)%nat ->
  (length (recordedInfluences skin 0 v) <= maxInfluences skin n)%nat.
Proof.
  intros Hv. unfold maxInfluences. apply max_list_elem_of_le.
  apply list_elem_of_fmap. exists v. split; [reflexivity |].
  apply elem_of_seq. lia.
Qed.

(** What the cluster loop leaves behind for a well-bound skin. *)
Lemma addCluster_loop_result (rootBoneName : TfToken) (skin : FbxSkin)
    (n : nat) :
  Forall (wellBound rootBoneName n) skin ->
  exists jointsUsed,
    loopM (addCluster rootBoneName) skin ([], replicate n [], 0%nat)
    = Some (jointsUsed,
            (fun v => recordedInfluences skin 0 v) <$> seq 0 n,
            maxInfluences skin n).
Proof.
  intros Hwell.
  destruct (addCluster_loop rootBoneName skin [] (replicate n []) 0%nat)
    as (ju & pv & es & Hloop & Hlen & Hlookup & Hinv).
  { rewrite length_replicate. exact Hwell. }
  rewrite length_replicate in Hlen.
  assert (pv = (fun v => recordedInfluences skin 0 v) <$> seq 0 n) as Hpv.
  { apply list_eq. intros v. rewrite Hlookup, list_lookup_fmap. simpl.
    destruct (decide (v < n)%nat) as [Hlt | Hge].
    - rewrite lookup_replicate_2, lookup_seq_lt by exact Hlt. reflexivity.
    - rewrite (proj1 (lookup_replicate_None n [] v)) by lia.
      rewrite lookup_seq_ge by lia. reflexivity. }
  assert (elementSizeInv pv es) as [Hbound Hattained].
  { apply Hinv. split.
    - intros v l Hl. apply lookup_replicate_1 in Hl as [-> _]. simpl. lia.
    - left. reflexivity. }
  assert (maxInfluences skin n = es) as Hes.
  { unfold maxInfluences. apply max_list_attained.
    - intros m Hm. apply list_elem_of_fmap in Hm as (v & -> & Hv).
      apply elem_of_seq in Hv. apply (Hbound v).
      rewrite Hpv, list_lookup_fmap, lookup_seq_lt by lia. reflexivity.
    - destruct Hattained as [-> | (v & l & Hl & Hlenl)];
        [left; reflexivity | right].
      apply list_elem_of_fmap. exists v.
      assert (v < n)%nat as Hv.
      { apply lookup_lt_Some in Hl. lia. }
      rewrite Hpv, list_lookup_fmap, lookup_seq_lt in Hl by exact Hv.
      injection Hl as <-. split; [symmetry; exact Hlenl |].
      apply elem_of_seq. lia. }
  exists ju. rewrite Hloop, Hpv, Hes. reflexivity.
Qed.

(** C7: for a skin with at least one cluster the arrays returned by
    [getBindingData] have length n x influencesPerVertex each, where
    influencesPerVertex is the largest number of influences recorded for a
    control point; as flattened (before the UsdSkel utilities normalise and
    sort them in place) slot [i] of vertex [v], at position
    [v * influencesPerVertex + i], holds the vertex's [i]-th influence, or
    joint index 0 and weight 0 past the vertex's last influence. *)
Theorem C7_binding_arrays_are_rectangular
    (UsdSkelNormalizeWeights : list float -> Z -> list float)
    (UsdSkelSortInfluences : list Z -> list float -> Z -> list Z * list float)
    (skin : FbxSkin) (mesh : FbxMesh)
    (cluster0 : FbxCluster) (rest : list FbxCluster)
    (link0 rootBone : FbxNode) :
  skin = cluster0 :: rest ->
  GetLink cluster0 = Some link0 ->
  findRootBone link0 = Some rootBone ->
  Forall (wellBound (GetName rootBone) (GetControlPointsCount mesh)) skin ->
  (forall w k, length (UsdSkelNormalizeWeights w k) = length w) ->
  (forall i w k,
     length i = length w ->
     length (UsdSkelSortInfluences i w k).1 = length i
     /\ length (UsdSkelSortInfluences i w k).2 = length w) ->
  Z.of_nat (maxInfluences skin (GetControlPointsCount mesh)) < 2 ^ 31 ->
  let n := GetControlPointsCount mesh in
  let k := maxInfluences skin n in
  let recorded := fun v => recordedInfluences skin 0 v in
  let flat := flattenInfluences k (recorded <$> seq 0 n) in
  exists bd,
    getBindingData UsdSkelNormalizeWeights UsdSkelSortInfluences skin mesh
    = Some bd
    /\ influencesPerVertex bd = Z.of_nat k
    /\ length (perVertexInfluences bd) = (n * k)%nat
    /\ length (perVertexWeights bd) = (n * k)%nat
    /\ (perVertexInfluences bd, perVertexWeights bd)
       = UsdSkelSortInfluences flat.1
           (UsdSkelNormalizeWeights flat.2 (Z.of_nat k)) (Z.of_nat k)
    /\ length flat.1 = (n * k)%nat
    /\ length flat.2 = (n * k)%nat
    /\ forall v i : nat,
         (v < n)%nat -> (i < k)%nat ->
         flat.1 !! (v * k + i)%nat
         = Some (match recorded v !! i with
                 | Some iw => iw.1
                 | None => 0
                 end)
         /\ flat.2 !! (v * k + i)%nat
            = Some (match recorded v !! i with
                    | Some iw => double_to_float iw.2
                    | None => zero
                    end).
Proof.
  intros Hskin Hlink0 Hroot Hwell Hnorm Hsort Hint n k recorded flat.
  assert (length flat.1 = (n * k)%nat /\ length flat.2 = (n * k)%nat)
    as [Hlen1 Hlen2].
  { subst flat. unfold flattenInfluences. cbn [fst snd].
    rewrite !length_fmap.
    rewrite (length_flat_map_uniform _ k) by apply flattenVertex_length.
    rewrite length_fmap, length_seq. split; reflexivity. }
  destruct (addCluster_loop_result (GetName rootBone) skin n Hwell)
    as [jointsUsed Hloop].
  fold k in Hloop. fold recorded in Hloop.
  assert (wrap_signed 32 (Z.of_nat k) = Z.of_nat k) as Hwrap.
  { apply wrap_signed_id; [lia |]. change (2 ^ (32 - 1)) with (2 ^ 31).
    fold n k in Hint. lia. }
  destruct (UsdSkelSortInfluences flat.1
              (UsdSkelNormalizeWeights flat.2 (Z.of_nat k)) (Z.of_nat k))
    as [indices weights] eqn:Hsorted.
  exists {| names := jointsUsed; perVertexInfluences := indices;
            perVertexWeights := weights;
            influencesPerVertex := Z.of_nat k;
            pathToSkeleton := skeletonPathOf rootBone |}.
  split.
  { unfold getBindingData. rewrite Hskin. rewrite <- Hskin.
    rewrite Hlink0. cbn [mbind option_bind]. rewrite Hroot.
    cbn [mbind option_bind]. fold n. rewrite Hloop.
    cbn [mbind option_bind]. rewrite Hwrap.
    change (flattenInfluences k (recorded <$> seq 0 n)) with flat.
    rewrite (surjective_pairing flat). cbn [fst snd].
    rewrite Hsorted. reflexivity. }
  cbn [influencesPerVertex perVertexInfluences perVertexWeights].
  split; [reflexivity |].
  destruct (Hsort flat.1 (UsdSkelNormalizeWeights flat.2 (Z.of_nat k))
              (Z.of_nat k)) as [Hs1 Hs2].
  { rewrite Hnorm, Hlen1, Hlen2. reflexivity. }
  rewrite Hsorted in Hs1, Hs2. cbn [fst snd] in Hs1, Hs2.
  split; [rewrite Hs1; exact Hlen1 |].
  split; [rewrite Hs2, Hnorm; exact Hlen2 |].
  split; [reflexivity |].
  split; [exact Hlen1 |]. split; [exact Hlen2 |].
  intros v i Hv Hi.
  assert (flat_map (flattenVertex k) (recorded <$> seq 0 n) !! (v * k + i)%nat
          = Some (match recorded v !! i with
                  | Some iw => (iw.1, double_to_float iw.2)
                  | None => (0, zero)
                  end)) as Hslot.
  { rewrite (lookup_flat_map_uniform _ k _ (flattenVertex_length k)
               v i (recorded v)).
    - apply flattenVertex_lookup; [| exact Hi].
      apply recorded_le_max. exact Hv.
    - rewrite list_lookup_fmap, lookup_seq_lt by exact Hv. reflexivity.
    - exact Hi. }
  subst flat. unfold flattenInfluences. cbn [fst snd].
  rewrite !list_lookup_fmap, Hslot. cbn [fmap option_fmap option_map].
  destruct (recorded v !! i); split; reflexivity.
Qed.

(** C7 on four control points and the clusters J and K: two influences per
    vertex, eight entries per array. *)
Lemma C7_binding_arrays_are_rectangular_witness :
  exists bd,
    getBindingData UsdSkel.NormalizeWeights UsdSkel.SortInfluences
      [examples.clusterJ; examples.clusterK] examples.quadMesh = Some bd
    /\ influencesPerVertex bd = 2
    /\ length (perVertexInfluences bd) = 8%nat
    /\ length (perVertexWeights bd) = 8%nat.
Proof.
  destruct (C7_binding_arrays_are_rectangular
              UsdSkel.NormalizeWeights UsdSkel.SortInfluences
              [examples.clusterJ; examples.clusterK] examples.quadMesh
              examples.clusterJ [examples.clusterK]
              examples.jointA examples.jointA eq_refl eq_refl eq_refl)
    as (bd & Hbd & Hk & Hlen1 & Hlen2 & _).
  - apply List.Forall_cons;
      [| apply List.Forall_cons; [| apply List.Forall_nil]].
    + intros link Hlink. injection Hlink as <-.
      split; [eexists; reflexivity |].
      apply List.Forall_cons;
        [vm_compute; split; [discriminate | reflexivity] |].
      apply List.Forall_cons;
        [vm_compute; split; [discriminate | reflexivity] |].
      apply List.Forall_nil.
    + intros link Hlink. injection Hlink as <-.
      split; [eexists; reflexivity |].
      apply List.Forall_cons;
        [vm_compute; split; [discriminate | reflexivity] |].
      apply List.Forall_cons;
        [vm_compute; split; [discriminate | reflexivity] |].
      apply List.Forall_nil.
  - exact NormalizeWeights_length.
  - exact SortInfluences_length.
  - vm_compute. reflexivity.
  - exists bd. split; [exact Hbd |]. split; [exact Hk |].
    split; [exact Hlen1 | exact Hlen2].
Defined.

Lemma loopM_skip {S A} (body : S -> A -> option S) (l1 l2 : list A) (a : A)
    (s : S) :
  (forall s', body s' a = Some s') ->
  loopM body (l1 ++ a :: l2) s = loopM body (l1 ++ l2) s.
Proof.
  intros Hskip. rewrite !loopM_app.
  destruct (loopM body l1 s) as [s' |]; [| reflexivity].
  cbn [mbind option_bind loopM]. rewrite Hskip. reflexivity.
Qed.

(** C3 as stated fails: for a skin without clusters the skeleton path is
    the empty path, not a root path; and a cluster without a link is left
    out of the influence count: with cluster J and an unlinked cluster both
    weighting control point 0, influencesPerVertex is 1, not 2. *)
Lemma C3_empty_path_and_unlinked_cluster_not_counted :
  pathToSkeleton
    <$> getBindingData UsdSkel.NormalizeWeights UsdSkel.SortInfluences
          [] examples.quadMesh = Some EmptyPath
  /\ EmptyPath <> ROOT
  /\ EmptyPath <> AbsoluteRootPath
  /\ influencesPerVertex
       <$> getBindingData UsdSkel.NormalizeWeights UsdSkel.SortInfluences
             [examples.clusterJ; examples.unlinkedCluster] examples.quadMesh
     = Some 1
  /\ influencesPerVertex
       <$> getBindingData UsdSkel.NormalizeWeights UsdSkel.SortInfluences
             [examples.clusterJ; examples.unlinkedCluster] examples.quadMesh
     <> Some 2.
Proof.
  split; [reflexivity |]. split; [discriminate |]. split; [discriminate |].
  split; [vm_compute; reflexivity | vm_compute; discriminate].
Qed.

(** C3, amended: a skin without clusters yields empty joint-name,
    joint-index and joint-weight arrays, influencesPerVertex 0 and the empty
    path as skeleton path; a cluster without a link that is not the first
    cluster is skipped altogether: the result is that of the skin without
    it. *)
Theorem C3_no_clusters_and_unlinked_clusters
    (UsdSkelNormalizeWeights : list float -> Z -> list float)
    (UsdSkelSortInfluences : list Z -> list float -> Z -> list Z * list float)
    (mesh : FbxMesh) :
  getBindingData UsdSkelNormalizeWeights UsdSkelSortInfluences [] mesh
  = Some {| names := []; perVertexInfluences := [];
            perVertexWeights := []; influencesPerVertex := 0;
            pathToSkeleton := EmptyPath |}
  /\ forall (pre post : list FbxCluster) (cluster : FbxCluster),
       pre <> [] -> GetLink cluster = None ->
       getBindingData UsdSkelNormalizeWeights UsdSkelSortInfluences
         (pre ++ cluster :: post) mesh
       = getBindingData UsdSkelNormalizeWeights UsdSkelSortInfluences
           (pre ++ post) mesh.
Proof.
  split; [reflexivity |].
  intros pre post cluster Hpre Hlink.
  destruct pre as [| cluster0 pre]; [contradiction |].
  unfold getBindingData. rewrite <- !app_comm_cons.
  destruct (GetLink cluster0) as [link0 |]; [| reflexivity].
  cbn [mbind option_bind].
  destruct (findRootBone link0) as [rootBone |]; [| reflexivity].
  cbn [mbind option_bind].
  rewrite !app_comm_cons.
  rewrite (loopM_skip (addCluster (GetName rootBone))
             (cluster0 :: pre) post cluster).
  - reflexivity.
  - intros s'. apply addCluster_unlinked, Hlink.
Qed.

(** The amended claim on the clusters J, an unlinked cluster, and K. *)
Lemma C3_no_clusters_and_unlinked_clusters_witness :
  getBindingData UsdSkel.NormalizeWeights UsdSkel.SortInfluences
    [examples.clusterJ; examples.unlinkedCluster; examples.clusterK]
    examples.quadMesh
  = getBindingData UsdSkel.NormalizeWeights UsdSkel.SortInfluences
      [examples.clusterJ; examples.clusterK] examples.quadMesh.
Proof.
  apply (proj2 (C3_no_clusters_and_unlinked_clusters
                  UsdSkel.NormalizeWeights UsdSkel.SortInfluences
                  examples.quadMesh)
           [examples.clusterJ] [examples.clusterK] examples.unlinkedCluster).
  - discriminate.
  - reflexivity.
Defined.

End binding_data.

(** * Further properties of the readers *)

(** ** More on the value mapper *)

Section value_mapper.
Import Fp scene helpers spec.

Lemma transform2_elem {A B C} (f : A -> B -> option C) (first1 : list A) :
  forall (first2 : list B) (result : list C),
    transform2 f first1 first2 = Some result ->
    forall c, c ∈ result -> exists a b, f a b = Some c.
Proof.
  induction first1 as [| a r1 IH]; intros first2 result Hres c Hc.
  - injection Hres as <-. apply elem_of_nil in Hc. contradiction.
  - destruct first2 as [| b r2]; [discriminate |].
    cbn [transform2] in Hres.
    destruct (f a b) as [c0 |] eqn:Hf; [| discriminate].
    cbn [mbind option_bind] in Hres.
    destruct (transform2 f r1 r2) as [rest |] eqn:Hrest; [| discriminate].
    injection Hres as <-.
    apply elem_of_cons in Hc as [-> | Hc].
    + exists a, b. exact Hf.
    + exact (IH r2 rest Hrest c Hc).
Qed.

Lemma getPropertyAnimation_types (fbxProperty : FbxProperty)
    (animLayer : option FbxAnimLayer) (animTimeSpan : FbxTimeSpan)
    (samples : TimeSamples) :
  DataType fbxProperty <> eFbxTime ->
  DataType fbxProperty <> eFbxDistance ->
  getPropertyAnimation fbxProperty animLayer animTimeSpan = Some samples ->
  Forall (fun sample => GetType sample.2 = GetType (getValue fbxProperty))
         samples.
Proof.
  intros Htime Hdistance Hsamples.
  apply Forall_forall. intros sample Hin.
  apply list_elem_of_In in Hin.
  unfold getPropertyAnimation in Hsamples.
  destruct animLayer as [layer |];
    [| injection Hsamples as <-; apply elem_of_nil in Hin; contradiction].
  destruct (negb (IsValid fbxProperty));
    [injection Hsamples as <-; apply elem_of_nil in Hin; contradiction |].
  destruct (GetCurveNode fbxProperty layer) as [curveNode |];
    [| injection Hsamples as <-; apply elem_of_nil in Hin; contradiction].
  destruct (negb (hasAnimCurves curveNode));
    [injection Hsamples as <-; apply elem_of_nil in Hin; contradiction |].
  cbv zeta in Hsamples.
  destruct (evaluateChannels _ _ _ _ _) as [[timeCodes channelValues] |];
    [| discriminate].
  cbn [mbind option_bind] in Hsamples.
  destruct (transform2_elem _ _ _ _ Hsamples sample Hin)
    as (channelValue & timeCode & Hval).
  destruct (getValue_anim fbxProperty channelValue) as [val |] eqn:Hanim;
    [| discriminate].
  injection Hval as <-. cbn [snd].
  exact (getValue_types_agree _ _ _ Htime Hdistance Hanim).
Qed.

(** X1.  Whatever the curves, the layer and the frame range are: every
    time sample [getPropertyAnimation] returns for a property whose tag is
    neither [eFbxTime] nor [eFbxDistance] holds a value of the same C++
    type as the default value [getValue()] returns for that property. *)
Theorem time_samples_hold_the_default_type (fbxProperty : FbxProperty)
    (animLayer : option FbxAnimLayer) (animTimeSpan : FbxTimeSpan)
    (samples : TimeSamples) :
  DataType fbxProperty <> eFbxTime ->
  DataType fbxProperty <> eFbxDistance ->
  getPropertyAnimation fbxProperty animLayer animTimeSpan = Some samples ->
  Forall (fun sample => GetType sample.2 = GetType (getValue fbxProperty))
         samples.
Proof.
  exact (getPropertyAnimation_types fbxProperty animLayer animTimeSpan
           samples).
Qed.

(** X1 at a double property driven by one curve over frames 0 to 10. *)
Lemma time_samples_hold_the_default_type_witness :
  exists samples,
    getPropertyAnimation examples.animatedDouble (Some 0%nat)
                         examples.span_0_10 = Some samples
    /\ length samples = 11%nat
    /\ Forall (fun sample => GetType sample.2 = h_double) samples.
Proof.
  eexists. split; [vm_compute; reflexivity |]. split; [reflexivity |].
  apply (time_samples_hold_the_default_type examples.animatedDouble
           (Some 0%nat) examples.span_0_10);
    [discriminate | discriminate | vm_compute; reflexivity].
Defined.

Lemma mapM_ext_in {A B} (f g : A -> option B) (l : list A) :
  (forall x, x ∈ l -> f x = g x) -> mapM f l = mapM g l.
Proof.
  induction l as [| x l IH]; intros H; [reflexivity |].
  cbn [mapM]. rewrite (H x) by (apply elem_of_cons; left; reflexivity).
  rewrite IH; [reflexivity |].
  intros y Hy. apply H. apply elem_of_cons. right. exact Hy.
Qed.

Lemma mapM_lookup_is_Some {A} (l : list A) (n : nat) :
  is_Some (mapM (fun i => l !! i) (seq 0 n)) <-> (n <= length l)%nat.
Proof.
  rewrite mapM_is_Some. rewrite Forall_forall. split.
  - intros H. destruct n as [| n]; [lia |].
    assert (is_Some (l !! n)) as Hn.
    { apply H. apply list_elem_of_In, elem_of_seq. lia. }
    apply lookup_lt_is_Some in Hn. lia.
  - intros H i Hi. apply list_elem_of_In, elem_of_seq in Hi.
    apply lookup_lt_is_Some. lia.
Qed.

(** X2.  [getValue( animChannels )] reads exactly the first
    [requiredChannels] entries of the channel vector: a result needs at
    least that many channels, further channels are ignored, and for the
    tags that involve no float-to-integer cast that many channels are
    also enough. *)
Theorem sampled_value_reads_the_required_channels
    (fbxProperty : FbxProperty) (animChannels : list float) :
  let n := requiredChannels (DataType fbxProperty) in
  (is_Some (getValue_anim fbxProperty animChannels) ->
   (n <= length animChannels)%nat)
  /\ getValue_anim fbxProperty animChannels
     = getValue_anim fbxProperty (take n animChannels)
  /\ (castsToInteger (DataType fbxProperty) = false ->
      (n <= length animChannels)%nat ->
      is_Some (getValue_anim fbxProperty animChannels)).
Proof.
  cbv zeta. unfold getValue_anim.
  assert (forall (i n : nat), (i < n)%nat ->
            take n animChannels !! i = animChannels !! i) as Htake
    by (intros i n Hi; apply lookup_take_lt; exact Hi).
  assert (forall i : nat, is_Some (animChannels !! i) ->
                          (S i <= length animChannels)%nat) as Hlt
    by (intros i Hi; apply lookup_lt_is_Some in Hi; lia).
  assert (forall i : nat, (S i <= length animChannels)%nat ->
                          exists c, animChannels !! i = Some c) as Hge
    by (intros i Hi; apply lookup_lt_is_Some; lia).
  split; [| split].
  - destruct (DataType fbxProperty); cbn [requiredChannels];
      try (intros _; lia); intros Hsome.
    all: try (apply (Hlt 0%nat);
              destruct (animChannels !! 0%nat); [eexists; reflexivity |];
              destruct Hsome as [? Hsome]; discriminate Hsome).
    + apply (Hlt 1%nat).
      destruct (animChannels !! 0%nat);
        [| destruct Hsome as [? Hsome]; discriminate Hsome].
      destruct (animChannels !! 1%nat); [eexists; reflexivity |].
      destruct Hsome as [? Hsome]; discriminate Hsome.
    + apply (Hlt 2%nat).
      destruct (animChannels !! 0%nat);
        [| destruct Hsome as [? Hsome]; discriminate Hsome].
      destruct (animChannels !! 1%nat);
        [| destruct Hsome as [? Hsome]; discriminate Hsome].
      destruct (animChannels !! 2%nat); [eexists; reflexivity |].
      destruct Hsome as [? Hsome]; discriminate Hsome.
    + apply (Hlt 3%nat).
      destruct (animChannels !! 0%nat);
        [| destruct Hsome as [? Hsome]; discriminate Hsome].
      destruct (animChannels !! 1%nat);
        [| destruct Hsome as [? Hsome]; discriminate Hsome].
      destruct (animChannels !! 2%nat);
        [| destruct Hsome as [? Hsome]; discriminate Hsome].
      destruct (animChannels !! 3%nat); [eexists; reflexivity |].
      destruct Hsome as [? Hsome]; discriminate Hsome.
    + apply (mapM_lookup_is_Some animChannels 16).
      destruct (mapM _ (seq 0 16)); [eexists; reflexivity |].
      destruct Hsome as [? Hsome]; discriminate Hsome.
  - destruct (DataType fbxProperty); cbn [requiredChannels];
      try reflexivity;
      rewrite ?(Htake 0%nat), ?(Htake 1%nat), ?(Htake 2%nat),
        ?(Htake 3%nat) by lia; try reflexivity.
    rewrite (mapM_ext_in (fun i => take 16 animChannels !! i)
               (fun i => animChannels !! i) (seq 0 16)); [reflexivity |].
    intros i Hi. apply elem_of_seq in Hi. apply Htake. lia.
  - intros Hcast Hn.
    destruct (DataType fbxProperty); cbn [requiredChannels] in Hn;
      try discriminate Hcast; try (eexists; reflexivity).
    all: try (destruct (Hge 0%nat ltac:(lia)) as [c0 ->];
              try (destruct (Hge 1%nat ltac:(lia)) as [c1 ->]);
              try (destruct (Hge 2%nat ltac:(lia)) as [c2 ->]);
              try (destruct (Hge 3%nat ltac:(lia)) as [c3 ->]);
              eexists; reflexivity).
    apply (mapM_lookup_is_Some animChannels 16) in Hn.
    destruct Hn as [m ->]. eexists. reflexivity.
Qed.

(** X2 at a 4x4 matrix property: sixteen channels convert, a seventeenth
    is ignored, fifteen do not suffice. *)
Lemma sampled_value_reads_the_required_channels_witness :
  is_Some (getValue_anim (examples.userProperty eFbxDouble4x4 DNone)
             (replicate 17 zero))
  /\ getValue_anim (examples.userProperty eFbxDouble4x4 DNone)
       (replicate 17 zero)
     = getValue_anim (examples.userProperty eFbxDouble4x4 DNone)
         (replicate 16 zero)
  /\ getValue_anim (examples.userProperty eFbxDouble4x4 DNone)
       (replicate 15 zero) = None.
Proof.
  destruct (sampled_value_reads_the_required_channels
              (examples.userProperty eFbxDouble4x4 DNone)
              (replicate 17 zero)) as (_ & Htake & Henough).
  split; [apply Henough; [reflexivity | simpl; lia] |].
  split; [exact Htake | reflexivity].
Defined.

(** X3.  A property whose tag the switches do not name ([eFbxUndefined],
    [eFbxEnum], [eFbxEnumM], [eFbxReference], [eFbxDateTime]) is declared
    as a token, its default is the token UNKNOWN TYPE and each of its
    samples is the token UNKNOWN VALUE, whatever the channel vector holds;
    a property of any other tag has the default UNKNOWN TYPE only if it is
    a blob or string property that stores this very text. *)
Theorem unmapped_types_give_sentinel_tokens (fbxProperty : FbxProperty)
    (animChannels : list float) :
  (unmappedType (DataType fbxProperty) = true ->
   getSdfTypeName fbxProperty = SdfValueTypeNames.Token
   /\ getValue fbxProperty = VtToken "UNKNOWN TYPE"
   /\ getValue_anim fbxProperty animChannels
      = Some (VtToken "UNKNOWN VALUE"))
  /\ (getValue fbxProperty = VtToken "UNKNOWN TYPE" ->
      unmappedType (DataType fbxProperty) = true
      \/ Get_FbxBlob fbxProperty = "UNKNOWN TYPE"
      \/ Get_FbxString fbxProperty = "UNKNOWN TYPE").
Proof.
  unfold getSdfTypeName, getValue, getValue_anim. split.
  - intros Hunmapped.
    destruct (DataType fbxProperty); try discriminate Hunmapped;
      repeat split; reflexivity.
  - intros Hvalue.
    destruct (DataType fbxProperty); try discriminate Hvalue;
      try (left; reflexivity).
    + right. right. congruence.
    + right. left. congruence.
Qed.

(** X3 at an enum property. *)
Lemma unmapped_types_give_sentinel_tokens_witness :
  getSdfTypeName (examples.userProperty eFbxEnum (DInteger 2))
  = SdfValueTypeNames.Token
  /\ getValue (examples.userProperty eFbxEnum (DInteger 2))
     = VtToken "UNKNOWN TYPE"
  /\ getValue_anim (examples.userProperty eFbxEnum (DInteger 2)) []
     = Some (VtToken "UNKNOWN VALUE").
Proof.
  apply (unmapped_types_give_sentinel_tokens
           (examples.userProperty eFbxEnum (DInteger 2)) []).
  reflexivity.
Defined.

End value_mapper.
(** ** Order of the time samples *)

Section sample_order.
Import Fp scene helpers converters readers spec.

Lemma set_insert_Forall (P : Z -> Prop) (t : Z) (s : list Z) :
  P t -> Forall P s -> Forall P (set_insert t s).
Proof.
  intros Ht. induction 1 as [| x s Hx Hs IH]; simpl.
  - constructor; [exact Ht | constructor].
  - destruct (t <? x); [constructor; [exact Ht | constructor; assumption] |].
    destruct (t =? x); constructor; assumption.
Qed.

Lemma set_insert_ascending (t : Z) (s : list Z) :
  ascending s -> ascending (set_insert t s).
Proof.
  induction s as [| x s IH]; simpl.
  - intros _. split; [constructor | exact I].
  - intros [Hx Hs].
    destruct (t <? x) eqn:Hlt.
    + apply Z.ltb_lt in Hlt. simpl. split; [| split; assumption].
      constructor; [exact Hlt |].
      eapply List.Forall_impl; [| exact Hx]. simpl. intros y Hy. lia.
    + destruct (t =? x) eqn:Heq; [simpl; split; assumption |].
      apply Z.ltb_ge in Hlt. apply Z.eqb_neq in Heq.
      simpl. split; [| apply IH; exact Hs].
      apply set_insert_Forall; [lia | exact Hx].
Qed.

Lemma evaluateCurve_ascending animCurve channelId frameList :
  forall index timeCodes channelValues timeCodes' channelValues',
    evaluateCurve animCurve channelId frameList index timeCodes channelValues
    = Some (timeCodes', channelValues') ->
    ascending timeCodes -> ascending timeCodes'.
Proof.
  induction frameList as [| frame rest IH];
    intros index tc cv tc' cv' Heval Htc.
  - injection Heval as <- _. exact Htc.
  - cbn [evaluateCurve] in Heval.
    destruct (cv !! index) as [row |]; [| discriminate].
    cbn [mbind option_bind] in Heval.
    destruct (decide (channelId < length row)%nat); [| discriminate].
    apply IH in Heval; [exact Heval |].
    apply set_insert_ascending. exact Htc.
Qed.

Lemma evaluateChannels_ascending curveNode animTimeSpan channelIds :
  forall timeCodes channelValues timeCodes' channelValues',
    evaluateChannels curveNode animTimeSpan channelIds timeCodes channelValues
    = Some (timeCodes', channelValues') ->
    ascending timeCodes -> ascending timeCodes'.
Proof.
  induction channelIds as [| channelId rest IH];
    intros tc cv tc' cv' Heval Htc.
  - injection Heval as <- _. exact Htc.
  - cbn [evaluateChannels] in Heval.
    destruct (GetCurve curveNode channelId) as [animCurve |];
      [| exact (IH _ _ _ _ Heval Htc)].
    destruct (evaluateCurve _ _ _ _ _ _) as [[tc1 cv1] |] eqn:Hcurve;
      [| discriminate].
    cbn [mbind option_bind] in Heval.
    apply (IH _ _ _ _ Heval).
    exact (evaluateCurve_ascending _ _ _ _ _ _ _ _ Hcurve Htc).
Qed.

Lemma transform2_times {A} (g : A -> option VtValue) (rows : list A) :
  forall (timeCodes : list UsdTimeCode) (samples : TimeSamples),
    transform2 (fun row timeCode => val ← g row; Some (timeCode, val))
               rows timeCodes = Some samples ->
    samples.*1 = take (length rows) timeCodes.
Proof.
  induction rows as [| row rows IH]; intros timeCodes samples Hsamples.
  - injection Hsamples as <-. reflexivity.
  - destruct timeCodes as [| t timeCodes]; [discriminate |].
    cbn [transform2] in Hsamples.
    destruct (g row) as [val |]; [| discriminate].
    cbn [mbind option_bind] in Hsamples.
    destruct (transform2 _ rows timeCodes) as [rest |] eqn:Hrest;
      [| discriminate].
    injection Hsamples as <-. cbn [length take fmap list_fmap fst].
    f_equal. exact (IH _ _ Hrest).
Qed.

Lemma ascending_take (n : nat) (l : list Z) :
  ascending l -> ascending (take n l).
Proof.
  revert n. induction l as [| x l IH]; intros [| n]; simpl; try tauto.
  intros [Hx Hl]. split; [| apply IH; exact Hl].
  apply Forall_take. exact Hx.
Qed.

Lemma getPropertyAnimation_ascending fbxProperty animLayer animTimeSpan
    samples :
  getPropertyAnimation fbxProperty animLayer animTimeSpan = Some samples ->
  ascending samples.*1.
Proof.
  unfold getPropertyAnimation. intros Hsamples.
  destruct animLayer as [layer |]; [| injection Hsamples as <-; exact I].
  destruct (negb (IsValid fbxProperty));
    [injection Hsamples as <-; exact I |].
  destruct (GetCurveNode fbxProperty layer) as [curveNode |];
    [| injection Hsamples as <-; exact I].
  destruct (negb (hasAnimCurves curveNode));
    [injection Hsamples as <-; exact I |].
  cbv zeta in Hsamples.
  destruct (evaluateChannels _ _ _ _ _) as [[timeCodes channelValues] |]
    eqn:Heval; [| discriminate].
  cbn [mbind option_bind] in Hsamples.
  rewrite (transform2_times _ _ _ _ Hsamples).
  apply ascending_take.
  exact (evaluateChannels_ascending _ _ _ _ _ _ _ Heval I).
Qed.

Lemma ascending_lookup (l : list Z) :
  ascending l ->
  forall (i j : nat) ti tj,
    (i < j)%nat -> l !! i = Some ti -> l !! j = Some tj -> ti < tj.
Proof.
  induction l as [| x l IH]; intros Hl i j ti tj Hij Hi Hj;
    [destruct i; discriminate Hi |].
  destruct Hl as [Hx Hl]. destruct j as [| j]; [lia |].
  cbn [lookup list_lookup] in Hj.
  destruct i as [| i].
  - injection Hi as <-. rewrite Forall_forall in Hx.
    apply Hx. apply list_elem_of_In. eapply list_elem_of_lookup_2, Hj.
  - cbn [lookup list_lookup] in Hi. apply (IH Hl i j); [lia | assumption ..].
Qed.

(** X25.  Whatever the property, its curves, the layer and the frame range
    are: the time samples [getPropertyAnimation] returns are in strictly
    ascending time order, so no time code occurs twice. *)
Theorem time_samples_are_strictly_ordered (fbxProperty : FbxProperty)
    (animLayer : option FbxAnimLayer) (animTimeSpan : FbxTimeSpan)
    (samples : TimeSamples) :
  getPropertyAnimation fbxProperty animLayer animTimeSpan = Some samples ->
  ascending samples.*1
  /\ forall (i j : nat) ti tj,
       (i < j)%nat -> samples.*1 !! i = Some ti ->
       samples.*1 !! j = Some tj -> ti < tj.
Proof.
  intros Hsamples.
  pose proof (getPropertyAnimation_ascending _ _ _ _ Hsamples) as Hasc.
  split; [exact Hasc | exact (ascending_lookup _ Hasc)].
Qed.

(** X25 at the animated double property over frames 0 to 10. *)
Lemma time_samples_are_strictly_ordered_witness :
  exists samples,
    getPropertyAnimation examples.animatedDouble (Some 0%nat)
                         examples.span_0_10 = Some samples
    /\ ascending samples.*1.
Proof.
  eexists. split; [vm_compute; reflexivity |].
  apply (time_samples_are_strictly_ordered examples.animatedDouble
           (Some 0%nat) examples.span_0_10).
  vm_compute. reflexivity.
Defined.

End sample_order.
(** ** More on the attribute resolver *)

Section resolver.
Import Fp scene helpers converters spec.

Lemma mapM_lookup_Some {A B} (f : A -> option B) (l : list A) (k : list B) :
  mapM f l = Some k ->
  forall i : nat, k !! i = l !! i ≫= f.
Proof.
  revert k. induction l as [| x l IH]; intros k Hk i.
  - injection Hk as <-. reflexivity.
  - cbn [mapM] in Hk.
    destruct (f x) as [y |] eqn:Hy; [| discriminate].
    cbn [mbind option_bind] in Hk.
    destruct (mapM f l) as [k' |]; [| discriminate].
    injection Hk as <-.
    destruct i as [| i]; [simpl; rewrite Hy; reflexivity |].
    simpl. apply IH. reflexivity.
Qed.

Lemma GetAt_lookup {T} (a : list T) (i : nat) :
  GetAt a (Z.of_nat i) = a !! i.
Proof.
  unfold GetAt. destruct (decide (0 <= Z.of_nat i)); [| lia].
  rewrite Nat2Z.id. reflexivity.
Qed.

Lemma GetAt_negative {T} (a : list T) (i : Z) : i < 0 -> GetAt a i = None.
Proof. intros H. unfold GetAt. destruct (decide (0 <= i)); [lia | done]. Qed.

Lemma indexed_equals_direct_at {T}
    (element : FbxLayerElementTemplate T) (values : list T) :
  GetReferenceMode element <> eDirect ->
  expandIndexed element = Some values ->
  forall i : nat,
    (i < length (GetIndexArray element))%nat ->
    exists value,
      values !! i = Some value
      /\ getAtVertexIndex element (Z.of_nat i) = Some value
      /\ getAtVertexIndex (asDirect element values) (Z.of_nat i)
         = Some value.
Proof.
  intros Hmode Hvalues i Hi.
  pose proof (mapM_lookup_Some _ _ _ Hvalues i) as Hlookup.
  assert (length (GetIndexArray element) = length values) as Hlength
    by (eapply length_mapM, Hvalues).
  destruct (lookup_lt_is_Some_2 values i ltac:(lia)) as [value Hvalue].
  exists value. split; [exact Hvalue |].
  assert ((id ← GetAt (GetIndexArray element) (Z.of_nat i);
           GetAt (GetDirectArray element) id) = Some value) as Hindexed.
  { rewrite GetAt_lookup, <- Hvalue, Hlookup.
    destruct (GetIndexArray element !! i); reflexivity. }
  unfold getAtVertexIndex. cbn [asDirect GetReferenceMode GetDirectArray].
  rewrite (GetAt_lookup values), Hvalue.
  destruct (GetReferenceMode element);
    [congruence | split; [exact Hindexed | reflexivity] ..].
Qed.

(** X4.  At every position of its index array, an element addressed
    through the index array resolves to a value, and to the same value as
    the element that stores the indexed values directly, when every index
    lies inside the direct array. *)
Theorem indexed_addressing_equals_direct {T}
    (element : FbxLayerElementTemplate T) (values : list T) :
  GetReferenceMode element <> eDirect ->
  expandIndexed element = Some values ->
  forall i : nat,
    (i < length (GetIndexArray element))%nat ->
    exists value,
      getAtVertexIndex element (Z.of_nat i) = Some value
      /\ getAtVertexIndex (asDirect element values) (Z.of_nat i)
         = Some value.
Proof.
  intros Hmode Hvalues i Hi.
  destruct (indexed_equals_direct_at element values Hmode Hvalues i Hi)
    as (value & _ & Hindexed & Hdirect).
  exists value. split; assumption.
Qed.

(** X4 at the tangents addressed through the indices 1, 0, 1, position 2. *)
Lemma indexed_addressing_equals_direct_witness :
  exists value,
    getAtVertexIndex examples.indexedTangents 2 = Some value
    /\ getAtVertexIndex
         (asDirect examples.indexedTangents
            [(examples.d 0, examples.d 1, examples.d 0, examples.d 0);
             (examples.d 1, examples.d 0, examples.d 0, examples.d 0);
             (examples.d 0, examples.d 1, examples.d 0, examples.d 0)]) 2
       = Some value.
Proof.
  apply (indexed_addressing_equals_direct examples.indexedTangents
           [(examples.d 0, examples.d 1, examples.d 0, examples.d 0);
            (examples.d 1, examples.d 0, examples.d 0, examples.d 0);
            (examples.d 0, examples.d 1, examples.d 0, examples.d 0)]
           ltac:(discriminate) eq_refl 2%nat).
  simpl. lia.
Defined.

Lemma findTangents_app pre post acc :
  findTangents (pre ++ post) acc = findTangents post (findTangents pre acc).
Proof.
  revert acc. induction pre as [| layer pre IH]; intros acc; [reflexivity |].
  simpl. destruct (GetTangents layer) as [element |]; [| apply IH].
  destruct (byPolygonVertexNotIndex element); apply IH.
Qed.

Lemma findTangents_cases post acc :
  findTangents post acc
  = match findTangents post None with
    | Some element => Some element
    | None => acc
    end.
Proof.
  revert acc. induction post as [| layer post IH]; intros acc; [reflexivity |].
  simpl. destruct (GetTangents layer) as [element |]; [| apply IH].
  destruct (byPolygonVertexNotIndex element); [| apply IH].
  rewrite (IH (Some element)).
  destruct (findTangents post None); reflexivity.
Qed.

End resolver.
(** ** Mesh topology and the arrays that go with it *)

Section topology.
Import Fp scene helpers converters spec.

Lemma polygonVertices_from_0 mesh :
  polygonVertices mesh = polygonVerticesFrom 0 (Polygons mesh).
Proof. reflexivity. Qed.

Lemma polygonVerticesFrom_cons first polygon polygons :
  polygonVerticesFrom first (polygon :: polygons)
  = ((fun polygonVertex => (first, polygonVertex))
       <$> seq 0 (length polygon))
    ++ polygonVerticesFrom (S first) polygons.
Proof.
  unfold polygonVerticesFrom. rewrite imap_cons. cbn [flat_map].
  rewrite Nat.add_0_r. f_equal. f_equal.
  apply imap_ext. intros i x _. simpl. f_equal. lia.
Qed.

Lemma polygonVerticesFrom_length first polygons :
  length (polygonVerticesFrom first polygons) = length (concat polygons).
Proof.
  revert first. induction polygons as [| p ps IH]; intros first;
    [reflexivity |].
  rewrite polygonVerticesFrom_cons. cbn [concat].
  rewrite !length_app, length_fmap, length_seq, IH. reflexivity.
Qed.

Lemma concat_lookup_middle (polygons : list (list Z)) (k j : nat)
    (polygon : list Z) :
  polygons !! k = Some polygon -> (j < length polygon)%nat ->
  concat polygons !! (length (concat (take k polygons)) + j)%nat
  = polygon !! j.
Proof.
  intros Hk Hj.
  assert (concat polygons
          = concat (take k polygons)
            ++ polygon ++ concat (drop (S k) polygons)) as ->.
  { rewrite <- (take_drop_middle polygons k polygon Hk) at 1.
    rewrite concat_app. reflexivity. }
  rewrite lookup_app_r by lia.
  replace (length (concat (take k polygons)) + j
           - length (concat (take k polygons)))%nat with j by lia.
  apply lookup_app_l. exact Hj.
Qed.

Lemma meshFaceVertexIndices_step_at mesh (k j : nat) (polygon : list Z)
    (v : Z) (acc : list Z) :
  Polygons mesh !! k = Some polygon -> polygon !! j = Some v ->
  meshFaceVertexIndices_step mesh (GetPolygonVertices mesh) acc (k, j)
  = Some (acc ++ [v]).
Proof.
  intros Hk Hv. unfold meshFaceVertexIndices_step. cbn [fst snd].
  unfold GetPolygonVertexIndex, GetPolygonCount.
  destruct (decide (k < length (Polygons mesh))%nat) as [_ | Hout];
    [| exfalso; apply Hout; eapply lookup_lt_Some, Hk].
  rewrite <- Nat2Z.inj_add, GetAt_lookup.
  unfold GetPolygonVertices.
  rewrite (concat_lookup_middle _ _ _ _ Hk) by (eapply lookup_lt_Some, Hv).
  rewrite Hv. reflexivity.
Qed.

Lemma meshFaceVertexIndices_polygon mesh (k : nat) (polygon : list Z) :
  Polygons mesh !! k = Some polygon ->
  forall (n a : nat) (acc : list Z),
    (a + n <= length polygon)%nat ->
    loopM (meshFaceVertexIndices_step mesh (GetPolygonVertices mesh))
          ((fun polygonVertex => (k, polygonVertex)) <$> seq a n) acc
    = Some (acc ++ take n (drop a polygon)).
Proof.
  intros Hk. induction n as [| n IH]; intros a acc Hn.
  - simpl. rewrite app_nil_r. reflexivity.
  - destruct (lookup_lt_is_Some_2 polygon a ltac:(lia)) as [v Hv].
    cbn [seq]. rewrite fmap_cons. cbn [loopM].
    rewrite (meshFaceVertexIndices_step_at mesh k a polygon v acc Hk Hv).
    cbn [mbind option_bind].
    rewrite IH by lia. f_equal. rewrite <- app_assoc. f_equal.
    rewrite (drop_S polygon v a Hv). reflexivity.
Qed.

Lemma meshFaceVertexIndices_loop mesh (polygons : list (list Z)) :
  forall (first : nat) (acc : list Z),
    drop first (Polygons mesh) = polygons ->
    loopM (meshFaceVertexIndices_step mesh (GetPolygonVertices mesh))
          (polygonVerticesFrom first polygons) acc
    = Some (acc ++ concat polygons).
Proof.
  induction polygons as [| p ps IH]; intros first acc Hdrop.
  - simpl. rewrite app_nil_r. reflexivity.
  - assert (Polygons mesh !! first = Some p) as Hp.
    { rewrite <- (Nat.add_0_r first), <- lookup_drop, Hdrop. reflexivity. }
    rewrite polygonVerticesFrom_cons, loopM_app.
    rewrite (meshFaceVertexIndices_polygon mesh first p Hp) by lia.
    cbn [mbind option_bind]. rewrite IH.
    + rewrite drop_0, firstn_all, <- app_assoc. reflexivity.
    + replace (S first) with (first + 1)%nat by lia.
      rewrite <- drop_drop, Hdrop. reflexivity.
Qed.

Lemma meshFaceVertexCounts_sizes mesh :
  meshFaceVertexCounts mesh
  = (fun polygon : list Z => Z.of_nat (length polygon)) <$> Polygons mesh.
Proof.
  unfold meshFaceVertexCounts. rewrite foldl_push_back. cbn [app].
  apply list_eq. intros i. rewrite !list_lookup_fmap.
  unfold GetPolygonCount, GetPolygonSize.
  destruct (Polygons mesh !! i) as [p |] eqn:Hp.
  - rewrite lookup_seq_lt by (eapply lookup_lt_Some, Hp).
    simpl. rewrite Hp. reflexivity.
  - rewrite lookup_seq_ge by (apply lookup_ge_None; exact Hp). reflexivity.
Qed.

Lemma sum_of_sizes (polygons : list (list Z)) :
  foldr Z.add 0 ((fun polygon : list Z => Z.of_nat (length polygon))
                   <$> polygons)
  = Z.of_nat (length (concat polygons)).
Proof.
  induction polygons as [| p ps IH]; [reflexivity |].
  cbn [fmap list_fmap foldr concat]. rewrite length_app, Nat2Z.inj_add.
  f_equal. exact IH.
Qed.

(** X6.  For every mesh, [meshFaceVertexIndices] stays inside the
    polygon-vertex array and returns the control-point indices of the
    polygons one polygon after the other, [meshFaceVertexCounts] returns
    the polygons' sizes in the same order, and the counts add up to the
    number of indices. *)
Theorem face_vertex_counts_partition_the_indices (mesh : FbxMesh) :
  meshFaceVertexIndices mesh = Some (concat (Polygons mesh))
  /\ meshFaceVertexCounts mesh
     = (fun polygon : list Z => Z.of_nat (length polygon)) <$> Polygons mesh
  /\ forall faceVertexIndices,
       meshFaceVertexIndices mesh = Some faceVertexIndices ->
       foldr Z.add 0 (meshFaceVertexCounts mesh)
       = Z.of_nat (length faceVertexIndices).
Proof.
  assert (meshFaceVertexIndices mesh = Some (concat (Polygons mesh))) as H.
  { unfold meshFaceVertexIndices. cbv zeta. rewrite polygonVertices_from_0.
    rewrite (meshFaceVertexIndices_loop mesh (Polygons mesh) 0 []);
      reflexivity. }
  split; [exact H |]. split; [apply meshFaceVertexCounts_sizes |].
  intros indices Hindices. rewrite H in Hindices. injection Hindices as <-.
  rewrite meshFaceVertexCounts_sizes. apply sum_of_sizes.
Qed.

(** X6 at a quadrilateral followed by a triangle. *)
Lemma face_vertex_counts_partition_the_indices_witness :
  let mesh := {| Layers := []; Polygons := [[0; 1; 2; 3]; [2; 1; 4]];
                 ControlPoints := [];
                 GetPolygonVertexNormal := fun _ _ => None |} in
  meshFaceVertexIndices mesh = Some [0; 1; 2; 3; 2; 1; 4]
  /\ foldr Z.add 0 (meshFaceVertexCounts mesh) = 7.
Proof.
  cbv zeta.
  destruct (face_vertex_counts_partition_the_indices
              {| Layers := []; Polygons := [[0; 1; 2; 3]; [2; 1; 4]];
                 ControlPoints := [];
                 GetPolygonVertexNormal := fun _ _ => None |})
    as (Hindices & _ & Hsum).
  split; [exact Hindices |]. exact (Hsum _ Hindices).
Defined.

End topology.
(** ** Face-varying and per-vertex arrays *)

Section mesh_arrays.
Import Fp scene helpers converters spec.

(** Loops that read position [currentIndex] and push one converted value. *)
Lemma reading_loop_length {B C} (step : Z * list C -> nat * nat
                                        -> option (Z * list C))
    (get : Z -> option B) (conv : B -> C) :
  (forall i acc pv,
     step (i, acc) pv = (v ← get i; Some (i + 1, acc ++ [conv v]))) ->
  forall items s s',
    loopM step items s = Some s' ->
    length s'.2 = (length s.2 + length items)%nat.
Proof.
  intros Hstep. induction items as [| pv items IH]; intros [i acc] s' Hloop.
  - injection Hloop as <-. simpl. lia.
  - cbn [loopM] in Hloop. rewrite Hstep in Hloop.
    destruct (get i) as [v |]; [| discriminate].
    cbn [mbind option_bind] in Hloop.
    rewrite (IH _ _ Hloop). cbn [snd length]. rewrite length_app. simpl. lia.
Qed.

Lemma reading_loop_values {B C} (step : Z * list C -> nat * nat
                                        -> option (Z * list C))
    (get : Z -> option B) (conv : B -> C) (values : list B) :
  (forall i acc pv,
     step (i, acc) pv = (v ← get i; Some (i + 1, acc ++ [conv v]))) ->
  (forall i : nat, (i < length values)%nat ->
                   get (Z.of_nat i) = values !! i) ->
  forall items (k : nat) acc,
    (k + length items <= length values)%nat ->
    loopM step items (Z.of_nat k, acc)
    = Some (Z.of_nat (k + length items),
            acc ++ (conv <$> take (length items) (drop k values))).
Proof.
  intros Hstep Hget. induction items as [| pv items IH]; intros k acc Hk.
  - simpl. rewrite Nat.add_0_r, app_nil_r. reflexivity.
  - cbn [loopM length] in Hk |- *. rewrite Hstep, Hget by lia.
    destruct (lookup_lt_is_Some_2 values k ltac:(lia)) as [v Hv].
    rewrite Hv. cbn [mbind option_bind].
    replace (Z.of_nat k + 1) with (Z.of_nat (S k)) by lia.
    rewrite IH by lia. f_equal. f_equal; [lia |].
    rewrite <- app_assoc. f_equal.
    rewrite (drop_S values v k Hv). reflexivity.
Qed.

Lemma resolvedValues_lookup {T} (element : FbxLayerElementTemplate T)
    (values : list T) :
  resolvedValues element = Some values ->
  forall i : nat,
    (i < length values)%nat ->
    getAtVertexIndex element (Z.of_nat i) = values !! i.
Proof.
  intros Hvalues i Hi. unfold resolvedValues in Hvalues.
  destruct (GetReferenceMode element) eqn:Hmode.
  - injection Hvalues as <-. unfold getAtVertexIndex. rewrite Hmode.
    apply GetAt_lookup.
  - destruct (indexed_equals_direct_at element values
                ltac:(congruence) Hvalues i) as (value & -> & -> & _);
      [| reflexivity].
    erewrite length_mapM by exact Hvalues. exact Hi.
  - destruct (indexed_equals_direct_at element values
                ltac:(congruence) Hvalues i) as (value & -> & -> & _);
      [| reflexivity].
    erewrite length_mapM by exact Hvalues. exact Hi.
Qed.

Lemma findNormals_cases post acc :
  findNormals post acc
  = match findNormals post None with
    | Some element => Some element
    | None => acc
    end.
Proof.
  revert acc. induction post as [| layer post IH]; intros acc; [reflexivity |].
  simpl. destruct (GetNormals layer) as [element |]; [| apply IH].
  destruct (byPolygonVertexNotIndex element); [| apply IH].
  rewrite (IH (Some element)).
  destruct (findNormals post None); reflexivity.
Qed.

Lemma findTangents_accepted layers :
  is_Some (findTangents layers None) <-> existsb acceptsTangents layers = true.
Proof.
  induction layers as [| layer layers IH].
  - simpl. split; [intros [? H]; discriminate H | discriminate].
  - cbn [findTangents existsb]. unfold acceptsTangents at 1.
    destruct (GetTangents layer) as [element |]; [| exact IH].
    destruct (byPolygonVertexNotIndex element); [| exact IH].
    rewrite findTangents_cases. simpl.
    destruct (findTangents layers None); split; intros _;
      (reflexivity || (eexists; reflexivity)).
Qed.

Lemma findNormals_accepted layers :
  is_Some (findNormals layers None) <-> existsb acceptsNormals layers = true.
Proof.
  induction layers as [| layer layers IH].
  - simpl. split; [intros [? H]; discriminate H | discriminate].
  - cbn [findNormals existsb]. unfold acceptsNormals at 1.
    destruct (GetNormals layer) as [element |]; [| exact IH].
    destruct (byPolygonVertexNotIndex element); [| exact IH].
    rewrite findNormals_cases. simpl.
    destruct (findNormals layers None); split; intros _;
      (reflexivity || (eexists; reflexivity)).
Qed.

Lemma meshNormals_fallback_length mesh items :
  forall s s',
    loopM (meshNormals_step mesh None) items s = Some s' ->
    (length s'.2 <= length s.2 + length items)%nat.
Proof.
  induction items as [| pv items IH]; intros [i acc] s' Hloop.
  - injection Hloop as <-. simpl. lia.
  - cbn [loopM] in Hloop.
    assert (meshNormals_step mesh None (i, acc) pv
            = match GetPolygonVertexNormal mesh pv.1 pv.2 with
              | Some normal => Some (i, acc ++ [toGfVec normal])
              | None => Some (i, acc)
              end) as Hstep by reflexivity.
    rewrite Hstep in Hloop. clear Hstep.
    destruct (GetPolygonVertexNormal mesh pv.1 pv.2);
      cbn [mbind option_bind] in Hloop; apply IH in Hloop;
      cbn [snd length] in Hloop |- *; rewrite ?length_app in Hloop;
      simpl in Hloop; lia.
Qed.

Lemma faceVertexIndices_length mesh faceVertexIndices :
  meshFaceVertexIndices mesh = Some faceVertexIndices ->
  length (polygonVertices mesh) = length faceVertexIndices.
Proof.
  intros H. unfold meshFaceVertexIndices in H. cbv zeta in H.
  rewrite polygonVertices_from_0 in H |- *.
  rewrite (meshFaceVertexIndices_loop mesh (Polygons mesh) 0 []) in H
    by reflexivity.
  injection H as <-. apply polygonVerticesFrom_length.
Qed.

(** X7.  The face-varying arrays line up with [faceVertexIndices]: the
    tangents, when a layer is accepted, and the texture coordinates of a
    layer hold exactly one value per face-vertex index; the normals hold
    exactly one per index when a layer is accepted and at most one per
    index when the SDK is asked polygon vertex by polygon vertex; without
    an accepted layer there are no tangents. *)
Theorem face_varying_arrays_follow_the_indices (mesh : FbxMesh)
    (faceVertexIndices : list Z) :
  meshFaceVertexIndices mesh = Some faceVertexIndices ->
  (forall tangents,
     meshTangents mesh = Some tangents ->
     length tangents
     = if existsb acceptsTangents (Layers mesh)
       then length faceVertexIndices else 0%nat)
  /\ (forall layerIndex texCoords,
        meshTexCoords mesh layerIndex = Some texCoords ->
        length texCoords = length faceVertexIndices)
  /\ (forall normals,
        meshNormals mesh = Some normals ->
        (length normals <= length faceVertexIndices)%nat
        /\ (existsb acceptsNormals (Layers mesh) = true ->
            length normals = length faceVertexIndices)).
Proof.
  intros Hindices. apply faceVertexIndices_length in Hindices.
  rewrite <- Hindices. split; [| split].
  - intros tangents. unfold meshTangents.
    pose proof (findTangents_accepted (Layers mesh)) as Haccepted.
    destruct (findTangents (Layers mesh) None) as [element |].
    + destruct (existsb acceptsTangents (Layers mesh));
        [| destruct Haccepted as [Ha _];
           discriminate (Ha ltac:(eexists; reflexivity))].
      destruct (loopM _ _ _) as [s' |] eqn:Hloop; [| discriminate].
      intros H. injection H as <-.
      apply (reading_loop_length _ (getAtVertexIndex element) toGfVec)
        in Hloop; [exact Hloop |].
      intros i acc pv. reflexivity.
    + destruct (existsb acceptsTangents (Layers mesh));
        [destruct Haccepted as [_ Ha];
         destruct (Ha eq_refl) as [? Habs]; discriminate Habs |].
      intros H. injection H as <-. reflexivity.
  - intros layerIndex texCoords. unfold meshTexCoords.
    destruct (Layers mesh !! layerIndex) as [layer |]; [| discriminate].
    cbn [mbind option_bind].
    destruct (GetUVs layer) as [element |]; [| discriminate].
    cbn [mbind option_bind].
    destruct (loopM _ _ _) as [s' |] eqn:Hloop; [| discriminate].
    intros H. injection H as <-.
    apply (reading_loop_length _ (getAtVertexIndex element) uvToGfVec)
      in Hloop; [exact Hloop |].
    intros i acc pv. reflexivity.
  - intros normals. unfold meshNormals. cbv zeta.
    pose proof (findNormals_accepted (Layers mesh)) as Haccepted.
    destruct (findNormals (Layers mesh) None) as [element |].
    + destruct (loopM _ _ _) as [s' |] eqn:Hloop; [| discriminate].
      intros H. injection H as <-.
      apply (reading_loop_length _ (getAtVertexIndex element) toGfVec)
        in Hloop; [| intros i acc pv; reflexivity].
      simpl in Hloop. rewrite Hloop. split; [lia | reflexivity].
    + destruct (loopM _ _ _) as [s' |] eqn:Hloop; [| discriminate].
      intros H. injection H as <-.
      apply meshNormals_fallback_length in Hloop. simpl in Hloop.
      split; [exact Hloop |].
      intros Hex. destruct Haccepted as [_ Ha].
      destruct (Ha Hex) as [? Habs]. discriminate Habs.
Qed.

(** X7 at the triangle with two layers. *)
Lemma face_varying_arrays_follow_the_indices_witness :
  exists tangents texCoords normals,
    meshTangents examples.twoLayerMesh = Some tangents
    /\ meshTexCoords examples.twoLayerMesh 1 = Some texCoords
    /\ meshNormals examples.twoLayerMesh = Some normals
    /\ length tangents = 3%nat /\ length texCoords = 3%nat
    /\ length normals = 3%nat.
Proof.
  destruct (face_varying_arrays_follow_the_indices examples.twoLayerMesh
              [0; 1; 2] eq_refl) as (Htangents & HtexCoords & Hnormals).
  eexists _, _, _.
  split; [vm_compute; reflexivity |].
  split; [vm_compute; reflexivity |].
  split; [vm_compute; reflexivity |].
  split; [exact (Htangents _ eq_refl) |].
  split; [exact (HtexCoords 1%nat _ eq_refl) |].
  exact (proj2 (Hnormals _ eq_refl) eq_refl).
Defined.

(** X8.  When the values an element holds (directly, or through its index
    array) cover the polygon vertices of the mesh, the texture coordinates
    of its layer and the tangents of an accepted element are those values
    in order, one per polygon vertex, each converted to single-precision
    components; values beyond the last polygon vertex are not read. *)
Theorem face_varying_values_are_the_resolved_values (mesh : FbxMesh) :
  let n := length (concat (Polygons mesh)) in
  (forall layerIndex layer (element : FbxLayerElementTemplate FbxVector2)
          values,
     Layers mesh !! layerIndex = Some layer ->
     GetUVs layer = Some element ->
     resolvedValues element = Some values ->
     (n <= length values)%nat ->
     meshTexCoords mesh layerIndex = Some (uvToGfVec <$> take n values))
  /\ (forall (element : FbxLayerElementTemplate FbxVector4) values,
        findTangents (Layers mesh) None = Some element ->
        resolvedValues element = Some values ->
        (n <= length values)%nat ->
        meshTangents mesh = Some (toGfVec <$> take n values)).
Proof.
  cbv zeta.
  assert (length (polygonVertices mesh) = length (concat (Polygons mesh)))
    as Hlen by (rewrite polygonVertices_from_0;
                apply polygonVerticesFrom_length).
  split.
  - intros layerIndex layer element values Hlayer Huvs Hvalues Hn.
    unfold meshTexCoords. rewrite Hlayer. cbn [mbind option_bind].
    rewrite Huvs. cbn [mbind option_bind].
    pose proof (reading_loop_values (meshTexCoords_step element)
                  (getAtVertexIndex element) uvToGfVec values
                  ltac:(intros; reflexivity)
                  ltac:(intros i Hi; apply resolvedValues_lookup; assumption)
                  (polygonVertices mesh) 0 [] ltac:(simpl; lia)) as Hloop.
    change (Z.of_nat 0) with 0 in Hloop. rewrite Hloop, Hlen, drop_0.
    reflexivity.
  - intros element values Hfound Hvalues Hn.
    unfold meshTangents. rewrite Hfound.
    pose proof (reading_loop_values (meshTangents_step element)
                  (getAtVertexIndex element) toGfVec values
                  ltac:(intros; reflexivity)
                  ltac:(intros i Hi; apply resolvedValues_lookup; assumption)
                  (polygonVertices mesh) 0 [] ltac:(simpl; lia)) as Hloop.
    change (Z.of_nat 0) with 0 in Hloop. rewrite Hloop, Hlen, drop_0.
    reflexivity.
Qed.

(** X8 at a triangle whose tangents are addressed through indices. *)
Lemma face_varying_values_are_the_resolved_values_witness :
  meshTangents (withLayers examples.twoLayerMesh
                  [tangentsLayer examples.indexedTangents])
  = Some (toGfVec
            <$> [(examples.d 0, examples.d 1, examples.d 0, examples.d 0);
                 (examples.d 1, examples.d 0, examples.d 0, examples.d 0);
                 (examples.d 0, examples.d 1, examples.d 0, examples.d 0)]).
Proof.
  apply (proj2 (face_varying_values_are_the_resolved_values
                  (withLayers examples.twoLayerMesh
                     [tangentsLayer examples.indexedTangents]))
           examples.indexedTangents
           [(examples.d 0, examples.d 1, examples.d 0, examples.d 0);
            (examples.d 1, examples.d 0, examples.d 0, examples.d 0);
            (examples.d 0, examples.d 1, examples.d 0, examples.d 0)]);
    [reflexivity | reflexivity | simpl; lia].
Defined.

(** X5.  Replacing, in any layer of a mesh, a tangents element of
    reference mode index-to-direct by the element that stores the indexed
    values directly leaves the tangents read from the mesh unchanged, when
    the index array has an entry for every polygon vertex of the mesh and
    every index lies inside the direct array. *)
Theorem tangents_indexed_layer_equals_direct_layer (mesh : FbxMesh)
    (pre post : list FbxLayer)
    (element : FbxLayerElementTemplate FbxVector4)
    (values : list FbxVector4) :
  GetReferenceMode element = eIndexToDirect ->
  expandIndexed element = Some values ->
  (length (concat (Polygons mesh)) <= length (GetIndexArray element))%nat ->
  meshTangents (withLayers mesh (pre ++ tangentsLayer element :: post))
  = meshTangents
      (withLayers mesh
         (pre ++ tangentsLayer (asDirect element values) :: post)).
Proof.
  intros Hmode Hvalues Hcover.
  assert (length (GetIndexArray element) = length values) as Hlength
    by (eapply length_mapM, Hvalues).
  unfold meshTangents. cbn [withLayers Layers].
  rewrite !findTangents_app. cbn [findTangents tangentsLayer GetTangents].
  assert (byPolygonVertexNotIndex (asDirect element values)
          = byPolygonVertexNotIndex element) as ->.
  { unfold byPolygonVertexNotIndex.
    cbn [asDirect GetMappingMode GetReferenceMode]. rewrite Hmode.
    reflexivity. }
  destruct (byPolygonVertexNotIndex element); [| reflexivity].
  rewrite (findTangents_cases post (Some element)),
    (findTangents_cases post (Some (asDirect element values))).
  destruct (findTangents post None); [reflexivity |].
  set (mesh' := withLayers mesh (pre ++ tangentsLayer element :: post)).
  set (mesh'' := withLayers mesh
                   (pre ++ tangentsLayer (asDirect element values) :: post)).
  assert (length (polygonVertices mesh') = length (concat (Polygons mesh)))
    as Hlen' by (rewrite polygonVertices_from_0;
                 apply polygonVerticesFrom_length).
  assert (polygonVertices mesh'' = polygonVertices mesh') as ->
    by reflexivity.
  pose proof (reading_loop_values (meshTangents_step element)
                (getAtVertexIndex element) toGfVec values
                ltac:(intros; reflexivity)
                ltac:(intros i Hi; apply resolvedValues_lookup;
                      [unfold resolvedValues; rewrite Hmode; exact Hvalues
                      | exact Hi])
                (polygonVertices mesh') 0 [] ltac:(simpl; lia)) as Hindexed.
  pose proof (reading_loop_values
                (meshTangents_step (asDirect element values))
                (getAtVertexIndex (asDirect element values)) toGfVec values
                ltac:(intros; reflexivity)
                ltac:(intros i Hi; apply resolvedValues_lookup;
                      [reflexivity | exact Hi])
                (polygonVertices mesh') 0 [] ltac:(simpl; lia)) as Hdirect.
  change (Z.of_nat 0) with 0 in Hindexed, Hdirect.
  rewrite Hindexed, Hdirect. reflexivity.
Qed.

(** X5 at a triangle whose tangents are two values addressed through the
    indices 1, 0, 1. *)
Lemma tangents_indexed_layer_equals_direct_layer_witness :
  meshTangents (withLayers examples.twoLayerMesh
                  [examples.emptyLayer;
                   tangentsLayer examples.indexedTangents])
  = Some [toGfVec (examples.d 0, examples.d 1, examples.d 0, examples.d 0);
          toGfVec (examples.d 1, examples.d 0, examples.d 0, examples.d 0);
          toGfVec (examples.d 0, examples.d 1, examples.d 0, examples.d 0)].
Proof.
  exact (eq_trans
           (tangents_indexed_layer_equals_direct_layer examples.twoLayerMesh
              [examples.emptyLayer] [] examples.indexedTangents
              [(examples.d 0, examples.d 1, examples.d 0, examples.d 0);
               (examples.d 1, examples.d 0, examples.d 0, examples.d 0);
               (examples.d 0, examples.d 1, examples.d 0, examples.d 0)]
              eq_refl eq_refl ltac:(simpl; lia))
           eq_refl).
Defined.

Lemma meshVertexColors_loop (element : FbxLayerElementTemplate FbxColor)
    (n : nat) :
  forall (k : nat) (colors : list GfVec3f),
    (k + n <= length (GetDirectArray element))%nat ->
    loopM (meshVertexColors_step element) (seq k n) colors
    = Some (colors
            ++ (colorToGfVec <$> take n (drop k (GetDirectArray element)))).
Proof.
  induction n as [| n IH]; intros k colors Hk.
  - simpl. rewrite app_nil_r. reflexivity.
  - destruct (lookup_lt_is_Some_2 (GetDirectArray element) k ltac:(lia))
      as [color Hcolor].
    assert (meshVertexColors_step element colors k
            = Some (colors ++ [colorToGfVec color])) as Hstep.
    { unfold meshVertexColors_step. rewrite GetAt_lookup, Hcolor.
      reflexivity. }
    cbn [seq loopM]. rewrite Hstep. cbn [mbind option_bind].
    rewrite IH by lia. f_equal. rewrite <- app_assoc. f_equal.
    rewrite (drop_S _ color k Hcolor). reflexivity.
Qed.

Lemma findVertexColors_none layers :
  Forall (fun layer => GetVertexColors layer = None) layers ->
  findVertexColors layers None = None.
Proof.
  induction 1 as [| layer layers Hlayer _ IH]; [reflexivity |].
  simpl. rewrite Hlayer. exact IH.
Qed.

Lemma hasVertexColors_from_exists layers res :
  hasVertexColors_from layers res
  = match layers with
    | [] => res
    | _ => existsb (fun layer => bool_decide (GetVertexColors layer <> None))
                   layers
    end.
Proof.
  revert res. induction layers as [| layer layers IH]; intros res;
    [reflexivity |].
  cbn [hasVertexColors_from existsb].
  destruct (bool_decide (GetVertexColors layer <> None)); [reflexivity |].
  rewrite IH. destruct layers; reflexivity.
Qed.

(** X9.  The colours read from a mesh are the first entries of the accepted
    element's direct array, one per control point in control-point order,
    whatever the element's reference mode and index array are, provided the
    direct array has an entry for every control point. *)
Theorem vertex_colors_are_read_by_control_point (mesh : FbxMesh)
    (element : FbxLayerElementTemplate FbxColor) :
  findVertexColors (Layers mesh) None = Some element ->
  (GetControlPointsCount mesh <= length (GetDirectArray element))%nat ->
  meshVertexColors mesh
  = Some (colorToGfVec
            <$> take (GetControlPointsCount mesh) (GetDirectArray element)).
Proof.
  intros Hfound Hn. unfold meshVertexColors. rewrite Hfound.
  rewrite meshVertexColors_loop by exact Hn. rewrite drop_0. reflexivity.
Qed.

(** X9 at the triangle with two layers: the colours of layer B. *)
Lemma vertex_colors_are_read_by_control_point_witness :
  meshVertexColors examples.twoLayerMesh
  = Some (replicate 3
            (colorToGfVec (examples.d 0, examples.d 1, examples.d 0,
                           examples.d 1))).
Proof.
  exact (vertex_colors_are_read_by_control_point examples.twoLayerMesh
           (examples.directElement "B" eByControlPoint
              (replicate 3 (examples.d 0, examples.d 1, examples.d 0,
                            examples.d 1)))
           eq_refl ltac:(vm_compute; lia)).
Defined.

(** X10.  [hasVertexColors] holds exactly when some layer of the mesh has
    a vertex-colour element, accepted by the colour scan or not; a mesh for
    which it does not hold has no colours. *)
Theorem hasVertexColors_iff_some_layer_has_colors (mesh : FbxMesh) :
  (hasVertexColors mesh = true
   <-> exists layer, layer ∈ Layers mesh /\ GetVertexColors layer <> None)
  /\ (hasVertexColors mesh = false -> meshVertexColors mesh = Some []).
Proof.
  assert (hasVertexColors mesh
          = existsb (fun layer => bool_decide (GetVertexColors layer <> None))
                    (Layers mesh)) as Hhas.
  { unfold hasVertexColors. rewrite hasVertexColors_from_exists.
    destruct (Layers mesh); reflexivity. }
  split.
  - rewrite Hhas, existsb_exists. split.
    + intros (layer & Hin & Hcolors). exists layer.
      split; [apply list_elem_of_In; exact Hin |].
      apply bool_decide_eq_true in Hcolors. exact Hcolors.
    + intros (layer & Hin & Hcolors). exists layer.
      split; [apply list_elem_of_In; exact Hin |].
      apply bool_decide_eq_true. exact Hcolors.
  - rewrite Hhas. intros Hnone. unfold meshVertexColors.
    rewrite findVertexColors_none; [reflexivity |].
    apply Forall_forall. intros layer Hin.
    destruct (GetVertexColors layer) eqn:Hcolors; [| reflexivity].
    assert (existsb (fun layer => bool_decide (GetVertexColors layer <> None))
                    (Layers mesh) = true) as Habs.
    { apply existsb_exists. exists layer. split; [exact Hin |].
      apply bool_decide_eq_true. congruence. }
    congruence.
Qed.

(** X10 at a mesh without layers. *)
Lemma hasVertexColors_iff_some_layer_has_colors_witness :
  meshVertexColors examples.quadMesh = Some [].
Proof.
  apply (proj2 (hasVertexColors_iff_some_layer_has_colors examples.quadMesh)).
  reflexivity.
Defined.

End mesh_arrays.
(** ** Root bones, skeleton paths and joint tokens *)

Section joint_paths.
Import Fp scene helpers converters readers spec.

Lemma FbxNode_parent_ind (P : FbxNode -> Prop) :
  (forall name a ks, P (mkFbxNode name a None ks)) ->
  (forall name a parent ks,
     P parent -> P (mkFbxNode name a (Some parent) ks)) ->
  forall n, P n.
Proof.
  intros Hroot Hchild. fix IH 1. intros [name a [parent |] ks].
  - apply Hchild, IH.
  - apply Hroot.
Qed.

Lemma ancestry_head n : exists rest, ancestry n = n :: rest.
Proof. destruct n as [name a up ks]. eexists. reflexivity. Qed.

Lemma ancestry_parent n parent :
  GetParent n = Some parent -> ancestry n = n :: ancestry parent.
Proof. destruct n as [name a up ks]. simpl. intros ->. reflexivity. Qed.

Lemma ancestry_root n : GetParent n = None -> ancestry n = [n].
Proof. destruct n as [name a up ks]. simpl. intros ->. reflexivity. Qed.

(** X11.  The root bone found from a link is the topmost node reached from
    the link through joints only: every node above the link up to and
    including the root bone is a joint and the root bone's parent exists
    and is not a joint.  No root bone is found exactly when every proper
    ancestor of the link is a joint, the walk then running past the
    scene's root node. *)
Theorem findRootBone_is_the_topmost_joint (link : FbxNode) :
  (forall rootBone,
     findRootBone link = Some rootBone ->
     exists pre parent,
       ancestry link = pre ++ ancestry rootBone
       /\ Forall (fun n => isSkeleton n = true) (tail (pre ++ [rootBone]))
       /\ GetParent rootBone = Some parent
       /\ isSkeleton parent = false)
  /\ (findRootBone link = None
      <-> Forall (fun n => isSkeleton n = true) (tail (ancestry link))).
Proof.
  induction link as [name a ks | name a parent ks IH]
    using FbxNode_parent_ind.
  - split; [discriminate |]. split; [constructor | reflexivity].
  - cbn [findRootBone ancestry tail].
    change (bool_decide (GetNodeAttribute parent = Some eSkeleton))
      with (isSkeleton parent).
    destruct (ancestry_head parent) as [above Habove].
    destruct (isSkeleton parent) eqn:Hparent; cbn [negb].
    + destruct IH as [IHsome IHnone]. split.
      * intros rootBone Hroot.
        destruct (IHsome rootBone Hroot) as (pre & up & Hpre & Hjoints & Hup).
        exists (mkFbxNode name a (Some parent) ks :: pre), up.
        split; [cbn [app]; rewrite <- Hpre; reflexivity |].
        split; [| exact Hup].
        cbn [app tail].
        assert (exists rest, pre ++ [rootBone] = parent :: rest)
          as [rest Hrest].
        { destruct pre as [| q pre'].
          - destruct (ancestry_head rootBone) as [r Hr].
            rewrite Habove, Hr in Hpre. injection Hpre as -> _.
            eexists. reflexivity.
          - rewrite Habove in Hpre. injection Hpre as -> _.
            eexists. reflexivity. }
        rewrite Hrest in Hjoints |- *. cbn [tail] in Hjoints.
        constructor; assumption.
      * rewrite IHnone, Habove. cbn [tail]. split.
        -- intros H. constructor; assumption.
        -- intros H. inversion H; assumption.
    + split.
      * intros rootBone Hroot. injection Hroot as <-.
        exists [], parent. split; [reflexivity |].
        split; [constructor |]. split; [reflexivity | exact Hparent].
      * split; [discriminate |]. rewrite Habove.
        intros H. inversion H as [| ? ? Hp _]. congruence.
Qed.

(** X11 at joint B of the chain Rig / A / B: the root bone is A. *)
Lemma findRootBone_is_the_topmost_joint_witness :
  exists pre,
    ancestry examples.jointB = pre ++ ancestry examples.jointA
    /\ Forall (fun n => isSkeleton n = true) (tail (pre ++ [examples.jointA])).
Proof.
  destruct (proj1 (findRootBone_is_the_topmost_joint examples.jointB)
              examples.jointA eq_refl)
    as (pre & parent & Hpre & Hjoints & _).
  exists pre. split; assumption.
Defined.

Lemma prependAncestors_names (parent : FbxNode) :
  forall es,
    Forall (fun n => GetName n <> "") (nodesBelowRoot parent) ->
    prependAncestors parent (Path false es)
    = Path false (reverse (GetName <$> nodesBelowRoot parent) ++ es).
Proof.
  induction parent as [name a ks | name a up ks IH]
    using FbxNode_parent_ind; intros es Hnames.
  - reflexivity.
  - cbn [prependAncestors nodesBelowRoot] in Hnames |- *.
    inversion Hnames as [| ? ? Hname Hrest]; subst. simpl in Hname.
    unfold SdfPath_of. destruct (decide (name = "")); [contradiction |].
    cbn [AppendPath app]. rewrite IH by exact Hrest.
    rewrite fmap_cons, reverse_cons, <- app_assoc. reflexivity.
Qed.

Lemma identifiers_are_not_empty (l : list FbxNode) :
  Forall (fun n => isIdentifier (GetName n) = true) l ->
  Forall (fun n => GetName n <> "") l.
Proof.
  intros H. eapply List.Forall_impl; [| exact H].
  intros n Hn Hempty. cbv beta in Hn. rewrite Hempty in Hn.
  discriminate Hn.
Qed.

Lemma skeletonPathOf_names (rootBone : FbxNode) :
  Forall (fun n => GetName n <> "") (skeletonPathNodes rootBone) ->
  skeletonPathOf rootBone
  = Path true ("ROOT" :: reverse (GetName <$> skeletonPathNodes rootBone)).
Proof.
  unfold skeletonPathNodes, skeletonPathOf. intros Hnames.
  inversion Hnames as [| ? ? Hname Hrest]; subst.
  unfold SdfPath_of.
  destruct (decide (GetName rootBone = "")); [contradiction |].
  rewrite fmap_cons, reverse_cons.
  destruct (GetParent rootBone) as [parent |].
  - rewrite prependAncestors_names by exact Hrest. reflexivity.
  - reflexivity.
Qed.

(** X12.  The skeleton path of a root bone is the absolute path made of
    ROOT, the names of the root bone's ancestors below the scene's root
    node from the outermost inwards, and the root bone's name, when each
    of these names is a path identifier. *)
Theorem skeleton_path_lists_the_ancestors (rootBone : FbxNode) :
  Forall (fun n => isIdentifier (GetName n) = true)
         (skeletonPathNodes rootBone) ->
  skeletonPathOf rootBone
  = Path true ("ROOT" :: reverse (GetName <$> skeletonPathNodes rootBone)).
Proof.
  intros Hnames. apply skeletonPathOf_names.
  apply identifiers_are_not_empty. exact Hnames.
Qed.

(** X12 at joint A under Rig: /ROOT/Rig/A. *)
Lemma skeleton_path_lists_the_ancestors_witness :
  skeletonPathOf examples.jointA = Path true ["ROOT"; "Rig"; "A"].
Proof.
  apply (skeleton_path_lists_the_ancestors examples.jointA).
  repeat constructor.
Defined.

End joint_paths.
(** ** Joint tokens *)

Section joint_tokens.
Import Fp scene helpers converters readers spec.

Lemma climbToRootJoint_defined rootJointName (parent : FbxNode) :
  forall jointPath,
    is_Some (climbToRootJoint rootJointName parent jointPath)
    <-> Exists (fun n => GetName n = rootJointName) (ancestry parent).
Proof.
  induction parent as [name a ks | name a up ks IH]
    using FbxNode_parent_ind; intros jointPath.
  - cbn [climbToRootJoint ancestry].
    destruct (decide (name = rootJointName)) as [Hname | Hname].
    + split; [intros _; apply Exists_cons_hd; exact Hname |].
      intros _. eexists. reflexivity.
    + split; [intros [? H]; discriminate H |].
      intros H. inversion H as [? ? Hn | ? ? Hn]; subst;
        [contradiction | inversion Hn].
  - cbn [climbToRootJoint ancestry].
    destruct (decide (name = rootJointName)) as [Hname | Hname].
    + split; [intros _; apply Exists_cons_hd; exact Hname |].
      intros _. eexists. reflexivity.
    + rewrite IH. split.
      * intros H. apply Exists_cons_tl. exact H.
      * intros H. inversion H as [? ? Hn | ? ? Hn]; subst;
          [contradiction | exact Hn].
Qed.

Lemma skeletonToTokenPath_defined_at (skeleton : FbxNode)
    (rootJointName : TfToken) :
  (exists n, n ∈ ancestry skeleton /\ GetName n = rootJointName) ->
  is_Some (skeletonToTokenPath skeleton rootJointName).
Proof.
  rewrite <- list.Exists_exists.
  unfold skeletonToTokenPath. cbv zeta.
  destruct skeleton as [name a up ks]. cbn [GetName GetParent ancestry].
  destruct (decide (name = rootJointName)) as [Hname | Hname].
  - intros _. eexists. reflexivity.
  - destruct up as [parent |]; cbn [mbind option_bind].
    + rewrite fmap_is_Some, climbToRootJoint_defined.
      intros H. inversion H as [? ? Hn | ? ? Hn]; subst;
        [contradiction | exact Hn].
    + intros H. inversion H as [? ? Hn | ? ? Hn]; subst;
        [contradiction | inversion Hn].
Qed.

(** X13.  [skeletonToTokenPath] has a result exactly when the joint or one
    of its ancestors bears the root joint's name; otherwise the climb runs
    past the scene's root node. *)
Theorem skeletonToTokenPath_defined_iff_named_ancestor
    (skeleton : FbxNode) (rootJointName : TfToken) :
  is_Some (skeletonToTokenPath skeleton rootJointName)
  <-> exists n, n ∈ ancestry skeleton /\ GetName n = rootJointName.
Proof.
  rewrite <- list.Exists_exists.
  unfold skeletonToTokenPath. cbv zeta.
  destruct skeleton as [name a up ks]. cbn [GetName GetParent ancestry].
  destruct (decide (name = rootJointName)) as [Hname | Hname].
  - split; [intros _; apply Exists_cons_hd; exact Hname |].
    intros _. eexists. reflexivity.
  - destruct up as [parent |]; cbn [mbind option_bind].
    + rewrite fmap_is_Some, climbToRootJoint_defined. split.
      * intros H. apply Exists_cons_tl. exact H.
      * intros H. inversion H as [? ? Hn | ? ? Hn]; subst;
          [contradiction | exact Hn].
    + split; [intros [? H]; discriminate H |].
      intros H. inversion H as [? ? Hn | ? ? Hn]; subst;
        [contradiction | inversion Hn].
Qed.

(** X13 at joint B below joint A, with A as the root joint. *)
Lemma skeletonToTokenPath_defined_iff_named_ancestor_witness :
  is_Some (skeletonToTokenPath examples.jointB "A").
Proof.
  apply (proj2 (skeletonToTokenPath_defined_iff_named_ancestor
                  examples.jointB "A")).
  exists examples.jointA. split; [| reflexivity].
  apply elem_of_cons. right. apply elem_of_cons. left. reflexivity.
Defined.


Lemma climbToRootJoint_names rootJointName (pre : list FbxNode) :
  forall (parent r : FbxNode) (rest : list FbxNode) (es : list TfToken),
    ancestry parent = pre ++ r :: rest ->
    GetName r = rootJointName ->
    Forall (fun n => GetName n <> rootJointName) pre ->
    Forall (fun n => GetName n <> "") (pre ++ [r]) ->
    climbToRootJoint rootJointName parent (Path false (GetName parent :: es))
    = Some (Path false (reverse (GetName <$> (pre ++ [r])) ++ es)).
Proof.
  induction pre as [| q pre IH]; intros parent r rest es Hanc Hr Hpre Hnames.
  - destruct parent as [name a up ks]. cbn [app] in Hanc.
    injection Hanc as <- _. cbn [GetName] in Hr |- *.
    cbn [climbToRootJoint].
    destruct (decide (name = rootJointName)); [| contradiction].
    reflexivity.
  - destruct parent as [name a up ks]. cbn [app ancestry] in Hanc.
    injection Hanc as <- Hup.
    pose proof (Forall_inv Hpre) as Hq. cbn [GetName] in Hq.
    pose proof (Forall_inv_tail Hpre) as Hpre'.
    pose proof (Forall_inv_tail Hnames) as Hnames'.
    cbn [climbToRootJoint GetName].
    destruct (decide (name = rootJointName)); [contradiction |].
    destruct up as [parent' |];
      [| destruct pre; discriminate Hup].
    assert (GetName parent' <> "") as Hparent'.
    { destruct (ancestry_head parent') as [above Habove].
      rewrite Habove in Hup.
      destruct pre as [| q' pre'].
      - injection Hup as -> _. exact (Forall_inv Hnames').
      - injection Hup as -> _. exact (Forall_inv Hnames'). }
    unfold SdfPath_of. destruct (decide (GetName parent' = ""));
      [contradiction |].
    cbn [AppendPath app].
    etrans; [exact (IH parent' r rest (name :: es) Hup Hr Hpre' Hnames') |].
    cbn [app]. rewrite fmap_cons, reverse_cons, <- app_assoc. reflexivity.
Qed.

Lemma GetAsToken_relative (es : list TfToken) (x : TfToken) :
  GetAsToken (Path false (es ++ [x])) = join "/" (es ++ [x]).
Proof. destruct es; reflexivity. Qed.

Lemma skeletonToTokenPath_names (skeleton : FbxNode)
    (rootJointName : TfToken) (pre : list FbxNode) (r : FbxNode)
    (rest : list FbxNode) :
  ancestry skeleton = pre ++ r :: rest ->
  GetName r = rootJointName ->
  Forall (fun n => GetName n <> rootJointName) pre ->
  Forall (fun n => GetName n <> "") (pre ++ [r]) ->
  skeletonToTokenPath skeleton rootJointName
  = Some (join "/" (reverse (GetName <$> (pre ++ [r])))).
Proof.
  intros Hanc Hr Hpre Hnames.
  unfold skeletonToTokenPath. cbv zeta.
  destruct skeleton as [name a up ks]. cbn [GetName GetParent ancestry].
  destruct pre as [| q pre].
  - cbn [app] in Hanc. injection Hanc as <- _. cbn [GetName] in Hr.
    destruct (decide (name = rootJointName)); [| contradiction].
    reflexivity.
  - cbn [app ancestry] in Hanc. injection Hanc as <- Hup.
    pose proof (Forall_inv Hpre) as Hq. cbn [GetName] in Hq.
    pose proof (Forall_inv_tail Hpre) as Hpre'.
    pose proof (Forall_inv_tail Hnames) as Hnames'.
    destruct (decide (name = rootJointName)); [contradiction |].
    destruct up as [parent |]; [| destruct pre; discriminate Hup].
    cbn [mbind option_bind].
    assert (GetName parent <> "") as Hparent.
    { destruct (ancestry_head parent) as [above Habove].
      rewrite Habove in Hup.
      destruct pre as [| q' pre'].
      - injection Hup as -> _. exact (Forall_inv Hnames').
      - injection Hup as -> _. exact (Forall_inv Hnames'). }
    unfold SdfPath_of. destruct (decide (GetName parent = ""));
      [contradiction |].
    cbn [AppendChild app].
    etrans;
      [exact (f_equal (fmap GetAsToken)
                (climbToRootJoint_names rootJointName pre parent r rest
                   [name] Hup Hr Hpre' Hnames')) |].
    cbn [fmap option_fmap option_map]. f_equal.
    cbn [app]. rewrite fmap_cons, reverse_cons.
    apply GetAsToken_relative.
Qed.

(** X14.  The token of a joint is made of the names from the nearest node
    at or above the joint that bears the root joint's name down to the
    joint, joined by slashes, when each of these names is a path
    identifier.  The nearest such node is found by name, so a joint named
    like the root joint cuts the token off at itself. *)
Theorem joint_token_names_the_chain_from_the_root_joint
    (skeleton : FbxNode) (rootJointName : TfToken) (pre : list FbxNode)
    (r : FbxNode) (rest : list FbxNode) :
  ancestry skeleton = pre ++ r :: rest ->
  GetName r = rootJointName ->
  Forall (fun n => GetName n <> rootJointName) pre ->
  Forall (fun n => isIdentifier (GetName n) = true) (pre ++ [r]) ->
  skeletonToTokenPath skeleton rootJointName
  = Some (join "/" (reverse (GetName <$> (pre ++ [r])))).
Proof.
  intros Hancestry Hroot Hpre Hnames.
  apply (skeletonToTokenPath_names skeleton rootJointName pre r rest);
    [exact Hancestry | exact Hroot | exact Hpre |].
  apply identifiers_are_not_empty. exact Hnames.
Qed.

(** X14 at joint B below joint A: the token A/B. *)
Lemma joint_token_names_the_chain_from_the_root_joint_witness :
  skeletonToTokenPath examples.jointB "A" = Some "A/B".
Proof.
  apply (joint_token_names_the_chain_from_the_root_joint examples.jointB "A"
           [examples.jointB] examples.jointA
           [examples.rig; examples.sceneRoot]);
    [reflexivity | reflexivity | |].
  - repeat constructor. discriminate.
  - repeat constructor.
Defined.

(** X15.  The token list of a collected joint hierarchy is always defined,
    whatever the scene below the first joint looks like: it has one token
    per collected joint and starts with the first joint's name.  For a
    collected joint such that the names from the first joint down to it
    are path identifiers and none of them but the first joint's own is the
    first joint's name, the token spells these names, joined by
    slashes. *)
Theorem collected_hierarchy_always_has_tokens (pSkeleton : FbxNode) :
  exists tokens,
    skeletonHierarchyToTokenList (collectSkeletonHierarchy pSkeleton).1
    = Some tokens
    /\ length tokens = length (collectSkeletonHierarchy pSkeleton).1
    /\ tokens !! 0%nat = Some (GetName pSkeleton)
    /\ forall (i : nat) (joint : FbxNode) (pre : list FbxNode),
         (collectSkeletonHierarchy pSkeleton).1 !! i = Some joint ->
         ancestry joint = pre ++ ancestry pSkeleton ->
         Forall (fun n => GetName n <> GetName pSkeleton) pre ->
         Forall (fun n => isIdentifier (GetName n) = true)
                (pre ++ [pSkeleton]) ->
         tokens !! i
         = Some (join "/" (reverse (GetName <$> (pre ++ [pSkeleton])))).
Proof.
  unfold skeletonHierarchyToTokenList.
  assert ((collectSkeletonHierarchy pSkeleton).1 !! 0%nat = Some pSkeleton)
    as Hfirst by reflexivity.
  rewrite Hfirst. cbn [mbind option_bind].
  assert (is_Some (mapM (fun skeleton =>
                           skeletonToTokenPath skeleton (GetName pSkeleton))
                        (collectSkeletonHierarchy pSkeleton).1))
    as [tokens Htokens].
  { apply mapM_is_Some. apply Forall_forall. intros x Hx.
    apply list_elem_of_In in Hx.
    destruct (hierarchy_chain pSkeleton x Hx) as (pre & Hpre & _).
    apply skeletonToTokenPath_defined_at.
    exists pSkeleton. split; [| reflexivity].
    rewrite Hpre. apply elem_of_app. right.
    destruct (ancestry_head pSkeleton) as [above ->].
    apply elem_of_cons. left. reflexivity. }
  exists tokens. split; [exact Htokens |].
  pose proof (mapM_lookup_Some _ _ _ Htokens) as Hlookup.
  split; [symmetry; eapply length_mapM, Htokens |].
  split.
  - rewrite Hlookup, Hfirst. cbn [mbind option_bind].
    unfold skeletonToTokenPath. cbv zeta.
    destruct (decide (GetName pSkeleton = GetName pSkeleton));
      [reflexivity | contradiction].
  - intros i joint pre Hjoint Hanc Hpre Hnames.
    rewrite Hlookup, Hjoint. cbn [mbind option_bind].
    destruct (ancestry_head pSkeleton) as [above Habove].
    rewrite Habove in Hanc.
    exact (skeletonToTokenPath_names joint (GetName pSkeleton) pre pSkeleton
             above Hanc eq_refl Hpre (identifiers_are_not_empty _ Hnames)).
Qed.

(** X15 at the chain A -> B -> C: the token of B, at index 1, is A/B. *)
Lemma collected_hierarchy_always_has_tokens_witness :
  exists tokens,
    skeletonHierarchyToTokenList (collectSkeletonHierarchy examples.jointA).1
    = Some tokens
    /\ length tokens = 3%nat
    /\ tokens !! 1%nat = Some "A/B".
Proof.
  destruct (collected_hierarchy_always_has_tokens examples.jointA)
    as (tokens & Htokens & Hlength & _ & Hchain).
  exists tokens. split; [exact Htokens |]. split; [exact Hlength |].
  apply (Hchain 1%nat examples.jointB [examples.jointB]);
    [reflexivity | reflexivity | |].
  - repeat constructor. discriminate.
  - repeat constructor.
Defined.


End joint_tokens.
(** ** The collected joint hierarchy *)

Section collected_hierarchy.
Import Fp scene helpers converters readers spec.

Lemma collectChildren_flat_map skeleton ks :
  (collectChildren skeleton ks).1
  = flat_map (fun k => (collectChild skeleton k).1) ks.
Proof.
  induction ks as [| k ks IH]; [reflexivity |].
  cbn [collectChildren flat_map fst]. rewrite IH. reflexivity.
Qed.

Lemma elem_of_flat_map {A B} (f : A -> list B) (l : list A) (y : B) :
  y ∈ flat_map f l <-> exists x, x ∈ l /\ y ∈ f x.
Proof.
  rewrite list_elem_of_In, in_flat_map. split.
  - intros (x & Hx & Hy). exists x.
    split; apply list_elem_of_In; assumption.
  - intros (x & Hx & Hy). exists x.
    split; apply list_elem_of_In; assumption.
Qed.

Lemma collectChild_below t :
  forall skeleton x,
    x ∈ (collectChild skeleton t).1 -> x ∈ subtreeHandles skeleton t.
Proof.
  induction t as [name a ks IH] using FbxTree_nested_ind.
  intros skeleton x. rewrite collectChild_unfold, subtreeHandles_unfold.
  cbv zeta. destruct (isSkeleton _); [| intros H; inversion H].
  cbn [fst]. intros Hx. apply elem_of_cons in Hx as [-> | Hx];
    [apply elem_of_cons; left; reflexivity |].
  apply elem_of_cons. right.
  rewrite collectChildren_flat_map in Hx.
  apply elem_of_flat_map in Hx as (k & Hk & Hx).
  apply elem_of_flat_map. exists k. split; [exact Hk |].
  rewrite Forall_forall in IH.
  apply (IH k); [apply list_elem_of_In; exact Hk | exact Hx].
Qed.

Lemma collectChild_complete t :
  forall skeleton x pre,
    x ∈ subtreeHandles skeleton t ->
    ancestry x = pre ++ ancestry skeleton ->
    Forall (fun n => isSkeleton n = true) pre ->
    x ∈ (collectChild skeleton t).1.
Proof.
  induction t as [name a ks IH] using FbxTree_nested_ind.
  intros skeleton x pre. rewrite collectChild_unfold, subtreeHandles_unfold.
  cbv zeta. set (self := mkFbxNode name a (Some skeleton) ks).
  intros Hx Hanc Hpre.
  assert (isSkeleton self = true
          /\ (x = self
              \/ exists k pre', k ∈ ks /\ x ∈ subtreeHandles self k
                                /\ ancestry x = pre' ++ ancestry self
                                /\ Forall (fun n => isSkeleton n = true) pre'))
    as [Hself Hcases].
  { apply elem_of_cons in Hx as [-> | Hx].
    - assert (pre = [self]) as ->.
      { apply (app_inv_tail (ancestry skeleton)). rewrite <- Hanc.
        reflexivity. }
      split; [exact (Forall_inv Hpre) | left; reflexivity].
    - apply elem_of_flat_map in Hx as (k & Hk & Hx).
      destruct (subtreeHandles_chain k self x Hx) as [pre' Hpre'].
      rewrite ancestry_child in Hpre'.
      assert (pre = (pre' ++ [childHandle self k]) ++ [self]) as ->.
      { apply (app_inv_tail (ancestry skeleton)). rewrite <- Hanc, Hpre'.
        rewrite <- !app_assoc. reflexivity. }
      apply Forall_app in Hpre as [Hbelow Hself].
      split; [exact (Forall_inv Hself) |].
      right. exists k, (pre' ++ [childHandle self k]).
      split; [exact Hk |]. split; [exact Hx |].
      split; [| exact Hbelow].
      rewrite Hpre', <- app_assoc. reflexivity. }
  rewrite Hself. cbn [fst].
  destruct Hcases as [-> | (k & pre' & Hk & Hxk & Hanc' & Hpre')];
    [apply elem_of_cons; left; reflexivity |].
  apply elem_of_cons. right.
  rewrite collectChildren_flat_map. apply elem_of_flat_map.
  exists k. split; [exact Hk |].
  rewrite Forall_forall in IH.
  apply (IH k (proj1 (list_elem_of_In _ _) Hk) self x pre' Hxk Hanc' Hpre').
Qed.

(** X16.  The collected hierarchy holds the first joint and, of the nodes
    below it, exactly those connected to it through joints only: the node
    and every node between it and the first joint are joints. *)
Theorem collected_joints_are_the_connected_joints (pSkeleton x : FbxNode) :
  x ∈ (collectSkeletonHierarchy pSkeleton).1
  <-> x = pSkeleton
      \/ (x ∈ descendants pSkeleton
          /\ exists pre,
               ancestry x = pre ++ ancestry pSkeleton
               /\ Forall (fun n => isSkeleton n = true) pre).
Proof.
  unfold collectSkeletonHierarchy, descendants. cbv zeta. cbn [fst].
  rewrite elem_of_cons, collectChildren_flat_map. split.
  - intros [-> | Hx]; [left; reflexivity |]. right.
    apply elem_of_flat_map in Hx as (k & Hk & Hx). split.
    + apply elem_of_flat_map. exists k. split; [exact Hk |].
      apply collectChild_below. exact Hx.
    + exact (collectChild_chain k pSkeleton x Hx).
  - intros [-> | (Hx & pre & Hanc & Hpre)]; [left; reflexivity |]. right.
    apply elem_of_flat_map in Hx as (k & Hk & Hx).
    apply elem_of_flat_map. exists k. split; [exact Hk |].
    exact (collectChild_complete k pSkeleton x pre Hx Hanc Hpre).
Qed.

(** X16 at the chain A -> B -> C: B is collected. *)
Lemma collected_joints_are_the_connected_joints_witness :
  examples.jointB ∈ (collectSkeletonHierarchy examples.jointA).1.
Proof.
  apply (proj2 (collected_joints_are_the_connected_joints examples.jointA
                  examples.jointB)).
  right. split.
  - apply elem_of_cons. left. reflexivity.
  - exists [examples.jointB]. split; [reflexivity |].
    repeat constructor.
Defined.


Lemma parentsFirst_app top l1 l2 :
  parentsFirst top l1 -> parentsFirst top l2 -> parentsFirst top (l1 ++ l2).
Proof.
  intros H1 H2 i x Hx.
  destruct (decide (i < length l1)%nat) as [Hi | Hi].
  - rewrite lookup_app_l in Hx by exact Hi.
    destruct (H1 i x Hx) as [Htop | (j & parent & Hj & Hparent & Hlookup)];
      [left; exact Htop |].
    right. exists j, parent. split; [exact Hj |]. split; [exact Hparent |].
    rewrite lookup_app_l by lia. exact Hlookup.
  - rewrite lookup_app_r in Hx by lia.
    destruct (H2 _ x Hx) as [Htop | (j & parent & Hj & Hparent & Hlookup)];
      [left; exact Htop |].
    right. exists (length l1 + j)%nat, parent. split; [lia |].
    split; [exact Hparent |].
    rewrite lookup_app_r by lia.
    replace (length l1 + j - length l1)%nat with j by lia. exact Hlookup.
Qed.

Lemma parentsFirst_flat_map {A} top (f : A -> list FbxNode) (l : list A) :
  Forall (fun a => parentsFirst top (f a)) l ->
  parentsFirst top (flat_map f l).
Proof.
  induction 1 as [| a l Ha _ IH].
  - intros i x Hx. destruct i; discriminate Hx.
  - cbn [flat_map]. apply parentsFirst_app; assumption.
Qed.

Lemma collectChild_parentsFirst t :
  forall skeleton, parentsFirst skeleton (collectChild skeleton t).1.
Proof.
  induction t as [name a ks IH] using FbxTree_nested_ind.
  intros skeleton. rewrite collectChild_unfold. cbv zeta.
  set (child := mkFbxNode name a (Some skeleton) ks).
  destruct (isSkeleton child);
    [| intros i x Hx; destruct i; discriminate Hx].
  cbn [fst]. rewrite collectChildren_flat_map.
  assert (parentsFirst child
            (flat_map (fun k => (collectChild child k).1) ks)) as Hbelow.
  { apply parentsFirst_flat_map. eapply List.Forall_impl; [| exact IH].
    intros k Hk. apply Hk. }
  intros i x Hx. destruct i as [| i].
  - injection Hx as <-. left. reflexivity.
  - cbn [lookup list_lookup] in Hx.
    destruct (Hbelow i x Hx)
      as [Htop | (j & parent & Hj & Hparent & Hlookup)].
    + right. exists 0%nat, child. split; [lia |].
      split; [exact Htop | reflexivity].
    + right. exists (S j), parent. split; [lia |].
      split; [exact Hparent | exact Hlookup].
Qed.

(** X17.  In the collected hierarchy every joint other than the first comes
    after its parent, which is itself in the list. *)
Theorem collected_hierarchy_lists_parents_first (pSkeleton : FbxNode)
    (i : nat) (joint : FbxNode) :
  (collectSkeletonHierarchy pSkeleton).1 !! S i = Some joint ->
  exists (j : nat) (parent : FbxNode),
    (j < S i)%nat
    /\ GetParent joint = Some parent
    /\ (collectSkeletonHierarchy pSkeleton).1 !! j = Some parent.
Proof.
  unfold collectSkeletonHierarchy. cbv zeta. cbn [fst].
  rewrite collectChildren_flat_map. cbn [lookup list_lookup].
  intros Hjoint.
  assert (parentsFirst pSkeleton
            (flat_map (fun k => (collectChild pSkeleton k).1)
                      (GetChildren pSkeleton))) as Hbelow.
  { apply parentsFirst_flat_map. apply Forall_forall.
    intros k _. apply collectChild_parentsFirst. }
  destruct (Hbelow i joint Hjoint)
    as [Htop | (j & parent & Hj & Hparent & Hlookup)].
  - exists 0%nat, pSkeleton. split; [lia |].
    split; [exact Htop | reflexivity].
  - exists (S j), parent. split; [lia |].
    split; [exact Hparent | exact Hlookup].
Qed.

(** X17 at the chain A -> B -> C: C, at index 2, comes after its parent B. *)
Lemma collected_hierarchy_lists_parents_first_witness :
  exists (j : nat) (parent : FbxNode),
    (j < 2)%nat
    /\ GetName parent = "B"
    /\ (collectSkeletonHierarchy examples.jointA).1 !! j = Some parent.
Proof.
  destruct (collected_hierarchy_lists_parents_first examples.jointA 1
              (mkFbxNode "C" (Some eSkeleton) (Some examples.jointB) [])
              eq_refl)
    as (j & parent & Hj & Hparent & Hlookup).
  exists j, parent. split; [exact Hj |]. split; [| exact Hlookup].
  injection Hparent as <-. reflexivity.
Defined.

End collected_hierarchy.
(** ** Joint names and the skeleton path of the binding data *)

Section binding_names.
Import Fp scene helpers converters readers spec.

Lemma linkedClusters_linked cluster rest link :
  GetLink cluster = Some link ->
  linkedClusters (cluster :: rest) = cluster :: linkedClusters rest.
Proof.
  intros H. unfold linkedClusters. apply filter_cons_True.
  rewrite H. eexists. reflexivity.
Qed.

Lemma linkedClusters_unlinked cluster rest :
  GetLink cluster = None ->
  linkedClusters (cluster :: rest) = linkedClusters rest.
Proof.
  intros H. unfold linkedClusters. apply filter_cons_False.
  rewrite H. intros [? Habs]. discriminate Habs.
Qed.

Lemma addCluster_loop_names (rootBoneName : TfToken)
    (clusters : list FbxCluster) :
  forall jointsUsed perVertex elementSize jointsUsed' perVertex' elementSize',
    loopM (addCluster rootBoneName) clusters
          (jointsUsed, perVertex, elementSize)
    = Some (jointsUsed', perVertex', elementSize') ->
    exists tokens,
      mapM (jointToken rootBoneName) (linkedClusters clusters) = Some tokens
      /\ jointsUsed' = jointsUsed ++ tokens.
Proof.
  induction clusters as [| cluster rest IH];
    intros ju pv es ju' pv' es' Hloop.
  - injection Hloop as <- _ _. exists []. rewrite app_nil_r.
    split; reflexivity.
  - cbn [loopM] in Hloop.
    destruct (GetLink cluster) as [link |] eqn:Hlink.
    + rewrite (addCluster_linked _ _ _ _ _ link Hlink) in Hloop.
      destruct (loopM (addInfluence _) _ _) as [[pv1 es1] |];
        [| discriminate].
      cbn [mbind option_bind] in Hloop.
      destruct (asSkeleton link) as [skeleton |] eqn:Hskeleton;
        [| discriminate].
      cbn [mbind option_bind] in Hloop.
      destruct (skeletonToTokenPath skeleton rootBoneName) as [token |]
        eqn:Htoken; [| discriminate].
      cbn [mbind option_bind] in Hloop.
      destruct (IH _ _ _ _ _ _ Hloop) as (tokens & Htokens & ->).
      exists (token :: tokens).
      rewrite (linkedClusters_linked _ _ _ Hlink). split.
      * assert (jointToken rootBoneName cluster = Some token) as Hjoint.
        { unfold jointToken. rewrite Hlink. cbn [mbind option_bind].
          rewrite Hskeleton. exact Htoken. }
        cbn [mapM]. rewrite Hjoint. cbn [mbind option_bind].
        rewrite Htokens. reflexivity.
      * rewrite <- app_assoc. reflexivity.
    + rewrite (addCluster_unlinked _ _ _ Hlink) in Hloop.
      cbn [mbind option_bind] in Hloop.
      rewrite (linkedClusters_unlinked _ _ Hlink).
      exact (IH _ _ _ _ _ _ Hloop).
Qed.

(** X18.  Whenever binding data is extracted from a skin with clusters, its
    joint names are the joint tokens of the linked clusters, in cluster
    order and relative to the root bone found from the first cluster's
    link, one per linked cluster; its skeleton path is that root bone's
    path. *)
Theorem binding_names_follow_the_linked_clusters
    (UsdSkelNormalizeWeights : list float -> Z -> list float)
    (UsdSkelSortInfluences : list Z -> list float -> Z -> list Z * list float)
    (skin : FbxSkin) (mesh : FbxMesh) (bd : BindingData) :
  skin <> [] ->
  getBindingData UsdSkelNormalizeWeights UsdSkelSortInfluences skin mesh
  = Some bd ->
  exists link rootBone,
    head skin ≫= GetLink = Some link
    /\ findRootBone link = Some rootBone
    /\ mapM (jointToken (GetName rootBone)) (linkedClusters skin)
       = Some (names bd)
    /\ length (names bd) = length (linkedClusters skin)
    /\ pathToSkeleton bd = skeletonPathOf rootBone.
Proof.
  intros Hskin Hbd. unfold getBindingData in Hbd.
  destruct skin as [| cluster0 rest]; [contradiction |].
  cbn [head mbind option_bind].
  destruct (GetLink cluster0) as [link0 |] eqn:Hlink0; [| discriminate].
  cbn [mbind option_bind] in Hbd.
  destruct (findRootBone link0) as [rootBone |] eqn:Hroot; [| discriminate].
  cbn [mbind option_bind] in Hbd. cbv zeta in Hbd.
  destruct (loopM (addCluster (GetName rootBone)) _ _)
    as [[[jointsUsed perVertex] elementSize] |] eqn:Hloop; [| discriminate].
  cbn [mbind option_bind] in Hbd.
  destruct (flattenInfluences elementSize perVertex)
    as [jointIndices jointWeights].
  destruct (UsdSkelSortInfluences _ _ _) as [jointIndices' jointWeights'].
  injection Hbd as <-. cbn [names pathToSkeleton].
  destruct (addCluster_loop_names _ _ _ _ _ _ _ _ Hloop)
    as (tokens & Htokens & Hused).
  cbn [app] in Hused. subst tokens.
  exists link0, rootBone. split; [reflexivity |]. split; [exact Hroot |].
  split; [exact Htokens |]. split; [| reflexivity].
  symmetry. eapply length_mapM, Htokens.
Qed.

(** X18 at a skin of three clusters, the second of which has no link. *)
Lemma binding_names_follow_the_linked_clusters_witness :
  exists bd,
    getBindingData UsdSkel.NormalizeWeights UsdSkel.SortInfluences
      [examples.clusterJ; examples.unlinkedCluster; examples.clusterK]
      examples.quadMesh = Some bd
    /\ names bd = ["A"; "A/B"]
    /\ pathToSkeleton bd = Path true ["ROOT"; "Rig"; "A"].
Proof.
  assert (is_Some (getBindingData UsdSkel.NormalizeWeights
                     UsdSkel.SortInfluences
                     [examples.clusterJ; examples.unlinkedCluster;
                      examples.clusterK] examples.quadMesh)) as [bd Hbd]
    by (vm_compute; eexists; reflexivity).
  destruct (binding_names_follow_the_linked_clusters
              UsdSkel.NormalizeWeights UsdSkel.SortInfluences
              [examples.clusterJ; examples.unlinkedCluster; examples.clusterK]
              examples.quadMesh bd ltac:(discriminate) Hbd)
    as (link & rootBone & Hlink & Hroot & Hnames & _ & Hpath).
  injection Hlink as <-. injection Hroot as <-.
  exists bd. split; [exact Hbd |]. split.
  - injection Hnames as <-. reflexivity.
  - rewrite Hpath. reflexivity.
Defined.

End binding_names.
(** ** Frame ranges that run backwards *)

Section reversed_range.
Import Fp scene helpers converters readers spec.

Lemma evaluateChannels_no_frames curveNode animTimeSpan channelIds :
  frames animTimeSpan = [] ->
  forall timeCodes channelValues,
    evaluateChannels curveNode animTimeSpan channelIds timeCodes channelValues
    = Some (timeCodes, channelValues).
Proof.
  intros Hframes.
  induction channelIds as [| channelId rest IH];
    intros timeCodes channelValues; [reflexivity |].
  cbn [evaluateChannels].
  destruct (GetCurve curveNode channelId); [| apply IH].
  rewrite Hframes. cbn [evaluateCurve mbind option_bind]. apply IH.
Qed.

(** X19.  Over a frame range that stops before it starts, the overload
    taking a value function visits no frame and returns no samples, and
    the overload taking a property returns no samples when there is
    nothing to sample.  For a property with a curve it sets up one row per
    frame of the duration, which is never negative, while no frame is
    visited; pairing the rows with the time codes then reads past the end
    of the empty set of time codes, so there is no defined result. *)
Theorem reversed_frame_range_reads_past_the_time_codes {Node : Type}
    (fbxProperty : FbxProperty) (node : Node)
    (valueAtTimeFn : Node -> FbxTime -> VtValue)
    (animLayer : option FbxAnimLayer) (animTimeSpan : FbxTimeSpan) :
  GetStop animTimeSpan < GetStart animTimeSpan ->
  getPropertyAnimation_fn node valueAtTimeFn animLayer animTimeSpan = []
  /\ (nothingToSample fbxProperty animLayer ->
      getPropertyAnimation fbxProperty animLayer animTimeSpan = Some [])
  /\ (GetStart animTimeSpan - GetStop animTimeSpan + 1 < 2 ^ 64 ->
      ~ nothingToSample fbxProperty animLayer ->
      getPropertyAnimation fbxProperty animLayer animTimeSpan = None).
Proof.
  intros Hrange.
  assert (frames animTimeSpan = []) as Hframes
    by (unfold frames; apply seqZ_nil; lia).
  split; [| split].
  - unfold getPropertyAnimation_fn.
    destruct animLayer; [| reflexivity]. rewrite Hframes. reflexivity.
  - unfold getPropertyAnimation.
    intros [-> | [(layer & -> & Hnode) | (layer & cn & -> & Hnode & Hnone)]];
      [reflexivity | |].
    + destruct (negb (IsValid fbxProperty)); [reflexivity |].
      rewrite Hnode. reflexivity.
    + destruct (negb (IsValid fbxProperty)); [reflexivity |].
      rewrite Hnode.
      rewrite (proj2 (hasAnimCurves_false cn) Hnone). reflexivity.
  - intros Hbound Hsome. unfold getPropertyAnimation.
    destruct animLayer as [layer |];
      [| exfalso; apply Hsome; left; reflexivity].
    destruct (GetCurveNode fbxProperty layer) as [curveNode |] eqn:Hnode;
      [| exfalso; apply Hsome; right; left; exists layer;
         split; [reflexivity | exact Hnode]].
    assert (IsValid fbxProperty = true) as ->.
    { unfold GetCurveNode in Hnode.
      destruct (IsValid fbxProperty); [reflexivity | discriminate]. }
    cbn [negb].
    destruct (hasAnimCurves curveNode) eqn:Hcurves;
      [| exfalso; apply Hsome; right; right; exists layer, curveNode;
         split; [reflexivity |]; split; [exact Hnode |];
         apply hasAnimCurves_false; exact Hcurves].
    cbn [negb]. cbv zeta.
    rewrite (evaluateChannels_no_frames _ _ _ Hframes).
    cbn [mbind option_bind].
    assert (wrap_unsigned 64 (GetDuration animTimeSpan + 1)
            = GetStart animTimeSpan - GetStop animTimeSpan + 1) as ->.
    { unfold GetDuration. rewrite Z.abs_neq by lia.
      rewrite wrap_unsigned_id by lia. lia. }
    destruct (Z.to_nat (GetStart animTimeSpan - GetStop animTimeSpan + 1))
      as [| rows] eqn:Hrows; [lia |].
    reflexivity.
Qed.

(** X19 at the animated double property over the range from 5 to 4. *)
Lemma reversed_frame_range_reads_past_the_time_codes_witness :
  getPropertyAnimation_fn tt (fun _ _ => VtEmpty) (Some 0%nat)
    {| GetStart := 5; GetStop := 4 |} = []
  /\ getPropertyAnimation examples.animatedDouble (Some 0%nat)
       {| GetStart := 5; GetStop := 4 |} = None.
Proof.
  destruct (reversed_frame_range_reads_past_the_time_codes
              examples.animatedDouble tt (fun _ _ => VtEmpty) (Some 0%nat)
              {| GetStart := 5; GetStop := 4 |} ltac:(simpl; lia))
    as (Hfn & _ & Hproperty).
  split; [exact Hfn |]. apply Hproperty; [simpl; lia |].
  intros [Habs | [(l & _ & Habs) | (l & cn & _ & Hcn & Habs)]].
  - discriminate.
  - discriminate.
  - injection Hcn as <-. specialize (Habs 0%nat). discriminate.
Defined.

End reversed_range.

(** ** [readImageable] and [readUserProperties] *)

Section imageable.
Import Fp scene helpers converters readers spec.

Lemma visibilityEpsilon_value :
  exists m e, visibilityEpsilon = S754_finite false m e.
Proof. eexists _, _. vm_compute. reflexivity. Qed.

Lemma invisible_below_epsilon (visibility : double) :
  GfIsClose visibility zero visibilityEpsilon || SFltb visibility zero
  = SFltb visibility visibilityEpsilon.
Proof.
  destruct visibilityEpsilon_value as (m & e & ->).
  unfold GfIsClose, zero.
  destruct visibility as [[|] | [|] | | [|] mv ev]; try reflexivity.
  - cbn [SFsub SFabs]. rewrite orb_true_r. reflexivity.
  - cbn [SFsub SFabs]. rewrite orb_false_r. reflexivity.
Qed.

(** X20.  A node is reported invisible exactly when its visibility value is
    below 1e-6, negative values and zero included; every other value,
    not-a-number included, gives inherited. *)
Theorem invisible_iff_visibility_below_epsilon
    (Visibility_evaluate : FbxNode -> FbxTime -> double)
    (node : FbxNode) (time : FbxTime) :
  imageableVisibility Visibility_evaluate node time
  = if SFltb (Visibility_evaluate node time) visibilityEpsilon
    then UsdGeomTokens_invisible else UsdGeomTokens_inherited.
Proof.
  unfold imageableVisibility. cbv zeta.
  rewrite invisible_below_epsilon. reflexivity.
Qed.

End imageable.
(** ** The properties authored by the two readers *)

Section imageable_and_user_properties.
Import Fp scene helpers converters readers spec.

(** X21.  Over a well-formed frame range [readImageable] authors three
    properties, in this order: the visibility token, whose default is the
    token at frame 0 and whose samples, when there is an animation layer,
    are the tokens at the frames of the range; the purpose, a uniform token
    of value default whose time samples are left as the sink hands them
    out; and generated:visibility, a double that holds the node's
    visibility value and the samples of its curves. *)
Theorem readImageable_authors_three_properties (tokens : UsdFbxTokens)
    (DisplayGroup_imageable : TfToken)
    (Visibility_value : FbxNode -> double)
    (Visibility_curveNodes :
       FbxNode -> FbxAnimLayer -> option FbxAnimCurveNode)
    (Visibility_evaluate : FbxNode -> FbxTime -> double)
    (context : FbxNodeReaderContext) :
  GetStart (GetAnimTimeSpan context) <= GetStop (GetAnimTimeSpan context) ->
  GetStop (GetAnimTimeSpan context) - GetStart (GetAnimTimeSpan context) + 1
  < 2 ^ 64 ->
  exists visibility purpose generated,
    readImageable tokens DisplayGroup_imageable Visibility_value
      Visibility_curveNodes Visibility_evaluate context
    = Some [PropertyCreated "visibility" visibility;
            PropertyCreated "purpose" purpose;
            PropertyCreated "generated:visibility" generated]
    /\ typeName visibility = SdfValueTypeNames.Token
    /\ value visibility
       = VtToken (imageableVisibility Visibility_evaluate (GetNode context) 0)
    /\ timeSamples visibility
       = match GetAnimLayer context with
         | None => []
         | Some _ =>
             (fun frame =>
                (frame,
                 VtToken (imageableVisibility Visibility_evaluate
                            (GetNode context) frame)))
               <$> frames (GetAnimTimeSpan context)
         end
    /\ variability purpose = SdfVariabilityUniform
    /\ value purpose = VtToken "default"
    /\ timeSamples purpose
       = timeSamples (AddProperty context
                        (AppendProperty (GetPath context) "purpose"))
    /\ typeName generated = SdfValueTypeNames.Double
    /\ value generated = VtDouble (Visibility_value (GetNode context))
    /\ getPropertyAnimation
         (Visibility Visibility_value Visibility_curveNodes (GetNode context))
         (GetAnimLayer context) (GetAnimTimeSpan context)
       = Some (timeSamples generated).
Proof.
  intros Hrange Hcount.
  destruct (getPropertyAnimation_defined
              (Visibility Visibility_value Visibility_curveNodes
                 (GetNode context))
              (GetAnimLayer context) (GetAnimTimeSpan context) Hrange Hcount)
    as [samples Hsamples].
  { intros layer curveNode frame _ _ Hcurves.
    apply double_samples_convert; [reflexivity | exact Hcurves]. }
  unfold readImageable. cbv zeta.
  unfold CreateUniformProperty_named, CreateProperty_named,
    CreateProperty_fn_named.
  rewrite CreateProperty_without_curve.
  cbn [fmap option_fmap option_map mbind option_bind].
  unfold CreateProperty. rewrite Hsamples.
  cbn [fmap option_fmap option_map mbind option_bind].
  eexists _, _, _. split; [reflexivity |].
  cbn [typeName value timeSamples variability CreateProperty_fn].
  split; [reflexivity |]. split; [reflexivity |].
  split.
  { unfold getPropertyAnimation_fn.
    destruct (GetAnimLayer context); [| reflexivity].
    rewrite foldl_push_back. reflexivity. }
  repeat (split; [reflexivity |]). reflexivity.
Qed.

(** X21 at a node that is fully visible at every frame of 0 to 10. *)
Lemma readImageable_authors_three_properties_witness :
  exists visibility purpose generated,
    readImageable examples.usdFbxTokens "Imageable"
      (fun _ => examples.d 1) (fun _ _ => None) (fun _ _ => examples.d 1)
      examples.propsContext
    = Some [PropertyCreated "visibility" visibility;
            PropertyCreated "purpose" purpose;
            PropertyCreated "generated:visibility" generated]
    /\ value visibility = VtToken "inherited"
    /\ length (timeSamples visibility) = 11%nat
    /\ variability purpose = SdfVariabilityUniform.
Proof.
  destruct (readImageable_authors_three_properties examples.usdFbxTokens
              "Imageable" (fun _ => examples.d 1) (fun _ _ => None)
              (fun _ _ => examples.d 1) examples.propsContext
              ltac:(simpl; lia) ltac:(simpl; lia))
    as (visibility & purpose & generated & Hcalls & _ & Hvalue & Hsamples
        & Huniform & _).
  exists visibility, purpose, generated.
  split; [exact Hcalls |]. split; [rewrite Hvalue; reflexivity |].
  split; [rewrite Hsamples; reflexivity | exact Huniform].
Defined.

Lemma collecting_loop {A B} (f : A -> option B) (l : list A) :
  forall acc,
    loopM (fun calls a => call ← f a; Some (calls ++ [call])) l acc
    = (fun cs => acc ++ cs) <$> mapM f l.
Proof.
  induction l as [| a l IH]; intros acc.
  - simpl. rewrite app_nil_r. reflexivity.
  - cbn [loopM mapM]. destruct (f a) as [b |]; [| reflexivity].
    cbn [mbind option_bind]. rewrite IH.
    destruct (mapM f l) as [bs |]; [| reflexivity].
    simpl. rewrite <- app_assoc. reflexivity.
Qed.

(** X22.  [readUserProperties] authors one property per user-defined
    property of the node, in the node's property order and none for any
    other property: it is named userProperties: followed by the cleaned
    name, is declared with the type name of the source property, is
    varying, has the source's default value and the samples of its curves.
    Without an animation layer the reader always completes. *)
Theorem readUserProperties_one_property_per_user_property
    (DisplayGroup_user : TfToken)
    (GetProperties : FbxNode -> list FbxProperty)
    (cleanName : string -> string) (context : FbxNodeReaderContext) :
  (GetAnimLayer context = None ->
   is_Some (readUserProperties DisplayGroup_user GetProperties cleanName
              context))
  /\ forall calls,
       readUserProperties DisplayGroup_user GetProperties cleanName context
       = Some calls ->
       Forall2
         (fun fbxProperty call =>
            exists prop,
              call = PropertyCreated
                       ("userProperties:" +:+ cleanName (Name fbxProperty))
                       prop
              /\ typeName prop = getSdfTypeName fbxProperty
              /\ value prop = getValue fbxProperty
              /\ variability prop = SdfVariabilityVarying
              /\ getPropertyAnimation fbxProperty (GetAnimLayer context)
                   (GetAnimTimeSpan context)
                 = Some (timeSamples prop))
         (filter (fun p => UserDefined p = true)
                 (GetProperties (GetNode context)))
         calls.
Proof.
  unfold readUserProperties. rewrite collecting_loop.
  unfold getUserProperties. split.
  - intros Hstatic. rewrite fmap_is_Some. apply mapM_is_Some.
    apply Forall_forall. intros p _.
    unfold readUserProperty, CreateProperty_named, CreateProperty. cbv zeta.
    rewrite Hstatic. eexists. reflexivity.
  - intros calls Hcalls.
    destruct (mapM _ _) as [cs |] eqn:Hmap; [| discriminate].
    injection Hcalls as <-. cbn [app].
    apply mapM_Some in Hmap.
    eapply List.Forall2_impl; [| exact Hmap].
    intros p call Hcall. cbv beta in Hcall.
    unfold readUserProperty, CreateProperty_named, CreateProperty in Hcall.
    cbv zeta in Hcall.
    destruct (getPropertyAnimation p _ _) as [samples |]; [| discriminate].
    cbn [fmap option_fmap option_map mbind option_bind] in Hcall.
    injection Hcall as <-. eexists. split; [reflexivity |].
    repeat (split; [reflexivity |]). reflexivity.
Qed.

(** X22 at a node with a short, a built-in and a half property. *)
Lemma readUserProperties_one_property_per_user_property_witness :
  exists calls,
    readUserProperties "User" examples.nodeProperties (fun name => name)
      examples.propsContext = Some calls
    /\ Forall2
         (fun fbxProperty call =>
            exists prop,
              call = PropertyCreated ("userProperties:" +:+ Name fbxProperty)
                       prop
              /\ typeName prop = getSdfTypeName fbxProperty)
         [examples.shortProperty; examples.halfProperty] calls.
Proof.
  assert (is_Some (readUserProperties "User" examples.nodeProperties
                     (fun name => name) examples.propsContext))
    as [calls Hcalls] by (vm_compute; eexists; reflexivity).
  exists calls. split; [exact Hcalls |].
  eapply List.Forall2_impl;
    [| exact (proj2 (readUserProperties_one_property_per_user_property
                       "User" examples.nodeProperties (fun name => name)
                       examples.propsContext) calls Hcalls)].
  intros p call (prop & Hcall & Htype & _).
  exists prop. split; assumption.
Defined.

End imageable_and_user_properties.
(** ** Sample types of the camera reader *)

Section camera_samples.
Import Fp scene helpers converters readers spec.

(** X24.  For a camera node over a well-formed frame range, the properties
    focalLength and focusDistance are declared as Float and hold a float
    default, while each of their time samples holds a double: the focal
    length is sampled once per frame when there is an animation layer, the
    focus distance through the curves of the camera's property.  The
    samples of generated:fov hold floats like its default. *)
Theorem camera_samples_hold_doubles_under_float_defaults
    (tokens : UsdFbxTokens)
    (GetConversionFactorTo : FbxSystemUnit -> FbxSystemUnit -> double)
    (mm : FbxSystemUnit) (context : FbxNodeReaderContext)
    (camera : FbxCamera) :
  GetNodeAttribute (GetNode context) = Some eCamera ->
  GetCamera context = Some camera ->
  GetStart (GetAnimTimeSpan context) <= GetStop (GetAnimTimeSpan context) ->
  GetStop (GetAnimTimeSpan context) - GetStart (GetAnimTimeSpan context) + 1
  < 2 ^ 64 ->
  exists calls,
    readCamera tokens GetConversionFactorTo mm context = Some calls
    /\ (exists prop, PropertyCreated UsdGeomTokens.focalLength prop ∈ calls)
    /\ (forall prop,
          PropertyCreated UsdGeomTokens.focalLength prop ∈ calls ->
          typeName prop = SdfValueTypeNames.Float
          /\ GetType (value prop) = h_float
          /\ timeSamples prop
             = match GetAnimLayer context with
               | None => []
               | Some _ =>
                   (fun frame =>
                      (frame,
                       VtDouble (cameraFocalLength GetConversionFactorTo mm
                                   camera frame true)))
                     <$> frames (GetAnimTimeSpan context)
               end)
    /\ (forall prop,
          PropertyCreated UsdGeomTokens.focusDistance prop ∈ calls ->
          typeName prop = SdfValueTypeNames.Float
          /\ GetType (value prop) = h_float
          /\ getPropertyAnimation (FocusDistance camera)
               (GetAnimLayer context) (GetAnimTimeSpan context)
             = Some (timeSamples prop)
          /\ Forall (fun sample => GetType sample.2 = h_double)
                    (timeSamples prop))
    /\ (forall prop,
          PropertyCreated "generated:fov" prop ∈ calls ->
          typeName prop = SdfValueTypeNames.Float
          /\ GetType (value prop) = h_float
          /\ Forall (fun sample => GetType sample.2 = h_float)
                    (timeSamples prop)).
Proof.
  intros Hattr Hcamera Hrange Hbound.
  unfold readCamera. rewrite Hattr, Hcamera.
  rewrite bool_decide_eq_true_2 by reflexivity. cbn [negb mbind option_bind].
  unfold CreateProperty_named.
  rewrite !CreateProperty_without_curve.
  destruct (getPropertyAnimation_defined (FocusDistance camera)
              (GetAnimLayer context) (GetAnimTimeSpan context) Hrange Hbound)
    as [samples Hsamples].
  { intros layer curveNode frame _ _ Hcurves.
    apply double_samples_convert; [reflexivity | exact Hcurves]. }
  pose proof (getPropertyAnimation_types (FocusDistance camera) _ _ samples
                ltac:(discriminate) ltac:(discriminate) Hsamples)
    as Hdoubles.
  assert (forall g : FbxTime -> VtValue,
            getPropertyAnimation_fn (GetNode context) (fun _ t => g t)
              (GetAnimLayer context) (GetAnimTimeSpan context)
            = match GetAnimLayer context with
              | None => []
              | Some _ =>
                  (fun frame => (frame, g frame))
                    <$> frames (GetAnimTimeSpan context)
              end) as Hfn.
  { intros g. unfold getPropertyAnimation_fn.
    destruct (GetAnimLayer context); [| reflexivity].
    rewrite foldl_push_back. reflexivity. }
  unfold CreateProperty. rewrite Hsamples.
  cbn [mbind option_bind fmap option_fmap option_map].
  unfold CreateProperty_fn_named, CreateProperty_fn. rewrite !Hfn.
  destruct (UseDepthOfField camera);
    cbn [mbind option_bind fmap option_fmap option_map app];
    eexists; (split; [reflexivity |]);
    (split; [eexists; apply elem_of_cons; right; apply elem_of_cons; left;
             reflexivity |]);
    (split; [| split]); intros prop Hin;
    repeat (apply elem_of_cons in Hin as [Hin | Hin];
            [try discriminate Hin |]);
    try (apply elem_of_nil in Hin as []);
    injection Hin as ->; cbn [typeName value timeSamples];
    repeat (split; [reflexivity |]); try reflexivity; try exact Hdoubles;
    try (split; [exact Hsamples | exact Hdoubles]);
    (destruct (GetAnimLayer context); [| constructor];
     apply Forall_fmap, Forall_forall; intros frame _; reflexivity).
Qed.

(** X24 at the camera whose focus distance follows a curve, frames 0 to
    10. *)
Lemma camera_samples_hold_doubles_under_float_defaults_witness :
  exists calls prop,
    readCamera examples.usdFbxTokens examples.conversionFactor
               examples.unit_mm (examples.cameraContext true) = Some calls
    /\ PropertyCreated UsdGeomTokens.focalLength prop ∈ calls
    /\ GetType (value prop) = h_float
    /\ length (timeSamples prop) = 11%nat.
Proof.
  destruct (camera_samples_hold_doubles_under_float_defaults
              examples.usdFbxTokens examples.conversionFactor
              examples.unit_mm (examples.cameraContext true)
              (examples.camera true)
              eq_refl eq_refl ltac:(simpl; lia) ltac:(simpl; lia))
    as (calls & Hcalls & [prop Hprop] & HfocalLength & _).
  exists calls, prop. split; [exact Hcalls |]. split; [exact Hprop |].
  destruct (HfocalLength prop Hprop) as (_ & Hdefault & Hsamples).
  split; [exact Hdefault |]. rewrite Hsamples. reflexivity.
Defined.

End camera_samples.
(** ** The user properties aggregated over a joint hierarchy *)

Section aggregated_properties.
Import Fp scene helpers converters readers spec.

Variable Visibility_value : FbxNode -> double.
Variable Visibility_curveNodes :
  FbxNode -> FbxAnimLayer -> option FbxAnimCurveNode.
Variable GetProperties : FbxNode -> list FbxProperty.
Variable GetArrayType : SdfValueTypeName -> SdfValueTypeName.

Lemma propertiesMap_find_set key prop' propertiesMap key' :
  propertiesMap_find key' (propertiesMap_set key prop' propertiesMap)
  = if decide (key' = key) then Some prop'
    else propertiesMap_find key' propertiesMap.
Proof.
  induction propertiesMap as [| [k prop] rest IH]; simpl.
  - destruct (decide (key = key')), (decide (key' = key)); congruence.
  - destruct (decide (k = key)) as [-> | Hk]; simpl.
    + destruct (decide (key = key')), (decide (key' = key)); congruence.
    + destruct (decide (k = key')) as [-> | Hk'].
      * destruct (decide (key' = key)); congruence.
      * exact IH.
Qed.

Lemma pushSample_keys time v samples :
  (pushSample time v samples).*1 = set_insert time samples.*1.
Proof.
  induction samples as [| [t vs] rest IH]; [reflexivity |].
  cbn [pushSample set_insert fmap list_fmap fst].
  destruct (time <? t); [reflexivity |].
  destruct (time =? t); [reflexivity |].
  cbn [fmap list_fmap fst]. f_equal. exact IH.
Qed.

Lemma pushSample_Forall (P : UsdTimeCode * list VtValue -> Prop) time v
    samples :
  ascending samples.*1 ->
  (forall entry, entry ∈ samples -> entry.1 <> time -> P entry) ->
  (forall vs, (time, vs) ∈ samples -> P (time, vs ++ [v])) ->
  P (time, [v]) ->
  Forall P (pushSample time v samples).
Proof.
  intros Hasc Hother Hsame Hnew. unfold UsdTimeCode in *.
  induction samples as [| [t vs] rest IH]; cbn [pushSample].
  - constructor; [exact Hnew | constructor].
  - cbn [fmap list_fmap fst ascending] in Hasc. destruct Hasc as [Ht Hasc].
    assert (forall entry, entry ∈ rest -> t < entry.1) as Hrest.
    { intros entry Hin. rewrite Forall_forall in Ht. apply Ht.
      apply list_elem_of_In. apply list_elem_of_fmap. exists entry.
      split; [reflexivity | exact Hin]. }
    destruct (time <? t) eqn:Hlt.
    + apply Z.ltb_lt in Hlt. constructor; [exact Hnew |].
      apply Forall_forall. intros entry Hin.
      apply list_elem_of_In in Hin. apply Hother; [exact Hin |].
      apply elem_of_cons in Hin as [-> | Hin]; [simpl; lia |].
      apply Hrest in Hin. lia.
    + destruct (time =? t) eqn:Heq.
      * apply Z.eqb_eq in Heq. subst t. constructor.
        -- apply Hsame. apply elem_of_cons. left. reflexivity.
        -- apply Forall_forall. intros entry Hin.
           apply list_elem_of_In in Hin. apply Hother.
           ++ apply elem_of_cons. right. exact Hin.
           ++ apply Hrest in Hin. lia.
      * apply Z.eqb_neq in Heq. constructor.
        -- apply Hother; [apply elem_of_cons; left; reflexivity |].
           simpl. lia.
        -- apply IH; [exact Hasc | |].
           ++ intros entry Hin. apply Hother. apply elem_of_cons. right.
              exact Hin.
           ++ intros vs' Hin. apply Hsame. apply elem_of_cons. right.
              exact Hin.
Qed.

Lemma ascending_NoDup (l : list Z) : ascending l -> NoDup l.
Proof.
  induction l as [| x l IH]; [intros _; constructor |].
  intros [Hx Hl]. constructor; [| apply IH; exact Hl].
  intros Hin. rewrite Forall_forall in Hx.
  apply list_elem_of_In, Hx in Hin. lia.
Qed.

Lemma pushSamples_ascending (timeAndValue : TimeSamples) :
  forall samples,
    ascending samples.*1 ->
    ascending (foldl (fun samples tv => pushSample tv.1 tv.2 samples)
                     samples timeAndValue).*1.
Proof.
  induction timeAndValue as [| tv rest IH]; intros samples Hasc;
    [exact Hasc |].
  cbn [foldl]. apply IH. rewrite pushSample_keys.
  apply set_insert_ascending. exact Hasc.
Qed.

Lemma pushSamples_bound (n : nat) (timeAndValue : TimeSamples) :
  forall samples,
    NoDup timeAndValue.*1 ->
    ascending samples.*1 ->
    Forall (fun entry : UsdTimeCode * list VtValue =>
              (length entry.2
               <= if decide (entry.1 ∈ timeAndValue.*1) then n else S n)%nat)
           samples ->
    Forall (fun entry : UsdTimeCode * list VtValue =>
              (length entry.2 <= S n)%nat)
           (foldl (fun samples tv => pushSample tv.1 tv.2 samples)
                  samples timeAndValue).
Proof.
  induction timeAndValue as [| [time v] rest IH];
    intros samples Hnodup Hasc Hbound.
  - cbn [foldl]. eapply List.Forall_impl; [| exact Hbound].
    intros entry. cbn [fmap list_fmap].
    destruct (decide (entry.1 ∈ [])) as [Hin | _];
      [apply elem_of_nil in Hin; contradiction | exact (fun H => H)].
  - cbn [foldl fst snd]. cbn [fmap list_fmap fst] in Hnodup, Hbound.
    apply NoDup_cons_1_1 in Hnodup as Hfresh.
    apply NoDup_cons_1_2 in Hnodup.
    rewrite Forall_forall in Hbound.
    apply IH; [exact Hnodup | |].
    + rewrite pushSample_keys. apply set_insert_ascending. exact Hasc.
    + apply pushSample_Forall; [exact Hasc | | |].
      * intros entry Hin Hne.
        specialize (Hbound entry (proj1 (list_elem_of_In _ _) Hin)).
        cbv beta in Hbound.
        destruct (decide (entry.1 ∈ time :: rest.*1)) as [Hin' | Hout'];
          destruct (decide (entry.1 ∈ rest.*1)) as [Hin'' | Hout''];
          try lia.
        exfalso. apply Hout'. apply elem_of_cons. right. exact Hin''.
      * intros vs Hin.
        specialize (Hbound (time, vs) (proj1 (list_elem_of_In _ _) Hin)).
        cbv beta in Hbound. cbn [fst snd] in Hbound |- *.
        destruct (decide (time ∈ time :: rest.*1)) as [_ | Hout];
          [| exfalso; apply Hout; apply elem_of_cons; left; reflexivity].
        destruct (decide (time ∈ rest.*1)); [contradiction |].
        rewrite length_app, Nat.add_1_r. apply le_n_S. exact Hbound.
      * cbn [fst snd]. destruct (decide (time ∈ rest.*1)); [contradiction |].
        simpl. lia.
Qed.

Lemma contributionsTo_snoc_same key cs token fbxProp :
  getNameAsUserProperty fbxProp = key ->
  contributionsTo key (cs ++ [(token, fbxProp)])
  = contributionsTo key cs ++ [(token, fbxProp)].
Proof.
  intros Hkey. unfold contributionsTo. rewrite list.filter_app. f_equal.
  rewrite filter_cons_True by exact Hkey. reflexivity.
Qed.

Lemma contributionsTo_snoc_other key cs token fbxProp :
  getNameAsUserProperty fbxProp <> key ->
  contributionsTo key (cs ++ [(token, fbxProp)]) = contributionsTo key cs.
Proof.
  intros Hkey. unfold contributionsTo. rewrite list.filter_app.
  rewrite filter_cons_False by exact Hkey. apply app_nil_r.
Qed.

Lemma aggregateProperty_reflects context animLayer skeletonPath
    propertiesMap fbxProp propertiesMap' cs :
  propertiesReflect GetArrayType cs propertiesMap ->
  aggregateProperty GetArrayType context animLayer skeletonPath
    propertiesMap fbxProp = Some propertiesMap' ->
  propertiesReflect GetArrayType (cs ++ [(skeletonPath, fbxProp)])
                    propertiesMap'.
Proof.
  intros Hinv Hstep. unfold aggregateProperty in Hstep. cbv zeta in Hstep.
  destruct (getPropertyAnimation fbxProp (Some animLayer)
              (GetAnimTimeSpan context)) as [timeAndValue |] eqn:Hsamples;
    [| discriminate].
  cbn [mbind option_bind] in Hstep. injection Hstep as <-.
  pose proof (ascending_NoDup _
                (getPropertyAnimation_ascending _ _ _ _ Hsamples)) as Hnodup.
  intros key. rewrite propertiesMap_find_set.
  destruct (decide (key = getNameAsUserProperty fbxProp)) as [-> | Hkey].
  - rewrite contributionsTo_snoc_same by reflexivity.
    specialize (Hinv (getNameAsUserProperty fbxProp)).
    destruct (propertiesMap_find (getNameAsUserProperty fbxProp)
                propertiesMap) as [prop |].
    + destruct Hinv
        as ((first & rest & Hown & Htype) & Hname & Hvalues & Howners
            & Hbound & Hasc).
      cbn [reflects name arrayTypeName values ownerPaths samplesAt].
      unfold reflects.
      cbn [name arrayTypeName values ownerPaths samplesAt].
      split; [exists first, (rest ++ [(skeletonPath, fbxProp)]);
              split; [rewrite Hown; reflexivity | exact Htype] |].
      split; [exact Hname |].
      split; [rewrite Hvalues, fmap_app; reflexivity |].
      split; [rewrite Howners, fmap_app; reflexivity |].
      split; [| apply pushSamples_ascending; exact Hasc].
      rewrite length_app, Nat.add_1_r.
      apply pushSamples_bound; [exact Hnodup | exact Hasc |].
      eapply List.Forall_impl; [| exact Hbound].
      intros entry Hentry. cbv beta.
      destruct (decide (entry.1 ∈ timeAndValue.*1));
        [exact Hentry | apply le_S; exact Hentry].
    + rewrite Hinv. unfold reflects.
      cbn [name arrayTypeName values ownerPaths samplesAt app].
      split; [exists (skeletonPath, fbxProp), []; split; reflexivity |].
      split; [reflexivity |]. split; [reflexivity |].
      split; [reflexivity |].
      split; [| apply pushSamples_ascending; exact I].
      apply (pushSamples_bound 0); [exact Hnodup | exact I | constructor].
  - rewrite contributionsTo_snoc_other by congruence. apply Hinv.
Qed.

Lemma aggregateProperty_loop context animLayer skeletonPath fbxProps :
  forall propertiesMap propertiesMap' cs,
    propertiesReflect GetArrayType cs propertiesMap ->
    loopM (aggregateProperty GetArrayType context animLayer skeletonPath)
          fbxProps propertiesMap = Some propertiesMap' ->
    propertiesReflect GetArrayType
      (cs ++ ((fun fbxProp => (skeletonPath, fbxProp)) <$> fbxProps))
      propertiesMap'.
Proof.
  induction fbxProps as [| fbxProp rest IH]; intros m m' cs Hinv Hloop.
  - injection Hloop as <-. simpl. rewrite app_nil_r. exact Hinv.
  - cbn [loopM] in Hloop.
    destruct (aggregateProperty _ _ _ _ m fbxProp) as [m1 |] eqn:Hstep;
      [| discriminate].
    cbn [mbind option_bind] in Hloop.
    rewrite fmap_cons, (cons_middle _ cs), app_assoc.
    apply (IH m1 m'); [| exact Hloop].
    exact (aggregateProperty_reflects _ _ _ _ _ _ _ Hinv Hstep).
Qed.

Lemma aggregateJoint_loop context animLayer skeletonTokens skeletonHierarchy :
  forall idx propertiesMap idx' propertiesMap' cs,
    propertiesReflect GetArrayType cs propertiesMap ->
    loopM (aggregateJoint Visibility_value Visibility_curveNodes
             GetProperties GetArrayType context animLayer skeletonTokens)
          skeletonHierarchy (idx, propertiesMap)
    = Some (idx', propertiesMap') ->
    propertiesReflect GetArrayType
      (cs ++ contributions
               (jointProperties Visibility_value Visibility_curveNodes
                  GetProperties animLayer)
               skeletonHierarchy (drop idx skeletonTokens))
      propertiesMap'.
Proof.
  induction skeletonHierarchy as [| skeleton rest IH];
    intros idx m idx' m' cs Hinv Hloop.
  - injection Hloop as _ <-. unfold contributions. simpl.
    rewrite app_nil_r. exact Hinv.
  - cbn [loopM] in Hloop.
    assert (aggregateJoint Visibility_value Visibility_curveNodes
              GetProperties GetArrayType context animLayer skeletonTokens
              (idx, m) skeleton
            = (skeletonPath ← skeletonTokens !! idx;
               m1 ← loopM (aggregateProperty GetArrayType context animLayer
                             skeletonPath)
                          (jointProperties Visibility_value
                             Visibility_curveNodes GetProperties animLayer
                             skeleton) m;
               Some (S idx, m1))) as Hstep by reflexivity.
    rewrite Hstep in Hloop. clear Hstep.
    destruct (skeletonTokens !! idx) as [skeletonPath |] eqn:Htoken;
      [| discriminate].
    cbn [mbind option_bind] in Hloop.
    destruct (loopM (aggregateProperty _ _ _ _) _ m) as [m1 |] eqn:Hinner;
      [| discriminate].
    cbn [mbind option_bind] in Hloop.
    rewrite (drop_S _ _ _ Htoken).
    unfold contributions. cbn [zip zip_with flat_map fst snd].
    rewrite app_assoc.
    apply (IH (S idx) m1 idx' m'); [| exact Hloop].
    exact (aggregateProperty_loop _ _ _ _ _ _ _ Hinv Hinner).
Qed.

(** X26.  In the properties map aggregated over a joint hierarchy there is
    an entry for exactly the property names some joint contributes to, and
    the entry of a name lists the default values and the owning joints'
    tokens of the contributions to that name side by side, in joint order;
    its type name is the array type of the first contribution; its time
    codes are strictly ascending and no time code holds more values than
    there are owners. *)
Theorem aggregated_user_properties_reflect_the_joints
    (context : FbxNodeReaderContext) (animLayer : FbxAnimLayer)
    (skeletonHierarchy : list FbxNode) (skeletonTokens : list TfToken)
    (propertiesMap : list (TfToken * AnimatedProperty)) :
  aggregateUserProperties Visibility_value Visibility_curveNodes
    GetProperties GetArrayType context animLayer skeletonHierarchy
    skeletonTokens = Some propertiesMap ->
  forall key,
    let own :=
      contributionsTo key
        (contributions
           (jointProperties Visibility_value Visibility_curveNodes
              GetProperties animLayer)
           skeletonHierarchy skeletonTokens) in
    match propertiesMap_find key propertiesMap with
    | None => own = []
    | Some prop =>
        (exists first rest,
           own = first :: rest
           /\ arrayTypeName prop = GetArrayType (getSdfTypeName first.2))
        /\ name prop = key
        /\ values prop = (fun c => getValue c.2) <$> own
        /\ ownerPaths prop = fst <$> own
        /\ length (values prop) = length (ownerPaths prop)
        /\ Forall (fun entry : UsdTimeCode * list VtValue =>
                     (length entry.2 <= length (ownerPaths prop))%nat)
                  (samplesAt prop)
        /\ ascending (samplesAt prop).*1
    end.
Proof.
  unfold aggregateUserProperties. intros Hresult key.
  destruct (loopM _ skeletonHierarchy (0%nat, [])) as [[idx' m] |] eqn:Hloop;
    [| discriminate].
  injection Hresult as <-.
  pose proof (aggregateJoint_loop context animLayer skeletonTokens
                skeletonHierarchy 0%nat [] idx' m []
                (fun key => eq_refl) Hloop key) as Hkey.
  cbn [app] in Hkey. rewrite drop_0 in Hkey. cbv zeta.
  destruct (propertiesMap_find key m) as [prop |]; [| exact Hkey].
  destruct Hkey as (Hfirst & Hname & Hvalues & Howners & Hbound & Hasc).
  split; [exact Hfirst |]. split; [exact Hname |].
  split; [exact Hvalues |]. split; [exact Howners |].
  split; [rewrite Hvalues, Howners, !length_fmap; reflexivity |].
  split; [| exact Hasc].
  rewrite Howners, length_fmap. exact Hbound.
Qed.

End aggregated_properties.

Section aggregated_properties_witness.
Import Fp scene helpers converters readers spec.

(** X26 at the chain A -> B -> C where A and B each have a user property
    [p]: one entry, with the values of A and B and their tokens. *)
Lemma aggregated_user_properties_reflect_the_joints_witness :
  exists propertiesMap prop,
    aggregateUserProperties (fun _ => examples.d 1) (fun _ _ => None)
      examples.jointUserProperties (fun type => type)
      examples.skeletonContext 0%nat
      (collectSkeletonHierarchy examples.jointA).1 ["A"; "A/B"; "A/B/C"]
    = Some propertiesMap
    /\ propertiesMap_find "userProperties:p" propertiesMap = Some prop
    /\ values prop = [VtInt 1; VtInt 2]
    /\ ownerPaths prop = ["A"; "A/B"].
Proof.
  assert (is_Some (aggregateUserProperties (fun _ => examples.d 1)
                     (fun _ _ => None) examples.jointUserProperties
                     (fun type => type) examples.skeletonContext 0%nat
                     (collectSkeletonHierarchy examples.jointA).1
                     ["A"; "A/B"; "A/B/C"])) as [m Hm]
    by (vm_compute; eexists; reflexivity).
  pose proof (aggregated_user_properties_reflect_the_joints
                (fun _ => examples.d 1) (fun _ _ => None)
                examples.jointUserProperties (fun type => type)
                examples.skeletonContext 0%nat
                (collectSkeletonHierarchy examples.jointA).1
                ["A"; "A/B"; "A/B/C"] m Hm "userProperties:p") as Hkey.
  cbv zeta in Hkey.
  destruct (propertiesMap_find "userProperties:p" m) as [prop |] eqn:Hfind;
    [| discriminate Hkey].
  destruct Hkey as (_ & _ & Hvalues & Howners & _).
  exists m, prop. split; [exact Hm |]. split; [exact Hfind |].
  split; [rewrite Hvalues | rewrite Howners]; reflexivity.
Defined.

End aggregated_properties_witness.
